(** * OceanMusicGen: the lyric-to-melody-to-vocal-parameter pipeline

    A shallow embedding of [scripts/enhanced_music_generator.py]
    (classes [EnhancedMusicGenerator], [EnhancedMelodyGenerator] and
    [EnhancedVocalGenerator]) and of [analyze_syllables] and
    [convert_lyrics_to_melody] from [scripts/lyrics_to_melody.py], followed
    by the properties of the pipeline.

    Conventions of the embedding.
    - Python [int] is [Z]; [%] and [//] with the positive divisor 12 are
      [Z.modulo] and [Z.div] (both floor, as in Python).
    - A float is a rational, [Q], and products, sums of durations and
      quotients of durations are exact.  Three things are kept apart from
      this idealisation.  The averages that the program compares with the
      thresholds 0.3 and 0.5 are computed by the operations of a
      [FloatArith], which are parameters, since rounding decides on which
      side of a threshold an average falls.  A float remembers whether it is
      a Python [float] or an [np.float64] where a division by zero tells
      them apart ([float_type], [py_fdiv]).  The quotient [120 / tempo],
      which rounds to 0.0 for a very large tempo, has a binary64 counterpart
      ([note_duration_binary64]).  [int(x)] truncates toward zero
      ([py_int]).  [np.mean] of an empty list, a NaN, is signalled as
      [NanResult] and shown unreachable.
    - [2 ** x] has no rational value in general: it is the parameter [exp2]
      of the functions that compute a frequency.
    - [str] is [string] over the code points 0..255, with Python's
      [isspace], [lower] and [\w] on that range.
    - A raised exception is [Err e]; the functions that can raise return a
      [result].
    - numpy's global generator is an explicit [random_state]: a sequence of
      draws and a position in it.
    - [time.time()] and [time.strftime] are read from a [Clock] that the
      caller passes. *)

From Stdlib Require Import ZArith QArith Qabs String Ascii List Sorted Lia Lqa Bool.
From Stdlib Require Import Numbers.DecimalString DecimalZ DecimalPos.
From Stdlib Require Import Floats.SpecFloat.
Import ListNotations.

Open Scope string_scope.
Open Scope Z_scope.
Open Scope Q_scope.

(** ** Exceptions *)

Inductive pyerr : Type :=
| ZeroDivisionError
| ValueError
| KeyError
| IndexError
| NanResult.

Inductive result (A : Type) : Type :=
| Ok (a : A)
| Err (e : pyerr).

Arguments Ok {A} a.
Arguments Err {A} e.

Definition bind {A B : Type} (r : result A) (k : A -> result B) : result B :=
  match r with
  | Ok a => k a
  | Err e => Err e
  end.

Notation "x <- r ;; k" := (bind r (fun x => k))
  (at level 100, r at next level, right associativity).
Notation "' p <- r ;; k" := (bind r (fun p => k))
  (at level 100, p pattern, r at next level, right associativity).

(** ** Text *)

(** [str.isspace] on code points below 256. *)
Definition isspace (c : ascii) : bool :=
  let n := nat_of_ascii c in
  ((9 <=? n) && (n <=? 13) || (28 <=? n) && (n <=? 32)
   || (n =? 133) || (n =? 160))%nat.

(** [str.lower] on one code point below 256. *)
Definition lower_char (c : ascii) : ascii :=
  let n := nat_of_ascii c in
  if ((65 <=? n) && (n <=? 90)
      || (192 <=? n) && (n <=? 222) && negb (n =? 215))%nat
  then ascii_of_nat (n + 32) else c.

Fixpoint str_lower (s : string) : string :=
  match s with
  | EmptyString => EmptyString
  | String c s' => String (lower_char c) (str_lower s')
  end.

Definition is_empty (s : string) : bool :=
  match s with
  | EmptyString => true
  | String _ _ => false
  end.

(** [s.split(sep)] for a one-character separator; [acc] is the piece being
    read. *)
Fixpoint split_on_acc (sep : ascii) (s acc : string) : list string :=
  match s with
  | EmptyString => [acc]
  | String c s' =>
      if Ascii.eqb c sep then acc :: split_on_acc sep s' EmptyString
      else split_on_acc sep s' (acc ++ String c EmptyString)
  end.

Definition str_split_on (sep : ascii) (s : string) : list string :=
  split_on_acc sep s EmptyString.

Definition newline : ascii := ascii_of_nat 10.

(** The maximal runs of characters that are not separators. *)
Fixpoint runs_acc (is_sep : ascii -> bool) (s acc : string) : list string :=
  match s with
  | EmptyString => if is_empty acc then [] else [acc]
  | String c s' =>
      if is_sep c
      then (if is_empty acc then runs_acc is_sep s' EmptyString
            else acc :: runs_acc is_sep s' EmptyString)
      else runs_acc is_sep s' (acc ++ String c EmptyString)
  end.

(** [s.split()]: the maximal runs of non-whitespace characters. *)
Definition str_split (s : string) : list string :=
  runs_acc isspace s EmptyString.

(** The class [\w] of [re] on code points below 256: alphanumeric or the
    underscore. *)
Definition is_word_char (c : ascii) : bool :=
  let n := nat_of_ascii c in
  ((48 <=? n) && (n <=? 57) || (65 <=? n) && (n <=? 90)
   || (97 <=? n) && (n <=? 122) || (n =? 95)
   || (n =? 170) || (n =? 178) || (n =? 179) || (n =? 181)
   || (n =? 185) || (n =? 186) || (188 <=? n) && (n <=? 190)
   || (192 <=? n) && (n <=? 214) || (216 <=? n) && (n <=? 246)
   || (248 <=? n))%nat.

(** [re.findall(r'\b\w+\b', s)]: the maximal runs of word characters. *)
Definition re_findall_words (s : string) : list string :=
  runs_acc (fun c => negb (is_word_char c)) s EmptyString.

Fixpoint str_lstrip (s : string) : string :=
  match s with
  | EmptyString => EmptyString
  | String c s' => if isspace c then str_lstrip s' else s
  end.

Fixpoint str_rstrip (s : string) : string :=
  match s with
  | EmptyString => EmptyString
  | String c s' =>
      match str_rstrip s' with
      | EmptyString => if isspace c then EmptyString else String c EmptyString
      | r => String c r
      end
  end.

(** [s.strip()] *)
Definition str_strip (s : string) : string := str_rstrip (str_lstrip s).

(** [s.split('[')[0]]: the text before the first opening bracket. *)
Definition str_head_before (sep : ascii) (s : string) : string :=
  match str_split_on sep s with
  | [] => EmptyString
  | h :: _ => h
  end.

Definition is_vowel (c : ascii) : bool :=
  existsb (Ascii.eqb c) (list_ascii_of_string "aeiou").

(** [len([c for c in word if c.lower() in 'aeiou'])] *)
Fixpoint count_vowels (word : string) : nat :=
  match word with
  | EmptyString => 0
  | String c w => ((if is_vowel (lower_char c) then 1 else 0) + count_vowels w)%nat
  end.

(** [str(n)] for an [int]. *)
Definition str_of_Z (n : Z) : string := NilZero.string_of_int (Z.to_int n).
Definition str_of_nat (n : nat) : string := NilZero.string_of_uint (Nat.to_uint n).

(** ** Numbers *)

(** [int(x)]: truncation toward zero. *)
Definition py_int (x : Q) : Z := Z.quot (Qnum x) (Z.pos (Qden x)).

Definition Qltb (x y : Q) : bool := negb (Qle_bool y x).

(** The type that a float value has when the program runs: Python's
    [float], or numpy's scalar [np.float64], which is what [np.mean] returns
    and what arithmetic with one gives.  The two divide by zero
    differently. *)
Inductive float_type : Type :=
| PyFloat
| NpFloat64.

(** [a / b] on integers: true division. *)
Definition py_truediv (a b : Z) : result Q :=
  if (b =? 0)%Z then Err ZeroDivisionError
  else Ok (inject_Z a / inject_Z b).

(** [x / n] for a float [x] of type [ty] and an integer [n].  On [n = 0] a
    Python [float] raises ZeroDivisionError; an [np.float64] gives a
    RuntimeWarning and an infinity or NaN, which is no rational: [None]. *)
Definition py_fdiv (ty : float_type) (x : Q) (n : Z) : result (option Q) :=
  if (n =? 0)%Z then
    match ty with
    | PyFloat => Err ZeroDivisionError
    | NpFloat64 => Ok None
    end
  else Ok (Some (x / inject_Z n)).

(** [sum(xs)] *)
Definition py_sum (xs : list Q) : Q := fold_left Qplus xs 0.

(** The averages that the program compares with thresholds.  Floating-point
    sums and quotients round, and the rounding can move an average across a
    threshold; so the operations that compute these averages are parameters
    of the model:
    - [np_mean_value xs] is the value of [np.mean(xs)] on a non-empty list,
    - [float_add x y] and [float_div x y] are the values of [x + y] and of
      [x / y] for [y] other than 0 where [convert_lyrics_to_melody] sums the
      line emotions and divides by their number.
    Of the rounding one fact is used: the mean of numbers between -1 and 1
    is between -1 and 1 (sums and quotients round monotonically, and the
    integers are floats).  The thresholds themselves need no rounding: no
    float lies between the literal [0.3] of the program and the rational
    3/10, nor between [-0.3] and -3/10, and 0.5 is a float; so a float is
    above the one exactly when it is above the other. *)
Class FloatArith : Type := {
  np_mean_value : list Q -> Q;
  float_add : Q -> Q -> Q;
  float_div : Q -> Q -> Q;
  np_mean_unit : forall xs,
    xs <> [] -> Forall (fun x => -1 <= x <= 1) xs -> -1 <= np_mean_value xs <= 1
}.

(** [np.mean(xs)]; numpy answers NaN on the empty list. *)
Definition np_mean {F : FloatArith} (xs : list Q) : result Q :=
  match xs with
  | [] => Err NanResult
  | _ => Ok (np_mean_value xs)
  end.

(** [min(xs)] and [max(xs)]: the first extremal element; [ValueError] on
    the empty sequence. *)
Definition py_min (xs : list Z) : result Z :=
  match xs with
  | [] => Err ValueError
  | x :: t => Ok (fold_left (fun m y => if (y <? m)%Z then y else m) t x)
  end.

Definition py_minQ (xs : list Q) : result Q :=
  match xs with
  | [] => Err ValueError
  | x :: t => Ok (fold_left (fun m y => if Qltb y m then y else m) t x)
  end.

Definition py_maxQ (xs : list Q) : result Q :=
  match xs with
  | [] => Err ValueError
  | x :: t => Ok (fold_left (fun m y => if Qltb m y then y else m) t x)
  end.

(** [xs.index(x)] *)
Fixpoint py_index (x : Z) (xs : list Z) : result nat :=
  match xs with
  | [] => Err ValueError
  | y :: t => if (y =? x)%Z then Ok O else i <- py_index x t ;; Ok (S i)
  end.

(** [xs[i]] for a non-negative index. *)
Definition py_getitem {A : Type} (xs : list A) (i : nat) : result A :=
  match nth_error xs i with
  | Some a => Ok a
  | None => Err IndexError
  end.

(** [d.get(k)] and [k in d] on a dict written as an association list. *)
Fixpoint dict_get {V : Type} (d : list (string * V)) (k : string) : option V :=
  match d with
  | [] => None
  | (k', v) :: d' => if String.eqb k' k then Some v else dict_get d' k
  end.

(** [range(n)] *)
Definition py_range (n : nat) : list nat := seq 0 n.

(** ** The random source *)

Record random_state : Type := mkRandom {
  uniform_draws : nat -> nat;
  normal_draws : nat -> Q;
  position : nat
}.

Definition advance (g : random_state) : random_state :=
  mkRandom (uniform_draws g) (normal_draws g) (S (position g)).

(** [np.random.choice(options)] on a non-empty literal list
    [first :: rest]; the weights [p] shape the distribution of the draw and
    not the set of possible answers. *)
Definition np_random_choice (first : Z) (rest : list Z) (g : random_state)
  : Z * random_state :=
  (nth (uniform_draws g (position g) mod S (length rest))%nat (first :: rest) first,
   advance g).

(** [np.random.normal(0, 2)] *)
Definition np_random_normal (g : random_state) : Q * random_state :=
  (normal_draws g (position g), advance g).

(** ** Data classes *)

Record AudioFeatures : Type := mkAudioFeatures {
  tempo : Z;
  key : string;
  time_signature : string;
  energy : Q;
  valence : Q;
  danceability : Q;
  acousticness : Q;
  instrumentalness : Q
}.

(** [duration_type] is not a field of the dataclass: it is the type of
    the value that the field [duration] holds. *)
Record MelodyNote : Type := mkMelodyNote {
  pitch : Z;
  duration : Q;
  velocity : Z;
  syllable : string;
  timestamp : Q;
  duration_type : float_type
}.

Record MelodyPhrase : Type := mkMelodyPhrase {
  notes : list MelodyNote;
  start_time : Q;
  emotion_weight : Q;
  lyric_line : string
}.

(** The dict built by [_analyze_lyrics_structure]. *)
Record LyricAnalysis : Type := mkLyricAnalysis {
  lines : list string;
  line_count : nat;
  emotional_arc : list Q;
  syllable_counts : list nat;
  total_syllables : nat
}.

Record GeneratedMelody : Type := mkGeneratedMelody {
  phrases : list MelodyPhrase;
  audio_features : AudioFeatures;
  structure : LyricAnalysis;
  total_duration : Q;
  note_count : nat
}.

Record VocalSettings : Type := mkVocalSettings {
  voice_type : string;
  pitch_range : Z * Z;
  vibrato_intensity : Q;
  breath_control : Q;
  articulation_style : string
}.

(** One entry of [phoneme_timing]. *)
Record PhonemeEvent : Type := mkPhonemeEvent {
  phoneme : ascii;
  ph_start_time : Q;
  ph_duration : Q;
  ph_pitch : Z;
  ph_velocity : Z
}.

(** The ['metadata'] entry of the vocal track. *)
Record TrackMetadata : Type := mkTrackMetadata {
  phoneme_count : nat;
  meta_pitch_range : Q * Q;
  dynamic_range : Q * Q;
  voice_settings : VocalSettings
}.

Record VocalTrack : Type := mkVocalTrack {
  sample_rate : Z;
  track_duration : Q;
  channels : Z;
  format : string;
  synthesis_method : string;
  voice_model : string;
  processing_chain : list string;
  metadata : TrackMetadata
}.

Record GeneratedVocals : Type := mkGeneratedVocals {
  vocal_track : VocalTrack;
  phoneme_timing : list PhonemeEvent;
  pitch_contour : list Q;
  dynamics : list Q;
  vocal_effects : list (string * Q)
}.

(** One entry of the list built by [_analyze_line_syllables]. *)
Record WordData : Type := mkWordData {
  word : string;
  syllable_count : nat;
  stress_pattern : list bool;
  word_emotion : Q
}.

(** One entry of [emotion_mappings]. *)
Record MoodConfig : Type := mkMoodConfig {
  mood_scale : string;
  mood_tempo_mod : Q;
  mood_energy : Q
}.

(** ** EnhancedMelodyGenerator: the tables of [__init__] *)

Definition scales : list (string * list Z) :=
  [ ("major", [0; 2; 4; 5; 7; 9; 11]%Z);
    ("minor", [0; 2; 3; 5; 7; 8; 10]%Z);
    ("dorian", [0; 2; 3; 5; 7; 9; 10]%Z);
    ("mixolydian", [0; 2; 4; 5; 7; 9; 10]%Z);
    ("pentatonic_major", [0; 2; 4; 7; 9]%Z);
    ("pentatonic_minor", [0; 3; 5; 7; 10]%Z);
    ("blues", [0; 3; 5; 6; 7; 10]%Z) ].

Definition emotion_mappings : list (string * MoodConfig) :=
  [ ("happy", mkMoodConfig "major" 1.1 0.8);
    ("sad", mkMoodConfig "minor" 0.9 0.4);
    ("energetic", mkMoodConfig "mixolydian" 1.2 0.9);
    ("calm", mkMoodConfig "pentatonic_major" 0.8 0.3);
    ("mysterious", mkMoodConfig "dorian" 0.95 0.5);
    ("uplifting", mkMoodConfig "major" 1.05 0.7) ].

Definition emotion_weights : list (string * Q) :=
  [ ("love", 0.9); ("joy", 0.8); ("happy", 0.7); ("beautiful", 0.6);
    ("amazing", 0.7); ("wonderful", 0.8); ("perfect", 0.6); ("dream", 0.5);
    ("sunshine", 0.7); ("freedom", 0.6); ("hope", 0.5); ("smile", 0.6);
    ("sad", -0.7); ("pain", -0.8); ("hurt", -0.6); ("broken", -0.7);
    ("lonely", -0.6); ("dark", -0.5); ("tears", -0.6); ("goodbye", -0.5);
    ("lost", -0.6); ("empty", -0.7); ("cold", -0.4); ("fear", -0.6);
    ("time", 0.0); ("day", 0.1); ("night", -0.2); ("way", 0.0);
    ("life", 0.2); ("world", 0.1); ("heart", 0.3); ("soul", 0.2) ].

(** [self.emotion_weights.get(word, 0.0)] *)
Definition emotion_of (w : string) : Q :=
  match dict_get emotion_weights w with
  | Some x => x
  | None => 0.0
  end.

(** [max(1, len([c for c in word if c.lower() in 'aeiou']))] *)
Definition estimate_syllables (w : string) : nat := Nat.max 1 (count_vowels w).

(** The stress pattern derived from a syllable count. *)
Definition default_stress (count : nat) : list bool :=
  match count with
  | 1%nat => [true]
  | 2%nat => [true; false]
  | _ => map (fun i => (i mod 2 =? 0)%nat) (py_range count)
  end.

(** ** EnhancedMelodyGenerator: lyric analysis *)

(** [[line.strip() for line in lyrics.split('\n') if line.strip()]] *)
Definition stripped_lines (lyrics : string) : list string :=
  map str_strip
      (filter (fun line => negb (is_empty (str_strip line)))
              (str_split_on newline lyrics)).

(** One iteration of the loop of [_analyze_lyrics_structure]. *)
Definition analyze_line {F : FloatArith} (line : string) (st : LyricAnalysis)
  : result LyricAnalysis :=
  let words := str_split (str_lower line) in
  line_emotion <- np_mean (map emotion_of words) ;;
  let count := fold_left Nat.add (map estimate_syllables words) O in
  Ok (mkLyricAnalysis (lines st) (line_count st)
        (emotional_arc st ++ [line_emotion])
        (syllable_counts st ++ [count])
        (total_syllables st + count)).

Fixpoint analyze_lines {F : FloatArith} (todo : list string) (st : LyricAnalysis)
  : result LyricAnalysis :=
  match todo with
  | [] => Ok st
  | line :: rest => st' <- analyze_line line st ;; analyze_lines rest st'
  end.

Definition _analyze_lyrics_structure {F : FloatArith} (lyrics : string)
  : result LyricAnalysis :=
  let lines := stripped_lines lyrics in
  analyze_lines lines (mkLyricAnalysis lines (length lines) [] [] O).

Definition _analyze_line_syllables (line : string) : list WordData :=
  map (fun w =>
         let count := estimate_syllables w in
         mkWordData w count (default_stress count) (emotion_of w))
      (str_split (str_lower line)).

(** ** EnhancedMelodyGenerator: key, scale and audio features *)

(** [np.mean(emotional_arc) if emotional_arc else 0] *)
Definition average_emotion {F : FloatArith} (arc : list Q) : Q :=
  match arc with
  | [] => 0
  | _ => np_mean_value arc
  end.

Definition _determine_key_and_scale {F : FloatArith} (arc : list Q) (mood : string)
    (g : random_state) : (Z * string) * random_state :=
  let avg_emotion := average_emotion arc in
  let scale_name :=
    match dict_get emotion_mappings (str_lower mood) with
    | Some cfg => mood_scale cfg
    | None =>
        if Qltb 0.3 avg_emotion then "major"
        else if Qltb avg_emotion (-0.3) then "minor"
        else "dorian"
    end in
  let (root_note, g') :=
    if Qltb 0.5 avg_emotion then np_random_choice 60 [62; 64; 67]%Z g
    else if Qltb avg_emotion (-0.5) then np_random_choice 57 [59; 61; 65]%Z g
    else np_random_choice 60 [62; 65; 67]%Z g in
  ((root_note, scale_name), g').

Definition note_names : list string :=
  ["C"; "C#"; "D"; "D#"; "E"; "F"; "F#"; "G"; "G#"; "A"; "A#"; "B"].

Definition _midi_to_note_name (midi_note : Z) : string :=
  let octave := (midi_note / 12 - 1)%Z in
  let note := nth (Z.to_nat (midi_note mod 12)) note_names "" in
  note ++ str_of_Z octave.

(** [setattr(features, key, value)] on the fields the tables name. *)
Definition setattr (f : AudioFeatures) (name : string) (value : Q) : AudioFeatures :=
  if String.eqb name "energy" then
    mkAudioFeatures (tempo f) (key f) (time_signature f) value (valence f)
                    (danceability f) (acousticness f) (instrumentalness f)
  else if String.eqb name "valence" then
    mkAudioFeatures (tempo f) (key f) (time_signature f) (energy f) value
                    (danceability f) (acousticness f) (instrumentalness f)
  else if String.eqb name "danceability" then
    mkAudioFeatures (tempo f) (key f) (time_signature f) (energy f) (valence f)
                    value (acousticness f) (instrumentalness f)
  else if String.eqb name "acousticness" then
    mkAudioFeatures (tempo f) (key f) (time_signature f) (energy f) (valence f)
                    (danceability f) value (instrumentalness f)
  else if String.eqb name "instrumentalness" then
    mkAudioFeatures (tempo f) (key f) (time_signature f) (energy f) (valence f)
                    (danceability f) (acousticness f) value
  else f.

Definition genre_adjustments : list (string * list (string * Q)) :=
  [ ("pop", [("danceability", 0.8); ("energy", 0.7); ("acousticness", 0.2)]);
    ("rock", [("energy", 0.9); ("acousticness", 0.1); ("danceability", 0.6)]);
    ("electronic", [("danceability", 0.9); ("energy", 0.8); ("acousticness", 0.05)]);
    ("folk", [("acousticness", 0.8); ("energy", 0.4); ("danceability", 0.3)]) ].

Definition baseline_features (tempo : Z) (root_note : Z) : AudioFeatures :=
  mkAudioFeatures tempo (_midi_to_note_name root_note) "4/4" 0.7 0.5 0.6 0.3 0.1.

Definition apply_mood (mood : string) (f : AudioFeatures) : AudioFeatures :=
  match dict_get emotion_mappings (str_lower mood) with
  | Some mood_config =>
      let f1 := setattr f "energy" (mood_energy mood_config) in
      setattr f1 "valence" (if Qltb 0.6 (mood_energy mood_config) then 0.8 else 0.3)
  | None => f
  end.

Definition apply_genre (genre : string) (f : AudioFeatures) : AudioFeatures :=
  match dict_get genre_adjustments (str_lower genre) with
  | Some adj => fold_left (fun acc kv => setattr acc (fst kv) (snd kv)) adj f
  | None => f
  end.

Definition _generate_audio_features (genre mood : string) (tempo root_note : Z)
    (scale_name : string) : AudioFeatures :=
  apply_genre genre (apply_mood mood (baseline_features tempo root_note)).

(** ** EnhancedMelodyGenerator: phrases *)

(** The block under "Constrain to scale": the scale degree kept or replaced
    by the nearest scale note. *)
Definition constrain_to_scale (scale_notes : list Z) (scale_degree : Z) : result Z :=
  if existsb (Z.eqb scale_degree) scale_notes then Ok scale_degree
  else
    let distances := map (fun note => Z.abs (scale_degree - note)) scale_notes in
    m <- py_min distances ;;
    nearest_idx <- py_index m distances ;;
    py_getitem scale_notes nearest_idx.

Definition quantize_pitch (scale_notes : list Z) (root_note current_pitch : Z)
  : result Z :=
  scale_degree <- constrain_to_scale scale_notes ((current_pitch - root_note) mod 12) ;;
  Ok (root_note + scale_degree + ((current_pitch - root_note) / 12) * 12)%Z.

Definition pitch_step (is_stressed : bool) (word_emotion : Q) : Z :=
  if is_stressed then (2 + py_int (word_emotion * 2))%Z
  else (-1 + py_int word_emotion)%Z.

Definition note_duration (is_stressed : bool) (emotion_weight : Q) (tempo : Z)
  : result Q :=
  let duration := if is_stressed then 0.75 + emotion_weight * 0.25 else 0.5 in
  r <- py_truediv 120 tempo ;;
  Ok (duration * r).

Definition note_velocity (is_stressed : bool) (word_emotion : Q) : Z :=
  let velocity := if is_stressed then 90%Z else 70%Z in
  let velocity := (velocity + py_int (Qabs word_emotion * 20))%Z in
  Z.max 40 (Z.min 127 velocity).

Definition syllable_text (word : string) (syl_count syl_idx : nat) : string :=
  if (1 <? syl_count)%nat then word ++ "[" ++ str_of_nat syl_idx ++ "]" else word.

(** The variables the two loops of [_generate_phrase_from_line] update. *)
Record PhraseCursor : Type := mkPhraseCursor {
  cur_notes : list MelodyNote;
  current_pitch : Z;
  current_time : Q
}.

(** The body of the inner loop, for one syllable.  [emotion_weight] is an
    element of the emotional arc, a result of [np.mean]: the duration of a
    stressed note, computed from it, is an [np.float64]; the duration of an
    unstressed note is the Python float [0.5 * (120 / tempo)]. *)
Definition syllable_step (scale_notes : list Z) (root_note : Z)
    (emotion_weight : Q) (tempo : Z) (wd : WordData)
    (syl_idx : nat) (is_stressed : bool)
    (c : PhraseCursor) (g : random_state) : result (PhraseCursor * random_state) :=
  let pitch_change := pitch_step is_stressed (word_emotion wd) in
  let (variation, g') := np_random_choice (-1) [0; 1]%Z g in
  let pitch_change := (pitch_change + variation)%Z in
  let current_pitch := (current_pitch c + pitch_change)%Z in
  final_pitch <- quantize_pitch scale_notes root_note current_pitch ;;
  duration <- note_duration is_stressed emotion_weight tempo ;;
  let velocity := note_velocity is_stressed (word_emotion wd) in
  let text := syllable_text (word wd) (length (stress_pattern wd)) syl_idx in
  let note := mkMelodyNote final_pitch duration velocity text (current_time c)
                (if is_stressed then NpFloat64 else PyFloat) in
  Ok (mkPhraseCursor (cur_notes c ++ [note]) current_pitch (current_time c + duration),
      g').

(** [for syl_idx, is_stressed in enumerate(stress_pattern)] *)
Fixpoint syllable_loop (scale_notes : list Z) (root_note : Z)
    (emotion_weight : Q) (tempo : Z) (wd : WordData)
    (syl_idx : nat) (todo : list bool)
    (c : PhraseCursor) (g : random_state) : result (PhraseCursor * random_state) :=
  match todo with
  | [] => Ok (c, g)
  | is_stressed :: rest =>
      ' (c', g') <- syllable_step scale_notes root_note emotion_weight tempo wd
                                  syl_idx is_stressed c g ;;
      syllable_loop scale_notes root_note emotion_weight tempo wd (S syl_idx) rest c' g'
  end.

(** [for word_data in syllable_data] *)
Fixpoint word_loop (scale_notes : list Z) (root_note : Z)
    (emotion_weight : Q) (tempo : Z) (syllable_data : list WordData)
    (c : PhraseCursor) (g : random_state) : result (PhraseCursor * random_state) :=
  match syllable_data with
  | [] => Ok (c, g)
  | wd :: rest =>
      ' (c', g') <- syllable_loop scale_notes root_note emotion_weight tempo wd
                                  O (stress_pattern wd) c g ;;
      word_loop scale_notes root_note emotion_weight tempo rest c' g'
  end.

(** [self.scales[scale_name]] *)
Definition scale_lookup (scale_name : string) : result (list Z) :=
  match dict_get scales scale_name with
  | Some s => Ok s
  | None => Err KeyError
  end.

Definition _generate_phrase_from_line (line : string) (syllable_data : list WordData)
    (emotion_weight : Q) (root_note : Z) (scale_name : string)
    (start_time : Q) (tempo : Z) (g : random_state)
  : result (MelodyPhrase * random_state) :=
  scale_notes <- scale_lookup scale_name ;;
  ' (c, g') <- word_loop scale_notes root_note emotion_weight tempo syllable_data
                         (mkPhraseCursor [] (root_note + 12)%Z start_time) g ;;
  Ok (mkMelodyPhrase (cur_notes c) start_time emotion_weight line, g').

(** ** EnhancedMelodyGenerator: the melody *)

(** The variables the loop of [generate_melody_from_lyrics] updates. *)
Record MelodyCursor : Type := mkMelodyCursor {
  melody_phrases : list MelodyPhrase;
  melody_time : Q
}.

(** [for line_idx, line in enumerate(lyric_analysis['lines'])] *)
Fixpoint phrase_loop (lyric_analysis : LyricAnalysis) (root_note : Z)
    (scale_name : string) (tempo : Z) (line_idx : nat) (todo : list string)
    (c : MelodyCursor) (g : random_state) : result (MelodyCursor * random_state) :=
  match todo with
  | [] => Ok (c, g)
  | line :: rest =>
      if is_empty (str_strip line)
      then phrase_loop lyric_analysis root_note scale_name tempo (S line_idx) rest c g
      else
        let line_syllables := _analyze_line_syllables line in
        emotion_weight <- py_getitem (emotional_arc lyric_analysis) line_idx ;;
        ' (phrase, g') <- _generate_phrase_from_line line line_syllables emotion_weight
                            root_note scale_name (melody_time c) tempo g ;;
        phrase_loop lyric_analysis root_note scale_name tempo (S line_idx) rest
          (mkMelodyCursor (melody_phrases c ++ [phrase])
                          (melody_time c + py_sum (map duration (notes phrase))))
          g'
  end.

Definition count_notes (ps : list MelodyPhrase) : nat :=
  fold_left Nat.add (map (fun p => length (notes p)) ps) O.

(** The optional argument [structure] is never read and is left out. *)
Definition generate_melody_from_lyrics {F : FloatArith} (lyrics genre mood : string)
    (tempo : Z) (g : random_state) : result (GeneratedMelody * random_state) :=
  lyric_analysis <- _analyze_lyrics_structure lyrics ;;
  let '((root_note, scale_name), g1) :=
    _determine_key_and_scale (emotional_arc lyric_analysis) mood g in
  let audio_features := _generate_audio_features genre mood tempo root_note scale_name in
  ' (c, g2) <- phrase_loop lyric_analysis root_note scale_name tempo O
                 (lines lyric_analysis) (mkMelodyCursor [] 0.0) g1 ;;
  Ok (mkGeneratedMelody (melody_phrases c) audio_features lyric_analysis
        (melody_time c) (count_notes (melody_phrases c)),
      g2).

(** ** EnhancedVocalGenerator *)

Definition left_bracket : ascii := ascii_of_nat 91.

(** The inner loop of [_generate_phoneme_timing]: one event per phoneme. *)
Fixpoint phoneme_events (phonemes : list ascii) (phoneme_duration : Q)
    (note : MelodyNote) (current_time : Q) : list PhonemeEvent :=
  match phonemes with
  | [] => []
  | p :: rest =>
      mkPhonemeEvent p current_time phoneme_duration (pitch note) (velocity note)
      :: phoneme_events rest phoneme_duration note (current_time + phoneme_duration)
  end.

Definition note_phonemes (note : MelodyNote) : list ascii :=
  list_ascii_of_string (str_lower (str_head_before left_bracket (syllable note))).

(** The body of the loop of [_generate_phoneme_timing], for one note.  The
    quotient has no rational value only when there is no phoneme, and the
    inner loop has no iteration then. *)
Definition note_phoneme_timing (note : MelodyNote) : result (list PhonemeEvent) :=
  let phonemes := note_phonemes note in
  phoneme_duration <- py_fdiv (duration_type note) (duration note)
                        (Z.of_nat (length phonemes)) ;;
  match phoneme_duration with
  | Some d => Ok (phoneme_events phonemes d note (timestamp note))
  | None => Ok []
  end.

Fixpoint notes_phoneme_timing (ns : list MelodyNote) (acc : list PhonemeEvent)
  : result (list PhonemeEvent) :=
  match ns with
  | [] => Ok acc
  | note :: rest =>
      evs <- note_phoneme_timing note ;;
      notes_phoneme_timing rest (acc ++ evs)
  end.

Definition all_notes (melody : GeneratedMelody) : list MelodyNote :=
  concat (map notes (phrases melody)).

Definition _generate_phoneme_timing (melody : GeneratedMelody)
  : result (list PhonemeEvent) :=
  notes_phoneme_timing (all_notes melody) [].

(** [max(1, int(note.duration * 10))] *)
Definition num_points (note : MelodyNote) : nat :=
  Z.to_nat (Z.max 1 (py_int (duration note * 10))).

(** [440 * (2 ** ((note.pitch - 69) / 12))] *)
Definition note_frequency (exp2 : Q -> Q) (note : MelodyNote) : Q :=
  440 * exp2 (inject_Z (pitch note - 69) / 12).

Fixpoint contour_samples (frequency : Q) (n : nat) (g : random_state)
  : list Q * random_state :=
  match n with
  | O => ([], g)
  | S n' =>
      let (variation, g1) := np_random_normal g in
      let (rest, g2) := contour_samples frequency n' g1 in
      ((frequency + variation) :: rest, g2)
  end.

Fixpoint notes_pitch_contour (exp2 : Q -> Q) (ns : list MelodyNote)
    (acc : list Q) (g : random_state) : list Q * random_state :=
  match ns with
  | [] => (acc, g)
  | note :: rest =>
      let (samples, g') := contour_samples (note_frequency exp2 note) (num_points note) g in
      notes_pitch_contour exp2 rest (acc ++ samples) g'
  end.

Definition _extract_pitch_contour (exp2 : Q -> Q) (melody : GeneratedMelody)
    (g : random_state) : list Q * random_state :=
  notes_pitch_contour exp2 (all_notes melody) [] g.

(** The attack, sustain and release shape at sample [i] of [n]. *)
Definition envelope_at (n i : nat) : Q :=
  let np := inject_Z (Z.of_nat n) in
  let iq := inject_Z (Z.of_nat i) in
  if Qltb iq (np * 0.1) then iq / (np * 0.1)
  else if Qltb (np * 0.8) iq then (np - iq) / (np * 0.2)
  else 1.0.

Definition note_dynamics (note : MelodyNote) : list Q :=
  let amplitude := inject_Z (velocity note) / 127.0 in
  map (fun i => amplitude * envelope_at (num_points note) i)
      (py_range (num_points note)).

Definition _generate_dynamics (melody : GeneratedMelody) : list Q :=
  fold_left (fun acc note => (acc ++ note_dynamics note)%list) (all_notes melody) [].

Definition _generate_vocal_effects (voice_settings : VocalSettings)
  : list (string * Q) :=
  [ ("reverb", 0.3); ("chorus", 0.2); ("vibrato_rate", 5.0);
    ("vibrato_depth", vibrato_intensity voice_settings);
    ("breath_noise", 1.0 - breath_control voice_settings);
    ("compression", 0.6); ("eq_low", 0.0); ("eq_mid", 0.1); ("eq_high", 0.2) ].

(** [user_voice_sample] enters only through its truth value. *)
Definition _synthesize_vocal_track (melody : GeneratedMelody)
    (phoneme_timing : list PhonemeEvent) (pitch_contour dynamics : list Q)
    (voice_settings : VocalSettings) (user_voice_sample : bool)
  : result VocalTrack :=
  pitch_lo <- py_minQ pitch_contour ;;
  pitch_hi <- py_maxQ pitch_contour ;;
  dyn_lo <- py_minQ dynamics ;;
  dyn_hi <- py_maxQ dynamics ;;
  Ok (mkVocalTrack 44100 (total_duration melody) 1 "wav"
        (if user_voice_sample then "neural_vocoder" else "parametric")
        (voice_type voice_settings)
        ["phoneme_synthesis"; "pitch_modulation"; "dynamic_control";
         "vocal_effects"; "mastering"]
        (mkTrackMetadata (length phoneme_timing) (pitch_lo, pitch_hi)
           (dyn_lo, dyn_hi) voice_settings)).

Definition default_voice_settings : VocalSettings :=
  mkVocalSettings "male_lead" (60, 84)%Z 0.3 0.7 "clear_melodic".

Definition generate_vocals_with_melody (exp2 : Q -> Q) (lyrics : string)
    (melody : GeneratedMelody) (voice_settings : option VocalSettings)
    (user_voice_sample : bool) (g : random_state)
  : result (GeneratedVocals * random_state) :=
  let voice_settings :=
    match voice_settings with
    | None => default_voice_settings
    | Some v => v
    end in
  phoneme_timing <- _generate_phoneme_timing melody ;;
  let (pitch_contour, g') := _extract_pitch_contour exp2 melody g in
  let dynamics := _generate_dynamics melody in
  let vocal_effects := _generate_vocal_effects voice_settings in
  vocal_track <- _synthesize_vocal_track melody phoneme_timing pitch_contour
                   dynamics voice_settings user_voice_sample ;;
  Ok (mkGeneratedVocals vocal_track phoneme_timing pitch_contour dynamics
        vocal_effects, g').

(** ** EnhancedMusicGenerator *)

(** The two stages [generate_song] awaits in sequence, melody then vocals;
    the identifier and the creation date that it adds from the clock are not
    part of the melody and of the vocals. *)
Definition generate_song_stages {F : FloatArith} (exp2 : Q -> Q)
    (lyrics genre mood : string)
    (tempo : Z) (voice_settings : option VocalSettings) (user_voice_sample : bool)
    (g : random_state)
  : result ((GeneratedMelody * GeneratedVocals) * random_state) :=
  ' (melody, g1) <- generate_melody_from_lyrics lyrics genre mood tempo g ;;
  ' (vocals, g2) <- generate_vocals_with_melody exp2 lyrics melody voice_settings
                      user_voice_sample g1 ;;
  Ok ((melody, vocals), g2).

(** [np.random.randint(low, high)]: an integer from [low] up to [high]
    excluded; [ValueError] when there is none. *)
Definition np_random_randint (low high : Z) (g : random_state)
  : result (Z * random_state) :=
  if (low <? high)%Z
  then Ok ((low + Z.of_nat (uniform_draws g (position g)) mod (high - low))%Z, advance g)
  else Err ValueError.

(** [time.time()] and [time.strftime(...)] at the moment of the call. *)
Record Clock : Type := mkClock {
  epoch_seconds : Z;
  formatted_time : string
}.

(** [s.replace(' ', '_')] *)
Fixpoint replace_spaces (s : string) : string :=
  match s with
  | EmptyString => EmptyString
  | String c s' =>
      String (if Ascii.eqb c " " then "_"%char else c) (replace_spaces s')
  end.

Module EnhancedMusicGenerator.

(** One entry of [self.genre_configs]. *)
Record GenreConfig : Type := mkGenreConfig {
  tempo_range : Z * Z;
  energy_range : Q * Q;
  config_structure : list string;
  vocal_style : string
}.

Definition genre_configs : list (string * GenreConfig) :=
  [ ("pop", mkGenreConfig (100, 140)%Z (0.6, 0.9)
              ["intro"; "verse"; "chorus"; "verse"; "chorus"; "bridge"; "chorus"; "outro"]
              "clear_melodic");
    ("rock", mkGenreConfig (110, 160)%Z (0.7, 1.0)
               ["intro"; "verse"; "chorus"; "verse"; "chorus"; "solo"; "chorus"; "outro"]
               "powerful_raspy");
    ("electronic", mkGenreConfig (120, 140)%Z (0.8, 1.0)
                     ["intro"; "buildup"; "drop"; "breakdown"; "buildup"; "drop"; "outro"]
                     "processed_synthetic") ].

Definition pop_config : GenreConfig :=
  mkGenreConfig (100, 140)%Z (0.6, 0.9)
    ["intro"; "verse"; "chorus"; "verse"; "chorus"; "bridge"; "chorus"; "outro"]
    "clear_melodic".

(** The dict [song_data]: an absent key is [None]; the values of
    ['metadata'] are of any type [V]; ['user_voice_sample'] enters through its
    truth value, false when the key is absent. *)
Record SongData (V : Type) : Type := mkSongData {
  data_title : option string;
  data_lyrics : option string;
  data_genre : option string;
  data_mood : option string;
  data_tempo : option Z;
  data_structure : option (list string);
  data_vocal_settings : option VocalSettings;
  data_vocals : option string;
  data_user_voice_sample : bool;
  data_metadata : option (list (string * V))
}.

Arguments mkSongData {V}.
Arguments data_title {V}.
Arguments data_lyrics {V}.
Arguments data_genre {V}.
Arguments data_mood {V}.
Arguments data_tempo {V}.
Arguments data_structure {V}.
Arguments data_vocal_settings {V}.
Arguments data_vocals {V}.
Arguments data_user_voice_sample {V}.
Arguments data_metadata {V}.

Record Song (V : Type) : Type := mkSong {
  id : string;
  title : string;
  lyrics : string;
  genre : string;
  mood : string;
  tempo : Z;
  melody : GeneratedMelody;
  vocals : GeneratedVocals;
  audio_url : string;
  created_at : string;
  metadata : list (string * V)
}.

Arguments mkSong {V}.
Arguments id {V}.
Arguments title {V}.
Arguments lyrics {V}.
Arguments genre {V}.
Arguments mood {V}.
Arguments tempo {V}.
Arguments melody {V}.
Arguments vocals {V}.
Arguments audio_url {V}.
Arguments created_at {V}.
Arguments metadata {V}.

(** [d[k]] on a key of [song_data]. *)
Definition required {A : Type} (o : option A) : result A :=
  match o with
  | Some a => Ok a
  | None => Err KeyError
  end.

(** [self.genre_configs.get(genre, self.genre_configs['pop'])] for
    [genre = song_data.get('genre', 'pop').lower()] *)
Definition config_for {V : Type} (song_data : SongData V) : GenreConfig :=
  let genre := str_lower match data_genre song_data with
                         | Some g => g
                         | None => "pop"
                         end in
  match dict_get genre_configs genre with
  | Some config => config
  | None => pop_config
  end.

Definition _enhance_song_data {V : Type} (song_data : SongData V) (g : random_state)
  : result (SongData V * random_state) :=
  let config := config_for song_data in
  ' (tempo, g1) <-
      match data_tempo song_data with
      | Some t => Ok (t, g)
      | None => np_random_randint (fst (tempo_range config)) (snd (tempo_range config)) g
      end ;;
  let structure :=
    match data_structure song_data with
    | Some s => s
    | None => config_structure config
    end in
  let vocal_settings :=
    match data_vocal_settings song_data with
    | Some v => v
    | None =>
        mkVocalSettings
          match data_vocals song_data with
          | Some v => v
          | None => "male_lead"
          end
          (60, 84)%Z 0.3 0.7 (vocal_style config)
    end in
  Ok (mkSongData (data_title song_data) (data_lyrics song_data)
        (data_genre song_data) (data_mood song_data) (Some tempo) (Some structure)
        (Some vocal_settings) (data_vocals song_data)
        (data_user_voice_sample song_data) (data_metadata song_data),
      g1).

(** The body of the [try] of [generate_song]. *)
Definition generate_song_body {F : FloatArith} {V : Type} (exp2 : Q -> Q)
    (song_data : SongData V)
    (clock : Clock) (g : random_state) : result (Song V) :=
  ' (enhanced_data, g0) <- _enhance_song_data song_data g ;;
  lyrics <- required (data_lyrics enhanced_data) ;;
  genre <- required (data_genre enhanced_data) ;;
  mood <- required (data_mood enhanced_data) ;;
  tempo <- required (data_tempo enhanced_data) ;;
  ' (melody, g1) <- generate_melody_from_lyrics lyrics genre mood tempo g0 ;;
  ' (vocals, g2) <- generate_vocals_with_melody exp2 lyrics melody
                      (data_vocal_settings enhanced_data)
                      (data_user_voice_sample enhanced_data) g1 ;;
  title <- required (data_title enhanced_data) ;;
  Ok (mkSong ("song_" ++ str_of_Z (epoch_seconds clock)) title lyrics genre mood
        tempo melody vocals
        ("/generated/" ++ replace_spaces (str_lower title) ++ ".wav")
        (formatted_time clock)
        match data_metadata enhanced_data with
        | Some m => m
        | None => []
        end).

(** What a call of [generate_song] ends with: the song, or the exception
    ['Failed to generate song: ...'] that wraps any exception of the body. *)
Inductive SongOutcome (V : Type) : Type :=
| Generated (song : Song V)
| FailedToGenerate (cause : pyerr).

Arguments Generated {V} song.
Arguments FailedToGenerate {V} cause.

Definition generate_song {F : FloatArith} {V : Type} (exp2 : Q -> Q)
    (song_data : SongData V)
    (clock : Clock) (g : random_state) : SongOutcome V :=
  match generate_song_body exp2 song_data clock g with
  | Ok song => Generated song
  | Err error => FailedToGenerate error
  end.

End EnhancedMusicGenerator.

(** ** lyrics_to_melody.py: [LyricsToMelodyGenerator] *)

Module LyricsToMelody.

(** [self.stress_patterns] *)
Definition stress_patterns : list (string * list bool) :=
  [ ("beautiful", [true; false; false]);
    ("amazing", [false; true; false]);
    ("wonderful", [true; false; false]);
    ("together", [false; true; false]);
    ("forever", [false; true; false]);
    ("remember", [false; true; false]);
    ("believe", [false; true]);
    ("freedom", [true; false]);
    ("sunshine", [true; false]) ].

(** [len(re.findall(r'[aeiouAEIOU]', word))] *)
Fixpoint count_vowel_matches (w : string) : nat :=
  match w with
  | EmptyString => O
  | String c w' =>
      ((if existsb (Ascii.eqb c) (list_ascii_of_string "aeiouAEIOU") then 1 else 0)
       + count_vowel_matches w')%nat
  end.

(** The body of the loop of [analyze_syllables], for one word.  The
    table [self.emotion_weights] of this class has the entries of the one
    of [EnhancedMelodyGenerator]. *)
Definition analyze_word (w : string) : WordData :=
  let syllable_count := Nat.max 1 (count_vowel_matches w) in
  let stress :=
    match dict_get stress_patterns w with
    | Some pattern => pattern
    | None => default_stress syllable_count
    end in
  mkWordData w syllable_count stress (emotion_of w).

Definition analyze_syllables (text : string) : list WordData :=
  map analyze_word (re_findall_words (str_lower text)).

(** The scale chosen by [convert_lyrics_to_melody], which has no mood
    table. *)
Definition scale_for_emotion (avg_emotion : Q) : string :=
  if Qltb 0.3 avg_emotion then "major"
  else if Qltb avg_emotion (-0.3) then "minor"
  else "dorian".

Module Note.
Record t : Type := mk {
  pitch : Z;
  duration : Q;
  velocity : Z;
  syllable : string
}.
End Note.

Module Phrase.
Record t : Type := mk {
  notes : list Note.t;
  start_beat : Q;
  emotion_weight : Q;
  stress_pattern : list bool
}.
End Phrase.

(** The dict that [convert_lyrics_to_melody] returns. *)
Module Result.
Record t : Type := mk {
  lyrics : string;
  key : Z;
  scale : string;
  tempo : Z;
  melody_lines : list Phrase.t;
  total_duration : Q;
  note_count : nat;
  emotional_arc : list Q
}.
End Result.

(** The first loop of [convert_lyrics_to_melody]: the emotion of each line
    and their sum. *)
Fixpoint emotion_loop {F : FloatArith} (todo : list string) (arc : list Q)
    (avg_emotion : Q) : result (list Q * Q) :=
  match todo with
  | [] => Ok (arc, avg_emotion)
  | line :: rest =>
      line_emotion <- np_mean (map emotion_of (str_split (str_lower line))) ;;
      emotion_loop rest (arc ++ [line_emotion]) (float_add avg_emotion line_emotion)
  end.

(** The variables the loops over the syllables update. *)
Record BeatCursor : Type := mkBeatCursor {
  beat_notes : list Note.t;
  beat_pitch : Z;
  current_beat : Q
}.

(** The body of the innermost loop, for one syllable.  The table
    [self.scales] of this class has the entries of [scales]. *)
Definition convert_syllable (scale_notes : list Z) (root_note tempo : Z)
    (wd : WordData) (syl_idx : nat) (is_stressed : bool)
    (c : BeatCursor) (g : random_state) : result (BeatCursor * random_state) :=
  let pitch_change := pitch_step is_stressed (word_emotion wd) in
  let (variation, g') := np_random_choice (-1) [0; 1]%Z g in
  let pitch_change := (pitch_change + variation)%Z in
  let current_pitch := (beat_pitch c + pitch_change)%Z in
  final_pitch <- quantize_pitch scale_notes root_note current_pitch ;;
  let duration := if is_stressed then 0.75 else 0.5 in
  r <- py_truediv 120 tempo ;;
  let duration := duration * r in
  let velocity := note_velocity is_stressed (word_emotion wd) in
  let text := syllable_text (word wd) (length (stress_pattern wd)) syl_idx in
  let note := Note.mk final_pitch duration velocity text in
  Ok (mkBeatCursor (beat_notes c ++ [note]) current_pitch (current_beat c + duration),
      g').

Fixpoint convert_syllables (scale_notes : list Z) (root_note tempo : Z)
    (wd : WordData) (syl_idx : nat) (todo : list bool)
    (c : BeatCursor) (g : random_state) : result (BeatCursor * random_state) :=
  match todo with
  | [] => Ok (c, g)
  | is_stressed :: rest =>
      ' (c', g') <- convert_syllable scale_notes root_note tempo wd syl_idx
                                     is_stressed c g ;;
      convert_syllables scale_notes root_note tempo wd (S syl_idx) rest c' g'
  end.

Fixpoint convert_words (scale_notes : list Z) (root_note tempo : Z)
    (syllable_data : list WordData) (c : BeatCursor) (g : random_state)
  : result (BeatCursor * random_state) :=
  match syllable_data with
  | [] => Ok (c, g)
  | wd :: rest =>
      ' (c', g') <- convert_syllables scale_notes root_note tempo wd O
                                      (stress_pattern wd) c g ;;
      convert_words scale_notes root_note tempo rest c' g'
  end.

(** The variables the loop over the lines updates. *)
Record LineCursor : Type := mkLineCursor {
  done_lines : list Phrase.t;
  line_beat : Q
}.

(** The body of the loop over the lines. *)
Definition convert_line (scale_notes : list Z) (root_note tempo : Z)
    (arc : list Q) (line_idx : nat) (line : string)
    (c : LineCursor) (g : random_state) : result (LineCursor * random_state) :=
  let syllable_data := analyze_syllables line in
  emotion_weight <- py_getitem arc line_idx ;;
  ' (b, g') <- convert_words scale_notes root_note tempo syllable_data
                 (mkBeatCursor [] (root_note + 12)%Z (line_beat c)) g ;;
  let notes := beat_notes b in
  let phrase :=
    Phrase.mk notes
      (current_beat b - py_sum (map Note.duration notes))
      emotion_weight
      (map (fun n => (80 <? Note.velocity n)%Z) notes) in
  Ok (mkLineCursor (done_lines c ++ [phrase]) (current_beat b), g').

Fixpoint convert_lines (scale_notes : list Z) (root_note tempo : Z)
    (arc : list Q) (line_idx : nat) (todo : list string)
    (c : LineCursor) (g : random_state) : result (LineCursor * random_state) :=
  match todo with
  | [] => Ok (c, g)
  | line :: rest =>
      ' (c', g') <- convert_line scale_notes root_note tempo arc line_idx line c g ;;
      convert_lines scale_notes root_note tempo arc (S line_idx) rest c' g'
  end.

(** The arguments [genre] and [key_preference] are never read and are left
    out. *)
Definition convert_lyrics_to_melody {F : FloatArith} (lyrics : string) (tempo : Z)
    (g : random_state) : result (Result.t * random_state) :=
  let lines := stripped_lines lyrics in
  ' (arc, total) <- emotion_loop lines [] 0 ;;
  let avg_emotion :=
    match lines with
    | [] => 0
    | _ => float_div total (inject_Z (Z.of_nat (length lines)))
    end in
  let scale_name := scale_for_emotion avg_emotion in
  let (root_note, g1) := np_random_choice 60 [62; 64; 67]%Z g in
  scale_notes <- scale_lookup scale_name ;;
  ' (c, g2) <- convert_lines scale_notes root_note tempo arc O lines
                 (mkLineCursor [] 0) g1 ;;
  Ok (Result.mk lyrics root_note scale_name tempo (done_lines c) (line_beat c)
        (fold_left Nat.add (map (fun p => length (Phrase.notes p)) (done_lines c)) O)
        arc,
      g2).

End LyricsToMelody.

(** * Vocabulary of the properties *)

(** A scale has at least one note and its notes are pitch classes. *)
Definition well_formed_scale (scale_notes : list Z) : Prop :=
  scale_notes <> [] /\ Forall (fun x => (0 <= x < 12)%Z) scale_notes.

(** [d] is the first note of the scale at the least distance from
    [scale_degree]. *)
Definition nearest_first (scale_notes : list Z) (scale_degree d : Z) : Prop :=
  exists i,
    nth_error scale_notes i = Some d
    /\ (forall x, In x scale_notes ->
          (Z.abs (scale_degree - d) <= Z.abs (scale_degree - x))%Z)
    /\ (forall j x, (j < i)%nat -> nth_error scale_notes j = Some x ->
          (Z.abs (scale_degree - d) < Z.abs (scale_degree - x))%Z).

(** The emotion of a line: [np.mean] of the weights of its words. *)
Definition line_emotion {F : FloatArith} (line : string) : Q :=
  np_mean_value (map emotion_of (str_split (str_lower line))).

(** The least and the greatest weight of [emotion_weights]. *)
Definition emotion_lo : Q := -0.8.

Definition emotion_hi : Q := 0.9.

(** The notes follow one another from time [t]: each starts where the one
    before it ends. *)
Fixpoint sequential (t : Q) (ns : list MelodyNote) : Prop :=
  match ns with
  | [] => True
  | n :: rest => timestamp n = t /\ sequential (t + duration n) rest
  end.

(** The time reached after the notes, starting from [t]. *)
Definition end_of (t : Q) (ns : list MelodyNote) : Q :=
  fold_left (fun acc n => acc + duration n) ns t.

(** What [syllable_step] puts into a note. *)
Definition note_from (scale_notes : list Z) (root_note : Z) (emotion_weight : Q)
    (tempo : Z) (syllable_data : list WordData) (n : MelodyNote) : Prop :=
  exists wd is_stressed cur,
    In wd syllable_data
    /\ In is_stressed (stress_pattern wd)
    /\ quantize_pitch scale_notes root_note cur = Ok (pitch n)
    /\ note_duration is_stressed emotion_weight tempo = Ok (duration n)
    /\ velocity n = note_velocity is_stressed (word_emotion wd).

(** The walk of the pitch cursor under the notes: from one note to the next
    the cursor moves by the stress-and-emotion step plus a variation among
    -1, 0 and 1, and the note's pitch is the cursor quantized. *)
Inductive pitch_walk (scale_notes : list Z) (root_note : Z)
  : Z -> list MelodyNote -> Z -> Prop :=
| walk_done : forall cur, pitch_walk scale_notes root_note cur [] cur
| walk_step : forall cur n ns cur_end is_stressed w variation,
    In variation [-1; 0; 1]%Z ->
    quantize_pitch scale_notes root_note (cur + (pitch_step is_stressed w + variation))
      = Ok (pitch n) ->
    pitch_walk scale_notes root_note (cur + (pitch_step is_stressed w + variation))%Z
               ns cur_end ->
    pitch_walk scale_notes root_note cur (n :: ns) cur_end.

(** [sum(note.duration for note in phrase.notes)] *)
Definition phrase_duration (p : MelodyPhrase) : Q := py_sum (map duration (notes p)).

(** The phrases follow one another from time [t]. *)
Fixpoint phrases_sequential (t : Q) (ps : list MelodyPhrase) : Prop :=
  match ps with
  | [] => True
  | p :: rest => start_time p = t /\ phrases_sequential (t + phrase_duration p) rest
  end.

(** The time reached after the phrases, starting from [t]. *)
Definition phrases_end (t : Q) (ps : list MelodyPhrase) : Q :=
  fold_left (fun acc p => acc + phrase_duration p) ps t.

(** What [phrase_loop] puts into a phrase. *)
Definition phrase_from (la : LyricAnalysis) (scale_notes : list Z) (root_note : Z)
    (tempo : Z) (p : MelodyPhrase) : Prop :=
  In (emotion_weight p) (emotional_arc la)
  /\ sequential (start_time p) (notes p)
  /\ (exists cur_end,
        pitch_walk scale_notes root_note (root_note + 12)%Z (notes p) cur_end)
  /\ Forall (note_from scale_notes root_note (emotion_weight p) tempo
               (_analyze_line_syllables (lyric_line p)))
            (notes p).

(** The time at which the last note of the phrase ends; the start time
    when the phrase has no note. *)
Definition phrase_end (p : MelodyPhrase) : Q :=
  match rev (notes p) with
  | [] => start_time p
  | n :: _ => timestamp n + duration n
  end.

(** The time from the start of the phrase to the end of its last note. *)
Definition phrase_span (p : MelodyPhrase) : Q := phrase_end p - start_time p.

(** [[line for line in lyrics.split('\n') if line.strip()]]: the lines that
    are not blank. *)
Definition non_blank_lines (lyrics : string) : list string :=
  filter (fun line => negb (is_empty (str_strip line))) (str_split_on newline lyrics).





(** The value a genre's adjustment gives to a field, if any. *)
Definition genre_field (genre field : string) : option Q :=
  match dict_get genre_adjustments (str_lower genre) with
  | Some adj => dict_get adj field
  | None => None
  end.

Definition or_else (o : option Q) (default : Q) : Q :=
  match o with
  | Some v => v
  | None => default
  end.

(** The duration of a note in binary64, for the tempos at which the
    quotient [120 / tempo] leaves the range of the floats.  [SFdiv], [SFmul]
    and [SFadd] at precision 53 and exponent bound 1024 are the correctly
    rounded operations of IEEE 754 binary64; the quotient of two integers is
    rounded once, as Python's [int / int] is. *)
Definition binary64_ratio (a b : positive) : spec_float :=
  SFdiv 53 1024 (S754_finite false a 0) (S754_finite false b 0).

(** The lines of [syllable_step] that compute the duration, in binary64,
    for a positive tempo. *)
Definition note_duration_binary64 (is_stressed : bool) (emotion_weight : spec_float)
    (tempo : positive) : spec_float :=
  let duration :=
    if is_stressed
    then SFadd 53 1024 (binary64_ratio 3 4)
                       (SFmul 53 1024 emotion_weight (binary64_ratio 1 4))
    else binary64_ratio 1 2 in
  SFmul 53 1024 duration (binary64_ratio 120 tempo).

(** A generator state for the examples: the draws 0, 1, 2, ... *)
Definition example_seed : random_state :=
  mkRandom (fun n => n) (fun n => inject_Z (Z.of_nat n) / 10) 0.

(** The words whose entry in [stress_patterns] has fewer flags than the
    word has vowels. *)
Definition short_overrides : list string :=
  ["beautiful"; "believe"; "freedom"; "sunshine"].

(** The syllable labels of a word: the word itself, or word[0], word[1],
    ... for a word of several syllables. *)
Definition word_labels (wd : WordData) : list string :=
  map (syllable_text (word wd) (length (stress_pattern wd)))
      (seq 0 (length (stress_pattern wd))).

(** The syllable labels of a line, word after word. *)
Definition line_labels (line : string) : list string :=
  concat (map word_labels (_analyze_line_syllables line)).

(** A syllable as the inner loop of [_generate_phrase_from_line] meets it:
    its label, its stress flag and the emotion weight of its word. *)
Record Syllable : Type := mkSyllable {
  syl_label : string;
  syl_stressed : bool;
  syl_weight : Q
}.

(** The syllables of a word from index [first] on, for the flags [flags]:
    [enumerate] pairs each flag with its index. *)
Definition syllables_from (wd : WordData) (first : nat) (flags : list bool)
  : list Syllable :=
  map (fun ib : nat * bool =>
         mkSyllable (syllable_text (word wd) (length (stress_pattern wd)) (fst ib))
                    (snd ib) (word_emotion wd))
      (combine (seq first (length flags)) flags).

Definition word_syllables (wd : WordData) : list Syllable :=
  syllables_from wd O (stress_pattern wd).

(** The syllables of a line as [_analyze_line_syllables] analyses it, word
    after word: one per note of the phrase, in the order of the notes. *)
Definition syllables_of_line (line : string) : list Syllable :=
  concat (map word_syllables (_analyze_line_syllables line)).

(** The note that [syllable_step] builds for a syllable: its label, its
    velocity, its duration and the type of its duration. *)
Definition note_of_syllable (emotion_weight : Q) (tempo : Z) (s : Syllable)
    (n : MelodyNote) : Prop :=
  syllable n = syl_label s
  /\ velocity n = note_velocity (syl_stressed s) (syl_weight s)
  /\ note_duration (syl_stressed s) emotion_weight tempo = Ok (duration n)
  /\ duration_type n = (if syl_stressed s then NpFloat64 else PyFloat).

(** The notes of a phrase are those of the syllables of its line, one
    after the other. *)
Definition notes_of_line (tempo : Z) (p : MelodyPhrase) : Prop :=
  Forall2 (note_of_syllable (emotion_weight p) tempo)
          (syllables_of_line (lyric_line p)) (notes p).

(** The weights that a word can have: 0 and the values of the sentiment
    table. *)
Definition sentiment_values : list Q := 0.0 :: map snd emotion_weights.

(** The syllable count that [_analyze_lyrics_structure] records for a
    line. *)
Definition line_syllables (line : string) : nat :=
  fold_left Nat.add (map estimate_syllables (str_split (str_lower line))) O.

(** The text before the first occurrence of [sep]. *)
Fixpoint text_before (sep : ascii) (s : string) : string :=
  match s with
  | EmptyString => EmptyString
  | String c s' => if Ascii.eqb c sep then EmptyString else String c (text_before sep s')
  end.

(** The word begins with an opening bracket. *)
Definition starts_with_bracket (w : string) : bool :=
  match w with
  | EmptyString => false
  | String c _ => Ascii.eqb c left_bracket
  end.

(** The words of the lyrics, line after line. *)
Definition lyric_words (lyrics : string) : list string :=
  concat (map (fun line => str_split (str_lower line)) (stripped_lines lyrics)).

(** The word begins with an opening bracket and its stress pattern has an
    unstressed syllable. *)
Definition unstressed_bracket_word (w : string) : bool :=
  starts_with_bracket w && existsb negb (default_stress (estimate_syllables w)).

(** The syllables of the lyrics, line after line. *)
Definition lyric_syllables (lyrics : string) : list Syllable :=
  concat (map syllables_of_line (stripped_lines lyrics)).

(** The part of [note_of_syllable] that does not depend on the line. *)
Definition note_marks_syllable (s : Syllable) (n : MelodyNote) : Prop :=
  syllable n = syl_label s
  /\ duration_type n = (if syl_stressed s then NpFloat64 else PyFloat)
  /\ velocity n = note_velocity (syl_stressed s) (syl_weight s).

(** The stress flag of each syllable of a line with the emotion weight of
    its word, in the order of the notes. *)
Definition flag_emotions (line : string) : list (bool * Q) :=
  concat (map (fun wd => map (fun b => (b, word_emotion wd)) (stress_pattern wd))
              (LyricsToMelody.analyze_syllables line)).

(** What [convert_line] puts into the phrase of a line. *)
Definition line_phrase (scale_notes : list Z) (root_note tempo_in : Z)
    (line : string) (p : LyricsToMelody.Phrase.t) : Prop :=
  map LyricsToMelody.Note.velocity (LyricsToMelody.Phrase.notes p)
  = map (fun be => note_velocity (fst be) (snd be)) (flag_emotions line)
  /\ map LyricsToMelody.Note.duration (LyricsToMelody.Phrase.notes p)
     = map (fun be : bool * Q => (if fst be then 0.75 else 0.5)
                      * (inject_Z 120 / inject_Z tempo_in))
           (flag_emotions line)
  /\ Forall (fun n => In ((LyricsToMelody.Note.pitch n - root_note) mod 12)%Z scale_notes)
            (LyricsToMelody.Phrase.notes p)
  /\ LyricsToMelody.Phrase.stress_pattern p
     = map (fun n => (80 <? LyricsToMelody.Note.velocity n)%Z) (LyricsToMelody.Phrase.notes p).

(** The beats of the phrases follow one another from [t], as the code
    computes them. *)
Fixpoint beats_chain (t : Q) (ps : list LyricsToMelody.Phrase.t) : Prop :=
  match ps with
  | [] => True
  | p :: rest =>
      let after := fold_left Qplus (map LyricsToMelody.Note.duration (LyricsToMelody.Phrase.notes p)) t in
      LyricsToMelody.Phrase.start_beat p = after - py_sum (map LyricsToMelody.Note.duration (LyricsToMelody.Phrase.notes p))
      /\ beats_chain after rest
  end.

(** The beat reached after the phrases, starting from [t]. *)
Definition beats_end (t : Q) (ps : list LyricsToMelody.Phrase.t) : Q :=
  fold_left (fun acc p => fold_left Qplus (map LyricsToMelody.Note.duration (LyricsToMelody.Phrase.notes p)) acc)
            ps t.

(** A melody of one note, for the examples. *)
Definition example_melody : GeneratedMelody :=
  mkGeneratedMelody
    [mkMelodyPhrase [mkMelodyNote 74 0.5 88 "love[1]" 0.0 PyFloat] 0.0 0.9 "love"]
    (baseline_features 120 60) (mkLyricAnalysis ["love"] 1 [0.9] [2%nat] 2) 0.5 1.

(** The generator state [g'] is [g] after [k] draws: the same sequences, the
    position moved by [k]. *)
Definition after_draws (k : nat) (g g' : random_state) : Prop :=
  uniform_draws g' = uniform_draws g
  /\ normal_draws g' = normal_draws g
  /\ position g' = (position g + k)%nat.

(** A lyric analysis, a phrase and a melody with their stored lines in lower
    case and nothing else changed. *)
Definition lowered_structure (la : LyricAnalysis) : LyricAnalysis :=
  mkLyricAnalysis (map str_lower (lines la)) (line_count la) (emotional_arc la)
    (syllable_counts la) (total_syllables la).

Definition lowered_phrase (p : MelodyPhrase) : MelodyPhrase :=
  mkMelodyPhrase (notes p) (start_time p) (emotion_weight p) (str_lower (lyric_line p)).

Definition lowered_melody (m : GeneratedMelody) : GeneratedMelody :=
  mkGeneratedMelody (map lowered_phrase (phrases m)) (audio_features m)
    (lowered_structure (structure m)) (total_duration m) (note_count m).

(** A request and a clock, for the examples. *)
Definition example_song_data : EnhancedMusicGenerator.SongData unit :=
  EnhancedMusicGenerator.mkSongData (Some "Digital Dreams") (Some "Love is all we need")
    (Some "pop") (Some "happy") (Some 120%Z) None None None false None.

Definition example_clock : Clock := mkClock 1700000000 "2023-11-14 22:13:20".

(** * Properties *)

Open Scope list_scope.

Section ClaimedProperties.

Context {F : FloatArith}.

(** ** Text *)

Lemma isspace_lower_char : forall c, isspace (lower_char c) = isspace c.
Proof.
  intros [[] [] [] [] [] [] [] []]; reflexivity.
Qed.

Lemma append_not_empty : forall s c, is_empty (s ++ String c EmptyString) = false.
Proof.
  intros [|a s] c; reflexivity.
Qed.

Lemma runs_acc_started : forall is_sep s acc,
  is_empty acc = false -> runs_acc is_sep s acc <> [].
Proof.
  intros is_sep s; induction s as [|c s IH]; intros acc Hacc; simpl.
  - rewrite Hacc. discriminate.
  - destruct (is_sep c).
    + rewrite Hacc. discriminate.
    + apply IH, append_not_empty.
Qed.

Lemma str_lstrip_head : forall s,
  str_lstrip s = EmptyString
  \/ exists c t, str_lstrip s = String c t /\ isspace c = false.
Proof.
  induction s as [|c s IH]; simpl.
  - now left.
  - destruct (isspace c) eqn:E.
    + exact IH.
    + right. now exists c, s.
Qed.

Lemma str_rstrip_head : forall c t,
  isspace c = false -> exists r, str_rstrip (String c t) = String c r.
Proof.
  intros c t Hc. simpl. destruct (str_rstrip t) as [|a r].
  - rewrite Hc. now exists EmptyString.
  - now exists (String a r).
Qed.

Lemma str_strip_head : forall s,
  str_strip s = EmptyString
  \/ exists c t, str_strip s = String c t /\ isspace c = false.
Proof.
  intros s. unfold str_strip.
  destruct (str_lstrip_head s) as [E | (c & t & E & Hc)]; rewrite E.
  - now left.
  - right. destruct (str_rstrip_head c t Hc) as [r Hr].
    exists c, r. now split.
Qed.

(** A line kept by [stripped_lines] is not blank when stripped again. *)
Lemma stripped_not_blank : forall s,
  is_empty (str_strip s) = false -> is_empty (str_strip (str_strip s)) = false.
Proof.
  intros s H. destruct (str_strip_head s) as [E | (c & t & E & Hc)].
  - rewrite E in H. discriminate.
  - rewrite E. unfold str_strip at 1. simpl str_lstrip. rewrite Hc.
    destruct (str_rstrip_head c t Hc) as [r Hr]. now rewrite Hr.
Qed.

(** A stripped non-blank line has at least one word. *)
Lemma stripped_has_words : forall s,
  is_empty (str_strip s) = false -> str_split (str_lower (str_strip s)) <> [].
Proof.
  intros s H. destruct (str_strip_head s) as [E | (c & t & E & Hc)].
  - rewrite E in H. discriminate.
  - rewrite E. unfold str_split. simpl.
    rewrite isspace_lower_char, Hc. now apply runs_acc_started.
Qed.

Lemma stripped_lines_not_blank : forall lyrics,
  Forall (fun l => is_empty (str_strip l) = false) (stripped_lines lyrics).
Proof.
  intros lyrics. unfold stripped_lines. apply Forall_forall. intros l Hl.
  apply in_map_iff in Hl. destruct Hl as (raw & <- & Hraw).
  apply filter_In in Hraw. destruct Hraw as [_ Hraw].
  apply stripped_not_blank. now apply negb_true_iff in Hraw.
Qed.

Lemma stripped_lines_have_words : forall lyrics,
  Forall (fun l => str_split (str_lower l) <> []) (stripped_lines lyrics).
Proof.
  intros lyrics. unfold stripped_lines. apply Forall_forall. intros l Hl.
  apply in_map_iff in Hl. destruct Hl as (raw & <- & Hraw).
  apply filter_In in Hraw. destruct Hraw as [_ Hraw].
  apply stripped_has_words. now apply negb_true_iff in Hraw.
Qed.

(** ** Scale quantization *)

Lemma scales_well_formed : forall name scale_notes,
  dict_get scales name = Some scale_notes -> well_formed_scale scale_notes.
Proof.
  intros name scale_notes H. unfold scales in H. simpl in H.
  repeat match type of H with
         | (if ?b then _ else _) = _ => destruct b
         end;
    try discriminate; injection H as <-;
    (split; [discriminate | repeat constructor; lia]).
Qed.

Lemma scales_ascending : forall name scale_notes,
  dict_get scales name = Some scale_notes -> StronglySorted Z.lt scale_notes.
Proof.
  intros name scale_notes H. unfold scales in H. simpl in H.
  repeat match type of H with
         | (if ?b then _ else _) = _ => destruct b
         end;
    try discriminate; injection H as <-;
    repeat (constructor; try lia).
Qed.

Lemma fold_min_spec : forall t x,
  let m := fold_left (fun m y => if (y <? m)%Z then y else m) t x in
  In m (x :: t) /\ Forall (fun y => (m <= y)%Z) (x :: t).
Proof.
  induction t as [|a t IH]; intros x; simpl.
  - split; [now left | constructor; [lia | constructor]].
  - destruct (Z.ltb_spec a x) as [Hlt | Hge].
    + destruct (IH a) as [Hin Hall]. simpl in Hin. split.
      * destruct Hin as [Hin | Hin]; [right; now left | right; now right].
      * inversion Hall as [|? ? Ha Ht]; subst.
        constructor; [lia | constructor; assumption].
    + destruct (IH x) as [Hin Hall]. simpl in Hin. split.
      * destruct Hin as [Hin | Hin]; [now left | right; now right].
      * inversion Hall as [|? ? Hx Ht]; subst.
        constructor; [assumption | constructor; [lia | assumption]].
Qed.

Lemma py_index_spec : forall x xs,
  In x xs ->
  exists i, py_index x xs = Ok i
    /\ nth_error xs i = Some x
    /\ (forall j y, (j < i)%nat -> nth_error xs j = Some y -> y <> x).
Proof.
  intros x xs; induction xs as [|a xs IH]; intros Hin.
  - destruct Hin.
  - simpl. destruct (Z.eqb_spec a x) as [-> | Hne].
    + exists O. split; [reflexivity|]. split; [reflexivity|].
      intros j y Hj. lia.
    + destruct Hin as [Hin | Hin]; [contradiction|].
      destruct (IH Hin) as (i & -> & Hnth & Hfirst).
      exists (S i). simpl. split; [reflexivity|]. split; [assumption|].
      intros [|j] y Hj Hy; simpl in Hy.
      * injection Hy as <-. assumption.
      * apply (Hfirst j); [lia | assumption].
Qed.

Lemma existsb_Zeqb_In : forall x xs,
  existsb (Z.eqb x) xs = true <-> In x xs.
Proof.
  intros x xs. rewrite existsb_exists. split.
  - intros (y & Hy & E). apply Z.eqb_eq in E. now subst.
  - intros H. exists x. split; [assumption | apply Z.eqb_refl].
Qed.

Lemma constrain_to_scale_spec : forall scale_notes scale_degree,
  scale_notes <> [] ->
  exists d,
    constrain_to_scale scale_notes scale_degree = Ok d
    /\ In d scale_notes
    /\ (In scale_degree scale_notes -> d = scale_degree)
    /\ (~ In scale_degree scale_notes -> nearest_first scale_notes scale_degree d).
Proof.
  intros scale_notes sd Hne. unfold constrain_to_scale.
  destruct (existsb (Z.eqb sd) scale_notes) eqn:E.
  - apply existsb_Zeqb_In in E. exists sd. repeat split; try assumption.
    intros Hn; contradiction.
  - assert (Hnot : ~ In sd scale_notes).
    { intros Hin. apply existsb_Zeqb_In in Hin. congruence. }
    set (f := fun note => Z.abs (sd - note)).
    destruct scale_notes as [|a rest]; [contradiction|].
    pose proof (fold_min_spec (map f rest) (f a)) as Hmin.
    simpl in Hmin. destruct Hmin as [Hin Hall].
    change (map f (a :: rest)) with (f a :: map f rest).
    unfold py_min. unfold bind at 1.
    set (m := fold_left (fun m y => if (y <? m)%Z then y else m) (map f rest) (f a)) in *.
    destruct (py_index_spec m (f a :: map f rest) Hin) as (i & Hi & Hnth & Hfirst).
    rewrite Hi. unfold bind.
    change (f a :: map f rest) with (map f (a :: rest)) in Hnth, Hfirst, Hall.
    rewrite nth_error_map in Hnth.
    unfold py_getitem.
    destruct (nth_error (a :: rest) i) as [d|] eqn:Hd; [|discriminate].
    simpl in Hnth. injection Hnth as Hfd.
    exists d. repeat split.
    + eapply nth_error_In; eassumption.
    + intros Hin'. contradiction.
    + intros _. exists i. repeat split.
      * assumption.
      * intros x Hx. fold (f d). fold (f x). rewrite Hfd.
        rewrite Forall_forall in Hall. apply Hall. now apply in_map.
      * intros j x Hj Hx. fold (f d). fold (f x). rewrite Hfd.
        assert (Hle : (m <= f x)%Z).
        { rewrite Forall_forall in Hall. apply Hall. apply in_map.
          eapply nth_error_In; eassumption. }
        assert (Hneq : f x <> m).
        { apply (Hfirst j); [assumption|]. rewrite nth_error_map, Hx. reflexivity. }
        lia.
Qed.

Lemma quantize_pitch_spec : forall scale_notes root_note cur,
  well_formed_scale scale_notes ->
  exists d,
    quantize_pitch scale_notes root_note cur
      = Ok (root_note + d + ((cur - root_note) / 12) * 12)%Z
    /\ In d scale_notes
    /\ ((root_note + d + ((cur - root_note) / 12) * 12 - root_note) mod 12 = d)%Z
    /\ (In ((cur - root_note) mod 12)%Z scale_notes -> d = ((cur - root_note) mod 12)%Z)
    /\ (~ In ((cur - root_note) mod 12)%Z scale_notes ->
        nearest_first scale_notes ((cur - root_note) mod 12)%Z d).
Proof.
  intros scale_notes root_note cur [Hne Hrange].
  destruct (constrain_to_scale_spec scale_notes ((cur - root_note) mod 12)%Z Hne)
    as (d & Hd & Hin & Hkeep & Hnear).
  exists d. unfold quantize_pitch. rewrite Hd. simpl.
  repeat split; try assumption.
  rewrite Forall_forall in Hrange. specialize (Hrange d Hin).
  replace (root_note + d + (cur - root_note) / 12 * 12 - root_note)%Z
    with (d + (cur - root_note) / 12 * 12)%Z by lia.
  rewrite Z.mod_add by lia. apply Z.mod_small. lia.
Qed.

(** ** Sums, means and the sentiment table *)

Lemma fold_Qplus_shift : forall xs a,
  fold_left Qplus xs a == a + fold_left Qplus xs 0.
Proof.
  induction xs as [|x xs IH]; intros a; simpl.
  - ring.
  - rewrite (IH (a + x)), (IH (0 + x)). ring.
Qed.

Lemma py_sum_cons : forall x xs, py_sum (x :: xs) == x + py_sum xs.
Proof.
  intros x xs. unfold py_sum. simpl. rewrite fold_Qplus_shift. ring.
Qed.

Lemma py_sum_app : forall xs ys, py_sum (xs ++ ys) == py_sum xs + py_sum ys.
Proof.
  intros xs ys. unfold py_sum. rewrite fold_left_app.
  now rewrite fold_Qplus_shift.
Qed.

Lemma inject_length_cons : forall (A : Type) (x : A) (xs : list A),
  inject_Z (Z.of_nat (length (x :: xs))) == inject_Z (Z.of_nat (length xs)) + 1.
Proof.
  intros A x xs. simpl length. rewrite Nat2Z.inj_succ, <- Z.add_1_r.
  now rewrite inject_Z_plus.
Qed.

Lemma py_sum_bounds : forall lo hi xs,
  Forall (fun x => lo <= x <= hi) xs ->
  lo * inject_Z (Z.of_nat (length xs)) <= py_sum xs
  /\ py_sum xs <= hi * inject_Z (Z.of_nat (length xs)).
Proof.
  intros lo hi xs H. induction H as [|x xs [Hlo Hhi] _ [IHlo IHhi]].
  - unfold py_sum. simpl. split; apply Qle_lteq; right; ring.
  - rewrite py_sum_cons, inject_length_cons. split.
    + setoid_replace (lo * (inject_Z (Z.of_nat (length xs)) + 1))
        with (lo + lo * inject_Z (Z.of_nat (length xs))) by ring.
      now apply Qplus_le_compat.
    + setoid_replace (hi * (inject_Z (Z.of_nat (length xs)) + 1))
        with (hi + hi * inject_Z (Z.of_nat (length xs))) by ring.
      now apply Qplus_le_compat.
Qed.

Lemma inject_length_pos : forall (A : Type) (xs : list A),
  xs <> [] -> 0 < inject_Z (Z.of_nat (length xs)).
Proof.
  intros A [|x xs] H; [contradiction|].
  change 0 with (inject_Z 0). rewrite <- Zlt_Qlt. simpl length. lia.
Qed.

(** Without rounding, the mean of values within bounds is within the
    bounds. *)
Lemma exact_mean_bounds : forall lo hi xs,
  xs <> [] ->
  Forall (fun x => lo <= x <= hi) xs ->
  lo <= py_sum xs / inject_Z (Z.of_nat (length xs)) <= hi.
Proof.
  intros lo hi xs Hne H.
  pose proof (inject_length_pos _ xs Hne) as Hpos.
  destruct (py_sum_bounds lo hi xs H) as [Hlo Hhi].
  split.
  - apply Qle_shift_div_l; assumption.
  - apply Qle_shift_div_r; assumption.
Qed.

(** The arithmetic without rounding: an instance of the parameters, used by
    the examples. *)
Definition exact_arith : FloatArith :=
  {| np_mean_value := fun xs => py_sum xs / inject_Z (Z.of_nat (length xs));
     float_add := Qplus;
     float_div := Qdiv;
     np_mean_unit := exact_mean_bounds (-1) 1 |}.

Lemma dict_get_In : forall (V : Type) (d : list (string * V)) k v,
  dict_get d k = Some v -> In v (map snd d).
Proof.
  intros V d k v; induction d as [|[k' v'] d IH]; simpl; intros H.
  - discriminate.
  - destruct (String.eqb k' k).
    + injection H as <-. now left.
    + right. now apply IH.
Qed.

(** Every weight the sentiment table can answer lies in [-0.8, 0.9]. *)
Lemma emotion_of_bounds : forall w, emotion_lo <= emotion_of w <= emotion_hi.
Proof.
  intros w. unfold emotion_of.
  destruct (dict_get emotion_weights w) as [v|] eqn:E.
  - apply dict_get_In in E.
    assert (Hall : forallb (fun v => Qle_bool emotion_lo v && Qle_bool v emotion_hi)
                     (map snd emotion_weights) = true) by reflexivity.
    rewrite forallb_forall in Hall. specialize (Hall v E).
    apply andb_true_iff in Hall. destruct Hall as [H1 H2].
    split; now apply Qle_bool_iff.
  - split; discriminate.
Qed.

(** The emotion of a line lies between -1 and 1. *)
Lemma line_emotion_bounds : forall line,
  str_split (str_lower line) <> [] -> -1 <= line_emotion line <= 1.
Proof.
  intros line Hne. unfold line_emotion. apply np_mean_unit.
  - destruct (str_split (str_lower line)); [contradiction | discriminate].
  - apply Forall_forall. intros x Hx. apply in_map_iff in Hx.
    destruct Hx as (w & <- & _). destruct (emotion_of_bounds w) as [Hlo Hhi].
    split.
    + apply Qle_trans with emotion_lo; [discriminate | exact Hlo].
    + apply Qle_trans with emotion_hi; [exact Hhi | discriminate].
Qed.

Lemma np_mean_line : forall line,
  str_split (str_lower line) <> [] ->
  np_mean (map emotion_of (str_split (str_lower line))) = Ok (line_emotion line).
Proof.
  intros line Hne. unfold np_mean, line_emotion.
  destruct (str_split (str_lower line)); [contradiction | reflexivity].
Qed.

(** ** Lyric analysis *)

Lemma analyze_lines_ok : forall todo st,
  Forall (fun l => str_split (str_lower l) <> []) todo ->
  exists st',
    analyze_lines todo st = Ok st'
    /\ lines st' = lines st
    /\ length (emotional_arc st') = (length (emotional_arc st) + length todo)%nat
    /\ emotional_arc st' = emotional_arc st ++ map line_emotion todo.
Proof.
  induction todo as [|line rest IH]; intros st Hwords.
  - exists st. cbn [analyze_lines map length]. rewrite app_nil_r.
    repeat split. lia.
  - inversion Hwords as [|? ? Hline Hrest]; subst.
    cbn [analyze_lines]. unfold analyze_line. rewrite (np_mean_line line Hline).
    cbn [bind].
    match goal with
    | |- exists st', analyze_lines rest ?s = _ /\ _ =>
        destruct (IH s Hrest) as (st' & Hst' & Hl & Hlen & Harc)
    end.
    exists st'. cbn [lines emotional_arc] in Hl, Hlen, Harc.
    rewrite length_app in Hlen. cbn [length] in Hlen.
    rewrite <- app_assoc in Harc.
    repeat split; [assumption | assumption | cbn [length]; lia | exact Harc].
Qed.

Lemma analyze_lyrics_structure_ok : forall lyrics,
  exists la,
    _analyze_lyrics_structure lyrics = Ok la
    /\ lines la = stripped_lines lyrics
    /\ length (emotional_arc la) = length (lines la)
    /\ Forall (fun e => -1 <= e <= 1) (emotional_arc la)
    /\ emotional_arc la = map line_emotion (stripped_lines lyrics).
Proof.
  intros lyrics. unfold _analyze_lyrics_structure.
  match goal with
  | |- exists la, analyze_lines ?t ?s = _ /\ _ =>
      destruct (analyze_lines_ok t s) as (la & Hla & Hl & Hlen & Hall)
  end.
  - apply stripped_lines_have_words.
  - exists la. simpl in Hl, Hlen, Hall. rewrite Hl.
    split; [assumption|]. split; [reflexivity|]. split; [assumption|].
    split; [|assumption].
    rewrite Hall. apply Forall_forall. intros e He. apply in_map_iff in He.
    destruct He as (line & <- & Hline). apply line_emotion_bounds.
    pose proof (stripped_lines_have_words lyrics) as Hw.
    rewrite Forall_forall in Hw. now apply Hw.
Qed.

(** ** Phrase generation *)

Lemma note_from_incl : forall scale_notes root_note ew tempo d1 d2 n,
  incl d1 d2 ->
  note_from scale_notes root_note ew tempo d1 n ->
  note_from scale_notes root_note ew tempo d2 n.
Proof.
  intros scale_notes root_note ew tempo d1 d2 n Hincl
         (wd & b & cur & Hwd & Hb & Hq & Hd & Hv).
  exists wd, b, cur. repeat split; try assumption. now apply Hincl.
Qed.

Lemma sequential_app : forall ns ms t,
  sequential t (ns ++ ms) <-> sequential t ns /\ sequential (end_of t ns) ms.
Proof.
  induction ns as [|n ns IH]; intros ms t; simpl.
  - unfold end_of. simpl. tauto.
  - rewrite IH. unfold end_of. simpl. tauto.
Qed.

Lemma end_of_app : forall ns ms t, end_of t (ns ++ ms) = end_of (end_of t ns) ms.
Proof.
  intros ns ms t. unfold end_of. apply fold_left_app.
Qed.

Lemma end_of_sum : forall ns t, end_of t ns == t + py_sum (map duration ns).
Proof.
  induction ns as [|n ns IH]; intros t.
  - unfold end_of, py_sum. simpl. ring.
  - change (end_of t (n :: ns)) with (end_of (t + duration n) ns).
    rewrite IH. simpl map. rewrite py_sum_cons. ring.
Qed.

Lemma note_duration_ok : forall is_stressed ew tempo,
  tempo <> 0%Z -> exists d, note_duration is_stressed ew tempo = Ok d.
Proof.
  intros b ew tempo Ht. unfold note_duration, py_truediv.
  destruct (Z.eqb_spec tempo 0) as [E | _]; [contradiction|].
  simpl. eexists. reflexivity.
Qed.

Lemma np_random_choice_In : forall first rest g,
  In (fst (np_random_choice first rest g)) (first :: rest).
Proof.
  intros first rest g. unfold np_random_choice.
  change (In (nth (uniform_draws g (position g) mod S (length rest))
                  (first :: rest) first) (first :: rest)).
  apply nth_In. change (S (length rest)) with (length (first :: rest)).
  apply Nat.mod_upper_bound. discriminate.
Qed.

Lemma pitch_walk_app : forall scale_notes root_note a xs b ys c,
  pitch_walk scale_notes root_note a xs b ->
  pitch_walk scale_notes root_note b ys c ->
  pitch_walk scale_notes root_note a (xs ++ ys) c.
Proof.
  intros scale_notes root_note a xs b ys c H. induction H; intros Hys; simpl.
  - assumption.
  - eapply walk_step; eauto.
Qed.

Lemma syllable_step_ok : forall scale_notes root_note ew tempo wd syl_idx b c g,
  well_formed_scale scale_notes -> tempo <> 0%Z ->
  exists n variation,
    let cur := (current_pitch c + (pitch_step b (word_emotion wd) + variation))%Z in
    syllable_step scale_notes root_note ew tempo wd syl_idx b c g
      = Ok (mkPhraseCursor (cur_notes c ++ [n]) cur (current_time c + duration n),
            advance g)
    /\ In variation [-1; 0; 1]%Z
    /\ timestamp n = current_time c
    /\ syllable n = syllable_text (word wd) (length (stress_pattern wd)) syl_idx
    /\ quantize_pitch scale_notes root_note cur = Ok (pitch n)
    /\ note_duration b ew tempo = Ok (duration n)
    /\ velocity n = note_velocity b (word_emotion wd).
Proof.
  intros scale_notes root_note ew tempo wd syl_idx b c g Hs Ht.
  pose proof (np_random_choice_In (-1) [0; 1]%Z g) as Hvar.
  unfold syllable_step.
  destruct (np_random_choice (-1) [0; 1]%Z g) as [variation g'] eqn:Hdraw.
  assert (Hg : g' = advance g).
  { unfold np_random_choice in Hdraw. now injection Hdraw. }
  subst g'. simpl fst in Hvar. cbv beta iota zeta.
  set (cur := (current_pitch c + _)%Z).
  destruct (quantize_pitch_spec scale_notes root_note cur Hs) as (d & Hq & _).
  destruct (note_duration_ok b ew tempo Ht) as (dur & Hdur).
  rewrite Hq, Hdur. cbv [bind].
  exists (mkMelodyNote (root_note + d + (cur - root_note) / 12 * 12)%Z dur
            (note_velocity b (word_emotion wd))
            (syllable_text (word wd) (length (stress_pattern wd)) syl_idx)
            (current_time c) (if b then NpFloat64 else PyFloat)), variation.
  cbv [timestamp syllable pitch duration velocity]. fold cur.
  repeat split; assumption.
Qed.

Lemma syllable_loop_ok : forall scale_notes root_note ew tempo wd todo syl_idx c g,
  well_formed_scale scale_notes -> tempo <> 0%Z ->
  incl todo (stress_pattern wd) ->
  exists c' g' new,
    syllable_loop scale_notes root_note ew tempo wd syl_idx todo c g = Ok (c', g')
    /\ cur_notes c' = cur_notes c ++ new
    /\ length new = length todo
    /\ sequential (current_time c) new
    /\ current_time c' = end_of (current_time c) new
    /\ pitch_walk scale_notes root_note (current_pitch c) new (current_pitch c')
    /\ Forall (note_from scale_notes root_note ew tempo [wd]) new.
Proof.
  intros scale_notes root_note ew tempo wd todo.
  induction todo as [|b rest IH]; intros syl_idx c g Hs Ht Hincl.
  - exists c, g, []. simpl. rewrite app_nil_r.
    repeat split; constructor.
  - destruct (syllable_step_ok scale_notes root_note ew tempo wd syl_idx b c g Hs Ht)
      as (n & v & Hstep & Hv & Hts & _ & Hq & Hd & Hvel).
    cbv zeta in Hstep. simpl. rewrite Hstep. simpl.
    match goal with
    | |- exists c' g' new, syllable_loop _ _ _ _ _ ?i rest ?c1 ?g1 = _ /\ _ =>
        destruct (IH i c1 g1 Hs Ht)
          as (c' & g' & new & Hloop & Hn & Hlen & Hseq & Hend & Hwalk & Hall)
    end.
    { intros x Hx. apply Hincl. now right. }
    exists c', g', (n :: new).
    cbn [cur_notes current_pitch current_time] in *.
    rewrite <- app_assoc in Hn. simpl app in Hn.
    repeat split; try assumption.
    + simpl. now rewrite Hlen.
    + eapply walk_step; eassumption.
    + constructor; [|assumption].
      eexists wd, b, _. repeat split; try eassumption.
      * now left.
      * apply Hincl. now left.
Qed.

Lemma word_loop_ok : forall scale_notes root_note ew tempo syllable_data c g,
  well_formed_scale scale_notes -> tempo <> 0%Z ->
  exists c' g' new,
    word_loop scale_notes root_note ew tempo syllable_data c g = Ok (c', g')
    /\ cur_notes c' = cur_notes c ++ new
    /\ sequential (current_time c) new
    /\ current_time c' = end_of (current_time c) new
    /\ pitch_walk scale_notes root_note (current_pitch c) new (current_pitch c')
    /\ Forall (note_from scale_notes root_note ew tempo syllable_data) new.
Proof.
  intros scale_notes root_note ew tempo syllable_data.
  induction syllable_data as [|wd rest IH]; intros c g Hs Ht.
  - exists c, g, []. simpl. rewrite app_nil_r. repeat split; constructor.
  - destruct (syllable_loop_ok scale_notes root_note ew tempo wd (stress_pattern wd)
                O c g Hs Ht (incl_refl _))
      as (c1 & g1 & new1 & Hloop & Hn1 & _ & Hseq1 & Hend1 & Hwalk1 & Hall1).
    simpl. rewrite Hloop. simpl.
    destruct (IH c1 g1 Hs Ht)
      as (c' & g' & new2 & Hrest & Hn2 & Hseq2 & Hend2 & Hwalk2 & Hall2).
    exists c', g', (new1 ++ new2).
    repeat split.
    + assumption.
    + now rewrite Hn2, Hn1, app_assoc.
    + apply sequential_app. split; [assumption | now rewrite <- Hend1].
    + now rewrite end_of_app, <- Hend1.
    + eapply pitch_walk_app; eassumption.
    + apply Forall_app. split.
      * eapply Forall_impl; [|exact Hall1].
        intros n. apply note_from_incl. intros x [<- | []]. now left.
      * eapply Forall_impl; [|exact Hall2].
        intros n. apply note_from_incl. intros x Hx. now right.
Qed.

Lemma generate_phrase_ok :
  forall line syllable_data ew root_note scale_name scale_notes start tempo g,
  dict_get scales scale_name = Some scale_notes -> tempo <> 0%Z ->
  exists p g',
    _generate_phrase_from_line line syllable_data ew root_note scale_name start tempo g
      = Ok (p, g')
    /\ start_time p = start
    /\ emotion_weight p = ew
    /\ lyric_line p = line
    /\ sequential start (notes p)
    /\ (exists cur_end,
          pitch_walk scale_notes root_note (root_note + 12)%Z (notes p) cur_end)
    /\ Forall (note_from scale_notes root_note ew tempo syllable_data) (notes p).
Proof.
  intros line syllable_data ew root_note scale_name scale_notes start tempo g Hscale Ht.
  pose proof (scales_well_formed _ _ Hscale) as Hs.
  unfold _generate_phrase_from_line, scale_lookup. rewrite Hscale. simpl.
  destruct (word_loop_ok scale_notes root_note ew tempo syllable_data
              (mkPhraseCursor [] (root_note + 12)%Z start) g Hs Ht)
    as (c & g' & new & Hloop & Hn & Hseq & _ & Hwalk & Hall).
  rewrite Hloop. simpl. simpl in Hn, Hseq, Hwalk.
  eexists. eexists. split; [reflexivity|]. simpl. rewrite Hn.
  repeat split; try assumption. now exists (current_pitch c).
Qed.

(** ** Melody assembly *)

Lemma mood_scale_in_table : forall k cfg,
  dict_get emotion_mappings k = Some cfg ->
  exists scale_notes, dict_get scales (mood_scale cfg) = Some scale_notes.
Proof.
  intros k cfg H. apply dict_get_In in H.
  assert (Hall : forallb (fun cfg => match dict_get scales (mood_scale cfg) with
                                     | Some _ => true
                                     | None => false
                                     end)
                   (map snd emotion_mappings) = true) by reflexivity.
  rewrite forallb_forall in Hall. specialize (Hall cfg H).
  destruct (dict_get scales (mood_scale cfg)) as [s|]; [now exists s | discriminate].
Qed.

Lemma scale_name_in_table : forall arc mood g,
  exists scale_notes,
    dict_get scales (snd (fst (_determine_key_and_scale arc mood g))) = Some scale_notes.
Proof.
  intros arc mood g. unfold _determine_key_and_scale.
  set (avg := average_emotion arc).
  assert (Hscale : exists scale_notes,
             dict_get scales
               match dict_get emotion_mappings (str_lower mood) with
               | Some cfg => mood_scale cfg
               | None => if Qltb 0.3 avg then "major"
                         else if Qltb avg (-0.3) then "minor" else "dorian"
               end = Some scale_notes).
  { destruct (dict_get emotion_mappings (str_lower mood)) as [cfg|] eqn:E.
    - eapply mood_scale_in_table; eassumption.
    - destruct (Qltb 0.3 avg); [|destruct (Qltb avg (-0.3))];
        eexists; reflexivity. }
  destruct (Qltb 0.5 avg); [|destruct (Qltb avg (-0.5))];
    unfold np_random_choice; cbv beta iota zeta; exact Hscale.
Qed.

Lemma phrases_sequential_app : forall ps qs t,
  phrases_sequential t (ps ++ qs)
  <-> phrases_sequential t ps /\ phrases_sequential (phrases_end t ps) qs.
Proof.
  induction ps as [|p ps IH]; intros qs t; simpl.
  - unfold phrases_end. simpl. tauto.
  - rewrite IH. unfold phrases_end. simpl. tauto.
Qed.

Lemma phrase_loop_ok : forall la root_note scale_name scale_notes tempo todo line_idx c g,
  dict_get scales scale_name = Some scale_notes -> tempo <> 0%Z ->
  Forall (fun l => is_empty (str_strip l) = false) todo ->
  (line_idx + length todo <= length (emotional_arc la))%nat ->
  exists c' g' new,
    phrase_loop la root_note scale_name tempo line_idx todo c g = Ok (c', g')
    /\ melody_phrases c' = melody_phrases c ++ new
    /\ map lyric_line new = todo
    /\ phrases_sequential (melody_time c) new
    /\ melody_time c' = phrases_end (melody_time c) new
    /\ Forall (phrase_from la scale_notes root_note tempo) new.
Proof.
  intros la root_note scale_name scale_notes tempo todo.
  induction todo as [|line rest IH]; intros line_idx c g Hscale Ht Hblank Hlen.
  - exists c, g, []. simpl. rewrite app_nil_r. repeat split. constructor.
  - inversion Hblank as [|? ? Hline Hrest]; subst.
    simpl. rewrite Hline. unfold py_getitem.
    destruct (nth_error (emotional_arc la) line_idx) as [ew|] eqn:Hew.
    2:{ apply nth_error_None in Hew. simpl in Hlen. lia. }
    simpl.
    destruct (generate_phrase_ok line (_analyze_line_syllables line) ew root_note
                scale_name scale_notes (melody_time c) tempo g Hscale Ht)
      as (p & g1 & Hp & Hstart & Hpew & Hpline & Hseq & Hwalk & Hall).
    rewrite Hp. simpl.
    match goal with
    | |- exists c' g' new, phrase_loop _ _ _ _ ?i rest ?c1 ?g1 = _ /\ _ =>
        destruct (IH i c1 g1 Hscale Ht Hrest) as (c' & g' & new & Hloop & Hn & Hmap & Hps & Hend & Hfrom)
    end.
    { simpl in Hlen. lia. }
    exists c', g', (p :: new). simpl in *.
    rewrite <- app_assoc in Hn. simpl in Hn.
    repeat split; try assumption.
    + now rewrite Hpline, Hmap.
    + constructor; [|assumption].
      unfold phrase_from. rewrite Hpew, Hpline, Hstart.
      repeat split; try assumption.
      eapply nth_error_In; eassumption.
Qed.

(** The melody is produced for every lyric text when the tempo is not
    zero, and its parts are those the loops build. *)
Lemma generate_melody_ok : forall lyrics genre mood tempo g,
  tempo <> 0%Z ->
  exists melody g' root_note scale_name scale_notes g1,
    generate_melody_from_lyrics lyrics genre mood tempo g = Ok (melody, g')
    /\ _analyze_lyrics_structure lyrics = Ok (structure melody)
    /\ _determine_key_and_scale (emotional_arc (structure melody)) mood g
         = ((root_note, scale_name), g1)
    /\ dict_get scales scale_name = Some scale_notes
    /\ audio_features melody
         = _generate_audio_features genre mood tempo root_note scale_name
    /\ map lyric_line (phrases melody) = stripped_lines lyrics
    /\ phrases_sequential 0.0 (phrases melody)
    /\ total_duration melody = phrases_end 0.0 (phrases melody)
    /\ note_count melody = count_notes (phrases melody)
    /\ Forall (phrase_from (structure melody) scale_notes root_note tempo)
              (phrases melody).
Proof.
  intros lyrics genre mood tempo g Ht.
  destruct (analyze_lyrics_structure_ok lyrics) as (la & Hla & Hlines & Hlen & _).
  unfold generate_melody_from_lyrics. rewrite Hla. cbv [bind].
  destruct (scale_name_in_table (emotional_arc la) mood g) as (scale_notes & Hscale).
  destruct (_determine_key_and_scale (emotional_arc la) mood g)
    as [[root_note scale_name] g1] eqn:Hkey.
  simpl in Hscale.
  destruct (phrase_loop_ok la root_note scale_name scale_notes tempo (lines la) O
              (mkMelodyCursor [] 0.0) g1 Hscale Ht)
    as (c & g2 & new & Hloop & Hn & Hmap & Hps & Hend & Hfrom).
  { rewrite Hlines. apply stripped_lines_not_blank. }
  { simpl. lia. }
  rewrite Hloop. simpl in Hn, Hps, Hend.
  eexists. exists g2, root_note, scale_name, scale_notes, g1.
  split; [reflexivity|]. simpl. rewrite Hn.
  repeat split; try assumption.
  now rewrite Hmap.
Qed.

(** ** Timing *)

Lemma sequential_first : forall ns t n,
  sequential t ns -> nth_error ns 0 = Some n -> timestamp n = t.
Proof.
  intros [|m ns] t n H Hn; simpl in *; [discriminate|].
  injection Hn as <-. tauto.
Qed.

Lemma sequential_next : forall ns t i n n',
  sequential t ns ->
  nth_error ns i = Some n -> nth_error ns (S i) = Some n' ->
  timestamp n' = timestamp n + duration n.
Proof.
  induction ns as [|m ns IH]; intros t i n n' H Hn Hn'.
  - destruct i; discriminate.
  - destruct H as [Hm Hrest]. destruct i as [|i].
    + simpl in Hn. injection Hn as <-. simpl in Hn'.
      rewrite (sequential_first ns _ n' Hrest Hn'). now rewrite Hm.
    + simpl in Hn, Hn'. eapply IH; eassumption.
Qed.

Lemma sequential_end : forall ns t,
  sequential t ns ->
  match rev ns with
  | [] => t
  | n :: _ => timestamp n + duration n
  end = end_of t ns.
Proof.
  intros ns. destruct ns as [|m ns] using rev_ind; intros t H.
  - reflexivity.
  - rewrite rev_app_distr. simpl.
    rewrite end_of_app. unfold end_of at 1. simpl.
    apply sequential_app in H. destruct H as [_ [Hm _]]. now rewrite Hm.
Qed.

Lemma phrase_span_sum : forall p,
  sequential (start_time p) (notes p) -> phrase_span p == phrase_duration p.
Proof.
  intros p H. unfold phrase_span, phrase_end, phrase_duration.
  rewrite (sequential_end _ _ H), end_of_sum. ring.
Qed.

Lemma phrases_sequential_nth : forall ps t k p,
  phrases_sequential t ps -> nth_error ps k = Some p ->
  start_time p = phrases_end t (firstn k ps).
Proof.
  induction ps as [|q ps IH]; intros t k p H Hk.
  - destruct k; discriminate.
  - destruct H as [Hq Hrest]. destruct k as [|k]; simpl in Hk.
    + injection Hk as <-. assumption.
    + simpl firstn. unfold phrases_end. simpl. now apply IH.
Qed.

Lemma phrases_end_sum : forall ps t,
  phrases_end t ps == t + py_sum (map duration (concat (map notes ps))).
Proof.
  induction ps as [|p ps IH]; intros t.
  - unfold phrases_end, py_sum. simpl. ring.
  - change (phrases_end t (p :: ps)) with (phrases_end (t + phrase_duration p) ps).
    rewrite IH. simpl. rewrite map_app, py_sum_app. unfold phrase_duration. ring.
Qed.

Lemma note_duration_formula : forall is_stressed ew tempo d,
  note_duration is_stressed ew tempo = Ok d ->
  tempo <> 0%Z
  /\ d = (if is_stressed then 0.75 + ew * 0.25 else 0.5)
         * (inject_Z 120 / inject_Z tempo).
Proof.
  intros b ew tempo d. unfold note_duration, py_truediv.
  destruct (Z.eqb_spec tempo 0) as [E | Hne]; simpl; intros H.
  - discriminate.
  - injection H as <-. now split.
Qed.

Lemma note_duration_pos : forall is_stressed ew tempo d,
  note_duration is_stressed ew tempo = Ok d ->
  (0 < tempo)%Z -> -1 <= ew -> 0 < d.
Proof.
  intros b ew tempo d H Ht Hew.
  apply note_duration_formula in H. destruct H as [_ ->].
  apply Qmult_lt_0_compat.
  - destruct b; [|reflexivity].
    apply Qlt_le_trans with (0.75 + (-1) * 0.25); [reflexivity|].
    apply Qplus_le_r. apply Qmult_le_compat_r; [assumption | discriminate].
  - apply Qlt_shift_div_l.
    + change 0 with (inject_Z 0). now rewrite <- Zlt_Qlt.
    + rewrite Qmult_0_l. reflexivity.
Qed.

Lemma note_velocity_range : forall is_stressed w,
  (40 <= note_velocity is_stressed w <= 127)%Z.
Proof.
  intros b w. unfold note_velocity. lia.
Qed.

Lemma default_stress_length : forall count, length (default_stress count) = count.
Proof.
  intros [|[|[|count]]]; try reflexivity.
  unfold default_stress, py_range. now rewrite length_map, length_seq.
Qed.

Lemma analyze_line_syllables_spec : forall line wd,
  In wd (_analyze_line_syllables line) ->
  In (word wd) (str_split (str_lower line))
  /\ syllable_count wd = estimate_syllables (word wd)
  /\ stress_pattern wd = default_stress (syllable_count wd)
  /\ word_emotion wd = emotion_of (word wd).
Proof.
  intros line wd H. unfold _analyze_line_syllables in H.
  apply in_map_iff in H. destruct H as (w & <- & Hw). simpl. now repeat split.
Qed.

(** ** Notes and syllables *)

Lemma Forall2_map_eq : forall (A B C : Type) (f : A -> C) (h : B -> C) xs ys,
  Forall2 (fun a b => h b = f a) xs ys -> map h ys = map f xs.
Proof.
  intros A B C f h xs ys H. induction H as [|a b xs ys Hab _ IH]; simpl.
  - reflexivity.
  - now rewrite Hab, IH.
Qed.

Lemma Forall2_weaken : forall (A B : Type) (P Q : A -> B -> Prop) xs ys,
  (forall a b, In a xs -> P a b -> Q a b) -> Forall2 P xs ys -> Forall2 Q xs ys.
Proof.
  intros A B P Q xs ys Himp H. induction H as [|a b xs ys Hab _ IH].
  - constructor.
  - constructor.
    + apply Himp; [now left | assumption].
    + apply IH. intros a' b' Ha'. apply Himp. now right.
Qed.

Lemma Forall2_right : forall (A B : Type) (P : B -> Prop) (xs : list A) ys,
  Forall2 (fun _ b => P b) xs ys -> Forall P ys.
Proof.
  intros A B P xs ys H. induction H; constructor; assumption.
Qed.

Lemma syllable_step_note :
  forall scale_notes root_note ew tempo wd syl_idx b c g c' g',
  syllable_step scale_notes root_note ew tempo wd syl_idx b c g = Ok (c', g') ->
  exists n,
    cur_notes c' = cur_notes c ++ [n]
    /\ note_of_syllable ew tempo
         (mkSyllable (syllable_text (word wd) (length (stress_pattern wd)) syl_idx)
                     b (word_emotion wd)) n.
Proof.
  intros scale_notes root_note ew tempo wd syl_idx b c g c' g'.
  unfold syllable_step.
  destruct (np_random_choice (-1) [0; 1]%Z g) as [variation g1].
  destruct (quantize_pitch _ _ _) as [final_pitch|e]; cbn [bind]; [|discriminate].
  destruct (note_duration b ew tempo) as [d|e] eqn:Hd; cbn [bind]; [|discriminate].
  intros H. injection H as <- _. eexists. split; [reflexivity|].
  unfold note_of_syllable.
  cbn [syllable velocity duration duration_type syl_label syl_stressed syl_weight].
  repeat split. exact Hd.
Qed.

Lemma syllable_loop_notes :
  forall scale_notes root_note ew tempo wd todo syl_idx c g c' g',
  syllable_loop scale_notes root_note ew tempo wd syl_idx todo c g = Ok (c', g') ->
  exists new,
    cur_notes c' = cur_notes c ++ new
    /\ Forall2 (note_of_syllable ew tempo) (syllables_from wd syl_idx todo) new.
Proof.
  intros scale_notes root_note ew tempo wd todo.
  induction todo as [|b rest IH]; intros syl_idx c g c' g'; cbn [syllable_loop].
  - intros H. injection H as <- _. exists []. rewrite app_nil_r.
    split; [reflexivity | constructor].
  - destruct (syllable_step _ _ _ _ _ _ _ _ _) as [[c1 g1]|e] eqn:Hstep; cbn [bind];
      [|discriminate].
    intros Hloop.
    apply syllable_step_note in Hstep. destruct Hstep as (n & Hn & Hnote).
    apply IH in Hloop. destruct Hloop as (new & Hnew & Hall).
    exists (n :: new). split.
    + rewrite Hnew, Hn, <- app_assoc. reflexivity.
    + unfold syllables_from. cbn [length seq combine map].
      constructor; [exact Hnote | exact Hall].
Qed.

Lemma word_loop_notes :
  forall scale_notes root_note ew tempo syllable_data c g c' g',
  word_loop scale_notes root_note ew tempo syllable_data c g = Ok (c', g') ->
  exists new,
    cur_notes c' = cur_notes c ++ new
    /\ Forall2 (note_of_syllable ew tempo)
               (concat (map word_syllables syllable_data)) new.
Proof.
  intros scale_notes root_note ew tempo syllable_data.
  induction syllable_data as [|wd rest IH]; intros c g c' g'; cbn [word_loop].
  - intros H. injection H as <- _. exists []. rewrite app_nil_r.
    split; [reflexivity | constructor].
  - destruct (syllable_loop _ _ _ _ _ _ _ _ _) as [[c1 g1]|e] eqn:Hword; cbn [bind];
      [|discriminate].
    intros Hloop.
    apply syllable_loop_notes in Hword. destruct Hword as (new1 & Hnew1 & Hall1).
    apply IH in Hloop. destruct Hloop as (new2 & Hnew2 & Hall2).
    exists (new1 ++ new2). split.
    + rewrite Hnew2, Hnew1, <- app_assoc. reflexivity.
    + cbn [map concat]. apply Forall2_app; assumption.
Qed.

Lemma generate_phrase_notes :
  forall line syllable_data ew root_note scale_name start tempo g p g',
  _generate_phrase_from_line line syllable_data ew root_note scale_name start tempo g
    = Ok (p, g') ->
  lyric_line p = line
  /\ emotion_weight p = ew
  /\ Forall2 (note_of_syllable ew tempo)
             (concat (map word_syllables syllable_data)) (notes p).
Proof.
  intros line syllable_data ew root_note scale_name start tempo g p g'.
  unfold _generate_phrase_from_line.
  destruct (scale_lookup scale_name) as [scale_notes|e]; cbn [bind]; [|discriminate].
  destruct (word_loop _ _ _ _ _ _ _) as [[c g1]|e] eqn:Hloop; cbn [bind];
    [|discriminate].
  intros H. injection H as <- _. cbn [lyric_line emotion_weight notes].
  apply word_loop_notes in Hloop. destruct Hloop as (new & Hnew & Hall).
  cbn [cur_notes app] in Hnew. rewrite Hnew. now repeat split.
Qed.

Lemma phrase_loop_notes :
  forall la root_note scale_name tempo todo line_idx c g c' g',
  phrase_loop la root_note scale_name tempo line_idx todo c g = Ok (c', g') ->
  Forall (notes_of_line tempo) (melody_phrases c) ->
  Forall (notes_of_line tempo) (melody_phrases c').
Proof.
  intros la root_note scale_name tempo todo.
  induction todo as [|line rest IH]; intros line_idx c g c' g'; cbn [phrase_loop].
  - intros H. injection H as <- _. trivial.
  - destruct (is_empty (str_strip line)); [apply IH|].
    destruct (py_getitem _ _) as [ew|e]; cbn [bind]; [|discriminate].
    destruct (_generate_phrase_from_line _ _ _ _ _ _ _ _) as [[p g1]|e] eqn:Hp;
      cbn [bind]; [|discriminate].
    intros Hloop Hc. apply IH in Hloop; [assumption|].
    cbn [melody_phrases]. apply Forall_app. split; [assumption|].
    constructor; [|constructor].
    apply generate_phrase_notes in Hp. destruct Hp as (Hline & Hew & Hall).
    unfold notes_of_line, syllables_of_line. now rewrite Hline, Hew.
Qed.

(** In a generated melody the notes of every phrase are those of the
    syllables of its line, in their order. *)
Lemma generate_melody_notes : forall lyrics genre mood tempo g melody g',
  generate_melody_from_lyrics lyrics genre mood tempo g = Ok (melody, g') ->
  Forall (notes_of_line tempo) (phrases melody).
Proof.
  intros lyrics genre mood tempo g melody g'.
  unfold generate_melody_from_lyrics.
  destruct (_analyze_lyrics_structure lyrics) as [la|e]; cbn [bind]; [|discriminate].
  destruct (_determine_key_and_scale (emotional_arc la) mood g)
    as [[root_note scale_name] g1].
  destruct (phrase_loop _ _ _ _ _ _ _ _) as [[c g2]|e] eqn:Hloop; cbn [bind];
    [|discriminate].
  intros H. injection H as <- _. cbn [phrases].
  apply phrase_loop_notes in Hloop; [assumption | constructor].
Qed.

Lemma phrase_loop_lines :
  forall la root_note scale_name tempo todo line_idx c g c' g',
  Forall (fun l => is_empty (str_strip l) = false) todo ->
  phrase_loop la root_note scale_name tempo line_idx todo c g = Ok (c', g') ->
  map lyric_line (melody_phrases c') = map lyric_line (melody_phrases c) ++ todo.
Proof.
  intros la root_note scale_name tempo todo.
  induction todo as [|line rest IH]; intros line_idx c g c' g' Hblank;
    cbn [phrase_loop].
  - intros H. injection H as <- _. now rewrite app_nil_r.
  - inversion Hblank as [|? ? Hline Hrest]; subst. rewrite Hline.
    destruct (py_getitem _ _) as [ew|e]; cbn [bind]; [|discriminate].
    destruct (_generate_phrase_from_line _ _ _ _ _ _ _ _) as [[p g1]|e] eqn:Hp;
      cbn [bind]; [|discriminate].
    intros H. apply (IH _ _ _ _ _ Hrest) in H. rewrite H.
    cbn [melody_phrases]. rewrite map_app. cbn [map].
    apply generate_phrase_notes in Hp. destruct Hp as (-> & _).
    now rewrite <- app_assoc.
Qed.

Lemma generate_melody_lines : forall lyrics genre mood tempo g melody g',
  generate_melody_from_lyrics lyrics genre mood tempo g = Ok (melody, g') ->
  map lyric_line (phrases melody) = stripped_lines lyrics.
Proof.
  intros lyrics genre mood tempo g melody g'.
  destruct (analyze_lyrics_structure_ok lyrics) as (la & Hla & Hlines & _).
  unfold generate_melody_from_lyrics. rewrite Hla. cbv [bind].
  destruct (_determine_key_and_scale (emotional_arc la) mood g)
    as [[root_note scale_name] g1].
  destruct (phrase_loop _ _ _ _ _ _ _ _) as [[c g2]|e] eqn:Hloop; [|discriminate].
  intros H. injection H as <- _. cbn [phrases].
  apply phrase_loop_lines in Hloop.
  - cbn [melody_phrases map app] in Hloop. now rewrite Hloop.
  - rewrite Hlines. apply stripped_lines_not_blank.
Qed.

Lemma phrases_mark_syllables : forall tempo ps,
  Forall (notes_of_line tempo) ps ->
  Forall2 note_marks_syllable
          (concat (map syllables_of_line (map lyric_line ps)))
          (concat (map notes ps)).
Proof.
  intros tempo ps H. induction H as [|p ps Hp _ IH]; cbn [map concat].
  - constructor.
  - apply Forall2_app; [|exact IH].
    eapply Forall2_weaken; [|exact Hp].
    intros s n _ (Hl & Hv & _ & Ht). now repeat split.
Qed.

(** The notes of a generated melody are those of the syllables of the
    lyrics, in their order. *)
Lemma all_notes_syllables : forall lyrics genre mood tempo g melody g',
  generate_melody_from_lyrics lyrics genre mood tempo g = Ok (melody, g') ->
  Forall2 note_marks_syllable (lyric_syllables lyrics) (all_notes melody).
Proof.
  intros lyrics genre mood tempo g melody g' H.
  unfold lyric_syllables, all_notes.
  rewrite <- (generate_melody_lines _ _ _ _ _ _ _ H).
  eapply phrases_mark_syllables. eapply generate_melody_notes. exact H.
Qed.

Lemma Forall2_In_l : forall (A B : Type) (R : A -> B -> Prop) xs ys x,
  Forall2 R xs ys -> In x xs -> exists y, In y ys /\ R x y.
Proof.
  intros A B R xs ys x H. induction H as [|a b xs ys Hab _ IH]; intros Hx.
  - destruct Hx.
  - destruct Hx as [<- | Hx].
    + exists b. split; [now left | assumption].
    + destruct (IH Hx) as (y & Hy & Hr). exists y. split; [now right | assumption].
Qed.

Lemma Forall2_In_r : forall (A B : Type) (R : A -> B -> Prop) xs ys y,
  Forall2 R xs ys -> In y ys -> exists x, In x xs /\ R x y.
Proof.
  intros A B R xs ys y H. induction H as [|a b xs ys Hab _ IH]; intros Hy.
  - destruct Hy.
  - destruct Hy as [<- | Hy].
    + exists a. split; [now left | assumption].
    + destruct (IH Hy) as (x & Hx & Hr). exists x. split; [now right | assumption].
Qed.

Lemma in_combine_seq : forall (A : Type) (l : list A) k i a,
  In (i, a) (combine (seq k (length l)) l)
  <-> (k <= i)%nat /\ nth_error l (i - k) = Some a.
Proof.
  induction l as [|x l IH]; intros k i a; cbn [length seq combine].
  - split; [intros [] | intros [_ H]]. destruct (i - k)%nat; discriminate.
  - cbn [In]. rewrite IH. split.
    + intros [E | [Hk Hn]].
      * injection E as <- <-. split; [lia|]. now rewrite Nat.sub_diag.
      * split; [lia|]. replace (i - k)%nat with (S (i - S k)) by lia. exact Hn.
    + intros [Hk Hn]. destruct (Nat.eq_dec i k) as [-> | Hne].
      * left. rewrite Nat.sub_diag in Hn. injection Hn as <-. reflexivity.
      * right. split; [lia|].
        replace (i - k)%nat with (S (i - S k)) in Hn by lia. exact Hn.
Qed.

(** The syllables of the lyrics, by their words. *)
Lemma lyric_syllables_spec : forall lyrics s,
  In s (lyric_syllables lyrics)
  <-> exists w i b,
        In w (lyric_words lyrics)
        /\ nth_error (default_stress (estimate_syllables w)) i = Some b
        /\ s = mkSyllable (syllable_text w (estimate_syllables w) i) b (emotion_of w).
Proof.
  intros lyrics s. unfold lyric_syllables, lyric_words. rewrite in_concat. split.
  - intros (block & Hblock & Hs). apply in_map_iff in Hblock.
    destruct Hblock as (line & <- & Hline).
    unfold syllables_of_line, _analyze_line_syllables in Hs. rewrite map_map in Hs.
    apply in_concat in Hs. destruct Hs as (ws & Hws & Hs).
    apply in_map_iff in Hws. destruct Hws as (w & <- & Hw).
    unfold word_syllables, syllables_from in Hs.
    cbn [word stress_pattern word_emotion] in Hs.
    apply in_map_iff in Hs. destruct Hs as ([i b] & <- & Hib).
    apply in_combine_seq in Hib. destruct Hib as [_ Hn]. rewrite Nat.sub_0_r in Hn.
    exists w, i, b. cbn [fst snd]. rewrite default_stress_length.
    split; [|split; [exact Hn | reflexivity]].
    apply in_concat. exists (str_split (str_lower line)). split; [|assumption].
    apply in_map_iff. now exists line.
  - intros (w & i & b & Hw & Hn & ->). apply in_concat in Hw.
    destruct Hw as (ws & Hws & Hw). apply in_map_iff in Hws.
    destruct Hws as (line & <- & Hline).
    exists (syllables_of_line line). split; [now apply in_map|].
    unfold syllables_of_line, _analyze_line_syllables. rewrite map_map.
    apply in_concat. eexists. split.
    { apply in_map_iff. exists w. split; [reflexivity | exact Hw]. }
    unfold word_syllables, syllables_from. cbn [word stress_pattern word_emotion].
    apply in_map_iff. exists (i, b). cbn [fst snd]. split.
    + now rewrite default_stress_length.
    + apply in_combine_seq. split; [lia|]. now rewrite Nat.sub_0_r.
Qed.

Lemma emotion_of_in_table : forall w, In (emotion_of w) sentiment_values.
Proof.
  intros w. unfold emotion_of, sentiment_values.
  destruct (dict_get emotion_weights w) as [v|] eqn:E.
  - right. eapply dict_get_In; eassumption.
  - now left.
Qed.

(** The weight of every syllable of a line is that of a word of the line
    in the sentiment table. *)
Lemma syllables_of_line_weights : forall line s,
  In s (syllables_of_line line) ->
  exists w, In w (str_split (str_lower line)) /\ syl_weight s = emotion_of w.
Proof.
  intros line s H. unfold syllables_of_line in H.
  apply in_concat in H. destruct H as (ss & Hss & Hs).
  apply in_map_iff in Hss. destruct Hss as (wd & <- & Hwd).
  unfold word_syllables, syllables_from in Hs.
  apply in_map_iff in Hs. destruct Hs as (ib & <- & _).
  cbn [syl_weight].
  destruct (analyze_line_syllables_spec _ _ Hwd) as (Hw & _ & _ & Hemo).
  exists (word wd). now split.
Qed.

(** ** The generated melody *)

(** C1. Every generated note of every phrase has its pitch-class offset
    from the chosen root, modulo 12, in the selected scale.  The pitch is the
    quantized cursor of a walk that starts one octave above the root; the
    quantization keeps an offset that is in the scale, replaces any other by
    the first scale note, in the ascending order of the scale, at the least
    absolute distance, and rebuilds the octave by floor division of the
    offset before quantization by 12. *)
Theorem C1_pitches_quantized_to_scale :
  forall lyrics genre mood tempo g,
  tempo <> 0%Z ->
  exists melody g' root_note scale_name scale_notes g1,
    generate_melody_from_lyrics lyrics genre mood tempo g = Ok (melody, g')
    /\ _determine_key_and_scale (emotional_arc (structure melody)) mood g
         = ((root_note, scale_name), g1)
    /\ dict_get scales scale_name = Some scale_notes
    /\ StronglySorted Z.lt scale_notes
    /\ (forall p, In p (phrases melody) ->
          (exists cur_end,
             pitch_walk scale_notes root_note (root_note + 12)%Z (notes p) cur_end)
          /\ forall n, In n (notes p) ->
               In ((pitch n - root_note) mod 12)%Z scale_notes)
    /\ (forall cur, exists d,
          quantize_pitch scale_notes root_note cur
            = Ok (root_note + d + ((cur - root_note) / 12) * 12)%Z
          /\ In d scale_notes
          /\ ((root_note + d + ((cur - root_note) / 12) * 12 - root_note) mod 12 = d)%Z
          /\ (In ((cur - root_note) mod 12)%Z scale_notes ->
              d = ((cur - root_note) mod 12)%Z)
          /\ (~ In ((cur - root_note) mod 12)%Z scale_notes ->
              nearest_first scale_notes ((cur - root_note) mod 12)%Z d)).
Proof.
  intros lyrics genre mood tempo g Ht.
  destruct (generate_melody_ok lyrics genre mood tempo g Ht)
    as (melody & g' & root_note & scale_name & scale_notes & g1
        & Hgen & _ & Hkey & Hscale & _ & _ & _ & _ & _ & Hfrom).
  pose proof (scales_well_formed _ _ Hscale) as Hs.
  exists melody, g', root_note, scale_name, scale_notes, g1.
  split; [assumption|]. split; [assumption|]. split; [assumption|].
  split; [eapply scales_ascending; eassumption|].
  split; [intros p H; split|].
  - rewrite Forall_forall in Hfrom. destruct (Hfrom p H) as (_ & _ & Hwalk & _).
    exact Hwalk.
  - intros n Hn. rewrite Forall_forall in Hfrom.
    destruct (Hfrom p H) as (_ & _ & _ & Hnotes).
    rewrite Forall_forall in Hnotes.
    destruct (Hnotes n Hn) as (wd & b & cur & _ & _ & Hq & _).
    destruct (quantize_pitch_spec scale_notes root_note cur Hs)
      as (d & Hq' & Hin & Hmod & _).
    rewrite Hq in Hq'. injection Hq' as ->. now rewrite Hmod.
  - intros cur. apply quantize_pitch_spec. assumption.
Qed.

(** C5. The melody has one phrase per non-blank line, in line order; each
    phrase starts at the cumulated duration of the phrases before it; the
    durations of the notes of a phrase add up to its span; in a phrase the
    first note starts with the phrase and each next note starts where the
    one before it ends, so that the timestamps do not decrease. *)
Theorem C5_phrases_follow_lines_and_time :
  forall lyrics genre mood tempo g,
  (0 < tempo)%Z ->
  exists melody g',
    generate_melody_from_lyrics lyrics genre mood tempo g = Ok (melody, g')
    /\ length (phrases melody) = length (non_blank_lines lyrics)
    /\ map lyric_line (phrases melody) = map str_strip (non_blank_lines lyrics)
    /\ total_duration melody == py_sum (map duration (all_notes melody))
    /\ forall k p, nth_error (phrases melody) k = Some p ->
         start_time p
           == py_sum (map duration (concat (map notes (firstn k (phrases melody)))))
         /\ phrase_span p == py_sum (map duration (notes p))
         /\ (forall n, nth_error (notes p) 0 = Some n -> timestamp n = start_time p)
         /\ (forall i n n',
               nth_error (notes p) i = Some n ->
               nth_error (notes p) (S i) = Some n' ->
               timestamp n' = timestamp n + duration n
               /\ timestamp n <= timestamp n').
Proof.
  intros lyrics genre mood tempo g Ht.
  assert (Hne : tempo <> 0%Z) by lia.
  destruct (generate_melody_ok lyrics genre mood tempo g Hne)
    as (melody & g' & root_note & scale_name & scale_notes & g1
        & Hgen & Hla & _ & _ & _ & Hlines & Hps & Htotal & _ & Hfrom).
  destruct (analyze_lyrics_structure_ok lyrics) as (la & Hla' & _ & _ & Harc & _).
  rewrite Hla in Hla'. injection Hla' as <-.
  exists melody, g'. split; [assumption|].
  split. { rewrite <- (length_map lyric_line), Hlines. apply length_map. }
  split. { exact Hlines. }
  split.
  { rewrite Htotal, phrases_end_sum. unfold all_notes. ring. }
  intros k p Hk.
  assert (Hp : phrase_from (structure melody) scale_notes root_note tempo p).
  { rewrite Forall_forall in Hfrom. apply Hfrom. eapply nth_error_In; eassumption. }
  destruct Hp as (Hew & Hseq & _ & Hnotes).
  split.
  { rewrite (phrases_sequential_nth _ _ _ _ Hps Hk), phrases_end_sum. ring. }
  split. { now apply phrase_span_sum. }
  split. { intros n Hn. eapply sequential_first; eassumption. }
  intros i n n' Hn Hn'.
  pose proof (sequential_next _ _ _ _ _ Hseq Hn Hn') as Hnext.
  split; [assumption|]. rewrite Hnext.
  rewrite Forall_forall in Hnotes, Harc.
  destruct (Hnotes n (nth_error_In _ _ Hn)) as (wd & b & cur & _ & _ & _ & Hd & _).
  assert (Hpos : 0 < duration n).
  { eapply note_duration_pos; [eassumption | assumption |].
    apply (Harc _ Hew). }
  rewrite <- (Qplus_0_r (timestamp n)) at 1.
  apply Qplus_le_r. now apply Qlt_le_weak.
Qed.

(** C6. For a tempo from 1 to 10^300 the notes of every phrase are those of
    the syllables of its line, one note per syllable in order: the velocity
    of a note is 90 when its syllable is stressed and 70 when it is not, plus
    the truncated product of the magnitude of the weight of its word and 20,
    clamped to 40..127, the weight being 0 or a value of the sentiment table;
    its duration is 0.75 plus a quarter of the emotion of the line when
    stressed and 0.5 when not, times 120 over the tempo; the velocity lies
    between 40 and 127 and the duration is above zero.  The durations are
    exact rationals here; [C6_duration_underflows_to_zero] has the binary64
    value for a tempo of 10^400. *)
Theorem C6_velocity_and_duration_bounds :
  forall lyrics genre mood tempo g,
  (0 < tempo)%Z -> (tempo <= 10 ^ 300)%Z ->
  exists melody g',
    generate_melody_from_lyrics lyrics genre mood tempo g = Ok (melody, g')
    /\ forall p, In p (phrases melody) ->
         let syllables := syllables_of_line (lyric_line p) in
         map syllable (notes p) = map syl_label syllables
         /\ map velocity (notes p)
            = map (fun s => Z.max 40 (Z.min 127 ((if syl_stressed s then 90 else 70)
                                                 + py_int (Qabs (syl_weight s) * 20))%Z))
                  syllables
         /\ map duration (notes p)
            = map (fun s => (if syl_stressed s then 0.75 + emotion_weight p * 0.25
                             else 0.5)
                            * (inject_Z 120 / inject_Z tempo))
                  syllables
         /\ Forall (fun s => In (syl_weight s) sentiment_values) syllables
         /\ Forall (fun n => (40 <= velocity n <= 127)%Z /\ 0 < duration n) (notes p).
Proof.
  intros lyrics genre mood tempo g Ht _.
  assert (Hne : tempo <> 0%Z) by lia.
  destruct (generate_melody_ok lyrics genre mood tempo g Hne)
    as (melody & g' & root_note & scale_name & scale_notes & g1
        & Hgen & Hla & _ & _ & _ & _ & _ & _ & _ & Hfrom).
  destruct (analyze_lyrics_structure_ok lyrics) as (la & Hla' & _ & _ & Harc & _).
  rewrite Hla in Hla'. injection Hla' as <-.
  exists melody, g'. split; [assumption|].
  intros p Hp syllables. subst syllables.
  pose proof (generate_melody_notes _ _ _ _ _ _ _ Hgen) as Hnotes.
  rewrite Forall_forall in Hnotes, Hfrom, Harc.
  specialize (Hnotes p Hp). unfold notes_of_line in Hnotes.
  destruct (Hfrom p Hp) as (Hew & _).
  split; [|split; [|split; [|split]]].
  - apply Forall2_map_eq. eapply Forall2_weaken; [|exact Hnotes].
    intros s n _ (Hl & _). exact Hl.
  - apply Forall2_map_eq. eapply Forall2_weaken; [|exact Hnotes].
    intros s n _ (_ & Hv & _). rewrite Hv. unfold note_velocity.
    now destruct (syl_stressed s).
  - apply Forall2_map_eq. eapply Forall2_weaken; [|exact Hnotes].
    intros s n _ (_ & _ & Hd & _). now apply note_duration_formula in Hd.
  - apply Forall_forall. intros s Hs.
    destruct (syllables_of_line_weights _ _ Hs) as (w & _ & ->).
    apply emotion_of_in_table.
  - eapply Forall2_right. eapply Forall2_weaken; [|exact Hnotes].
    intros s n _ (_ & Hv & Hd & _). split.
    + rewrite Hv. apply note_velocity_range.
    + eapply note_duration_pos; [eassumption | assumption | apply (Harc _ Hew)].
Qed.

(** ** convert_lyrics_to_melody of lyrics_to_melody.py *)

Lemma convert_syllable_ok : forall scale_notes root_note tempo_in wd syl_idx b c g,
  well_formed_scale scale_notes -> tempo_in <> 0%Z ->
  exists n cp,
    LyricsToMelody.convert_syllable scale_notes root_note tempo_in wd syl_idx b c g
      = Ok (LyricsToMelody.mkBeatCursor (LyricsToMelody.beat_notes c ++ [n]) cp
              (LyricsToMelody.current_beat c + LyricsToMelody.Note.duration n), advance g)
    /\ In ((LyricsToMelody.Note.pitch n - root_note) mod 12)%Z scale_notes
    /\ LyricsToMelody.Note.velocity n = note_velocity b (word_emotion wd)
    /\ LyricsToMelody.Note.duration n
       = (if b then 0.75 else 0.5) * (inject_Z 120 / inject_Z tempo_in).
Proof.
  intros scale_notes root_note tempo_in wd syl_idx b c g Hs Ht.
  unfold LyricsToMelody.convert_syllable, np_random_choice. cbv beta iota zeta.
  set (cur := (LyricsToMelody.beat_pitch c + _)%Z).
  destruct (quantize_pitch_spec scale_notes root_note cur Hs)
    as (d & Hq & Hin & Hmod & _).
  rewrite Hq. cbn [bind]. unfold py_truediv.
  destruct (Z.eqb_spec tempo_in 0) as [E | _]; [contradiction|]. cbn [bind].
  exists (LyricsToMelody.Note.mk (root_note + d + (cur - root_note) / 12 * 12)%Z
            ((if b then 0.75 else 0.5) * (inject_Z 120 / inject_Z tempo_in))
            (note_velocity b (word_emotion wd))
            (syllable_text (word wd) (length (stress_pattern wd)) syl_idx)), cur.
  cbn [LyricsToMelody.Note.pitch LyricsToMelody.Note.velocity
       LyricsToMelody.Note.duration].
  rewrite Hmod. repeat split. assumption.
Qed.

Lemma convert_syllables_ok : forall scale_notes root_note tempo_in wd todo syl_idx c g,
  well_formed_scale scale_notes -> tempo_in <> 0%Z ->
  exists c' g' new,
    LyricsToMelody.convert_syllables scale_notes root_note tempo_in wd syl_idx todo c g = Ok (c', g')
    /\ LyricsToMelody.beat_notes c' = LyricsToMelody.beat_notes c ++ new
    /\ map LyricsToMelody.Note.velocity new = map (fun b => note_velocity b (word_emotion wd)) todo
    /\ map LyricsToMelody.Note.duration new
       = map (fun b : bool => (if b then 0.75 else 0.5)
                       * (inject_Z 120 / inject_Z tempo_in)) todo
    /\ Forall (fun n => In ((LyricsToMelody.Note.pitch n - root_note) mod 12)%Z scale_notes) new
    /\ LyricsToMelody.current_beat c' = fold_left Qplus (map LyricsToMelody.Note.duration new) (LyricsToMelody.current_beat c).
Proof.
  intros scale_notes root_note tempo_in wd todo.
  induction todo as [|b rest IH]; intros syl_idx c g Hs Ht.
  - exists c, g, []. simpl. rewrite app_nil_r. repeat split. constructor.
  - destruct (convert_syllable_ok scale_notes root_note tempo_in wd syl_idx b c g Hs Ht)
      as (n & cp & Hstep & Hin & Hv & Hd).
    cbn [LyricsToMelody.convert_syllables]. rewrite Hstep. cbn [bind].
    match goal with
    | |- exists c' g' new, LyricsToMelody.convert_syllables _ _ _ _ ?i rest ?c1 ?g1 = _ /\ _ =>
        destruct (IH i c1 g1 Hs Ht)
          as (c' & g' & new & Hloop & Hn & Hvs & Hds & Hall & Hbeat)
    end.
    exists c', g', (n :: new).
    cbn [LyricsToMelody.beat_notes LyricsToMelody.current_beat] in *.
    rewrite <- app_assoc in Hn. simpl app in Hn.
    split; [assumption|]. split; [assumption|].
    split; [simpl; now rewrite Hv, Hvs|].
    split; [simpl; now rewrite Hd, Hds|].
    split; [now constructor|]. exact Hbeat.
Qed.

Lemma convert_words_ok : forall scale_notes root_note tempo_in syllable_data c g,
  well_formed_scale scale_notes -> tempo_in <> 0%Z ->
  exists c' g' new,
    LyricsToMelody.convert_words scale_notes root_note tempo_in syllable_data c g = Ok (c', g')
    /\ LyricsToMelody.beat_notes c' = LyricsToMelody.beat_notes c ++ new
    /\ map LyricsToMelody.Note.velocity new
       = map (fun be => note_velocity (fst be) (snd be))
             (concat (map (fun wd => map (fun b => (b, word_emotion wd))
                                         (stress_pattern wd)) syllable_data))
    /\ map LyricsToMelody.Note.duration new
       = map (fun be : bool * Q => (if fst be then 0.75 else 0.5)
                        * (inject_Z 120 / inject_Z tempo_in))
             (concat (map (fun wd => map (fun b => (b, word_emotion wd))
                                         (stress_pattern wd)) syllable_data))
    /\ Forall (fun n => In ((LyricsToMelody.Note.pitch n - root_note) mod 12)%Z scale_notes) new
    /\ LyricsToMelody.current_beat c' = fold_left Qplus (map LyricsToMelody.Note.duration new) (LyricsToMelody.current_beat c).
Proof.
  intros scale_notes root_note tempo_in syllable_data.
  induction syllable_data as [|wd rest IH]; intros c g Hs Ht.
  - exists c, g, []. simpl. rewrite app_nil_r. repeat split. constructor.
  - destruct (convert_syllables_ok scale_notes root_note tempo_in wd
                (stress_pattern wd) O c g Hs Ht)
      as (c1 & g1 & new1 & Hloop & Hn1 & Hv1 & Hd1 & Hall1 & Hb1).
    cbn [LyricsToMelody.convert_words]. rewrite Hloop. cbn [bind].
    destruct (IH c1 g1 Hs Ht)
      as (c' & g' & new2 & Hrest & Hn2 & Hv2 & Hd2 & Hall2 & Hb2).
    exists c', g', (new1 ++ new2).
    split; [assumption|].
    split; [now rewrite Hn2, Hn1, app_assoc|].
    split. { simpl. rewrite !map_app, Hv1, Hv2, map_map. reflexivity. }
    split. { simpl. rewrite !map_app, Hd1, Hd2, map_map. reflexivity. }
    split; [apply Forall_app; now split|].
    rewrite Hb2, Hb1, map_app, fold_left_app. reflexivity.
Qed.

Lemma convert_lines_ok : forall scale_notes root_note tempo_in arc todo line_idx c g,
  well_formed_scale scale_notes -> tempo_in <> 0%Z ->
  (line_idx + length todo <= length arc)%nat ->
  exists c' g' new,
    LyricsToMelody.convert_lines scale_notes root_note tempo_in arc line_idx todo c g = Ok (c', g')
    /\ LyricsToMelody.done_lines c' = LyricsToMelody.done_lines c ++ new
    /\ Forall2 (line_phrase scale_notes root_note tempo_in) todo new
    /\ beats_chain (LyricsToMelody.line_beat c) new
    /\ LyricsToMelody.line_beat c' = beats_end (LyricsToMelody.line_beat c) new.
Proof.
  intros scale_notes root_note tempo_in arc todo.
  induction todo as [|line rest IH]; intros line_idx c g Hs Ht Hlen.
  - exists c, g, []. simpl. rewrite app_nil_r. repeat split. constructor.
  - cbn [LyricsToMelody.convert_lines]. unfold LyricsToMelody.convert_line, py_getitem.
    destruct (nth_error arc line_idx) as [ew|] eqn:Hew.
    2:{ apply nth_error_None in Hew. simpl in Hlen. lia. }
    cbn [bind].
    destruct (convert_words_ok scale_notes root_note tempo_in (LyricsToMelody.analyze_syllables line)
                (LyricsToMelody.mkBeatCursor [] (root_note + 12)%Z (LyricsToMelody.line_beat c)) g Hs Ht)
      as (b & g1 & new & Hw & Hn & Hv & Hd & Hall & Hb).
    rewrite Hw. cbn [bind]. cbn [LyricsToMelody.beat_notes LyricsToMelody.current_beat] in Hn, Hb.
    simpl app in Hn.
    match goal with
    | |- exists c' g' new, LyricsToMelody.convert_lines _ _ _ _ ?i rest ?c1 ?g1 = _ /\ _ =>
        destruct (IH i c1 g1 Hs Ht)
          as (c' & g' & new' & Hloop & Hn' & Hall' & Hchain & Hend)
    end.
    { simpl in Hlen. lia. }
    cbn [LyricsToMelody.done_lines LyricsToMelody.line_beat] in *.
    eexists c', g', (_ :: new'). split; [exact Hloop|].
    split; [rewrite Hn', <- app_assoc; reflexivity|].
    split.
    { constructor; [|assumption]. unfold line_phrase, flag_emotions.
      cbn [LyricsToMelody.Phrase.notes LyricsToMelody.Phrase.stress_pattern]. rewrite Hn.
      repeat split; assumption. }
    split.
    { cbn [beats_chain LyricsToMelody.Phrase.notes LyricsToMelody.Phrase.start_beat]. rewrite Hn, <- Hb.
      split; [reflexivity | assumption]. }
    rewrite Hend. unfold beats_end. cbn [fold_left LyricsToMelody.Phrase.notes].
    now rewrite Hn, <- Hb.
Qed.

Lemma emotion_loop_ok : forall todo arc total,
  Forall (fun l => str_split (str_lower l) <> []) todo ->
  LyricsToMelody.emotion_loop todo arc total
  = Ok (arc ++ map line_emotion todo,
        fold_left float_add (map line_emotion todo) total).
Proof.
  induction todo as [|line rest IH]; intros arc total Hw.
  - cbn [LyricsToMelody.emotion_loop map fold_left]. now rewrite app_nil_r.
  - inversion Hw as [|? ? Hline Hrest]; subst.
    cbn [LyricsToMelody.emotion_loop]. rewrite (np_mean_line line Hline).
    cbn [bind]. rewrite (IH _ _ Hrest). cbn [map fold_left].
    now rewrite <- app_assoc.
Qed.

(** [convert_lyrics_to_melody] answers for every lyric text when the tempo
    is not zero, and its answer is what the loops build. *)
Lemma convert_ok : forall lyrics tempo_in g,
  tempo_in <> 0%Z ->
  exists r g' scale_notes,
    LyricsToMelody.convert_lyrics_to_melody lyrics tempo_in g = Ok (r, g')
    /\ LyricsToMelody.Result.lyrics r = lyrics
    /\ LyricsToMelody.Result.tempo r = tempo_in
    /\ In (LyricsToMelody.Result.key r) [60; 62; 64; 67]%Z
    /\ In (LyricsToMelody.Result.scale r) ["major"; "minor"; "dorian"]
    /\ dict_get scales (LyricsToMelody.Result.scale r) = Some scale_notes
    /\ Forall2 (line_phrase scale_notes (LyricsToMelody.Result.key r) tempo_in)
               (stripped_lines lyrics) (LyricsToMelody.Result.melody_lines r)
    /\ beats_chain 0 (LyricsToMelody.Result.melody_lines r)
    /\ LyricsToMelody.Result.total_duration r = beats_end 0 (LyricsToMelody.Result.melody_lines r)
    /\ LyricsToMelody.Result.note_count r
       = fold_left Nat.add
           (map (fun p => length (LyricsToMelody.Phrase.notes p)) (LyricsToMelody.Result.melody_lines r)) O.
Proof.
  intros lyrics tempo_in g Ht. unfold LyricsToMelody.convert_lyrics_to_melody.
  rewrite (emotion_loop_ok (stripped_lines lyrics) [] 0
             (stripped_lines_have_words lyrics)).
  cbn [bind app].
  set (arc := map line_emotion (stripped_lines lyrics)).
  assert (Hlen : length arc = length (stripped_lines lyrics)) by apply length_map.
  set (avg := match stripped_lines lyrics with
              | [] => 0
              | _ :: _ => float_div (fold_left float_add arc 0)
                            (inject_Z (Z.of_nat (length (stripped_lines lyrics))))
              end).
  pose proof (np_random_choice_In 60 [62; 64; 67]%Z g) as Hroot.
  destruct (np_random_choice 60 [62; 64; 67]%Z g) as [root_note g1].
  cbn [fst] in Hroot.
  assert (Hscale : In (LyricsToMelody.scale_for_emotion avg) ["major"; "minor"; "dorian"]
                   /\ exists scale_notes,
                        dict_get scales (LyricsToMelody.scale_for_emotion avg) = Some scale_notes).
  { unfold LyricsToMelody.scale_for_emotion.
    destruct (Qltb 0.3 avg); [|destruct (Qltb avg (-0.3))];
      (split; [simpl; tauto | eexists; reflexivity]). }
  destruct Hscale as [Hname (scale_notes & Hscale)].
  unfold scale_lookup. rewrite Hscale. cbn [bind].
  destruct (convert_lines_ok scale_notes root_note tempo_in arc (stripped_lines lyrics)
              O (LyricsToMelody.mkLineCursor [] 0) g1 (scales_well_formed _ _ Hscale) Ht)
    as (c & g2 & new & Hloop & Hn & Hall & Hchain & Hend).
  { simpl. lia. }
  rewrite Hloop. cbn [bind]. cbn [LyricsToMelody.done_lines LyricsToMelody.line_beat] in Hn, Hchain, Hend.
  simpl app in Hn.
  eexists. exists g2, scale_notes. split; [reflexivity|].
  cbn [LyricsToMelody.Result.lyrics LyricsToMelody.Result.tempo LyricsToMelody.Result.key LyricsToMelody.Result.scale
       LyricsToMelody.Result.melody_lines LyricsToMelody.Result.total_duration LyricsToMelody.Result.note_count].
  rewrite Hn. repeat split; assumption.
Qed.


(** ** Key, scale and audio features *)


Lemma dict_get_entry : forall (V : Type) (d : list (string * V)) k v,
  dict_get d k = Some v -> In (k, v) d.
Proof.
  intros V d k v; induction d as [|[k' v'] d IH]; simpl; intros H.
  - discriminate.
  - destruct (String.eqb_spec k' k) as [-> | _].
    + injection H as <-. now left.
    + right. now apply IH.
Qed.

(** C8. The profile starts from the baseline; a known mood replaces the
    energy and sets the valence to one of two levels; a known genre, applied
    afterwards, overwrites the fields it names, so that it wins over the mood
    on the energy; an unknown mood or genre changes nothing. *)
Theorem C8_audio_feature_overrides :
  forall genre mood tempo_in root_note scale_name,
    let f := _generate_audio_features genre mood tempo_in root_note scale_name in
    let mood_config := dict_get emotion_mappings (str_lower mood) in
    baseline_features tempo_in root_note
      = mkAudioFeatures tempo_in (_midi_to_note_name root_note) "4/4" 0.7 0.5 0.6 0.3 0.1
    /\ tempo f = tempo_in
    /\ key f = _midi_to_note_name root_note
    /\ time_signature f = "4/4"
    /\ instrumentalness f = 0.1
    /\ valence f
       = match mood_config with
         | Some cfg => if Qltb 0.6 (mood_energy cfg) then 0.8 else 0.3
         | None => 0.5
         end
    /\ energy f
       = or_else (genre_field genre "energy")
                 match mood_config with
                 | Some cfg => mood_energy cfg
                 | None => 0.7
                 end
    /\ danceability f = or_else (genre_field genre "danceability") 0.6
    /\ acousticness f = or_else (genre_field genre "acousticness") 0.3
    /\ apply_mood mood (baseline_features tempo_in root_note)
       = match mood_config with
         | Some cfg =>
             mkAudioFeatures tempo_in (_midi_to_note_name root_note) "4/4"
               (mood_energy cfg) (if Qltb 0.6 (mood_energy cfg) then 0.8 else 0.3)
               0.6 0.3 0.1
         | None => baseline_features tempo_in root_note
         end
    /\ match dict_get genre_adjustments (str_lower genre) with
       | Some adj =>
           (exists e, dict_get adj "energy" = Some e)
           /\ dict_get adj "valence" = None
       | None => f = apply_mood mood (baseline_features tempo_in root_note)
       end.
Proof.
  intros genre mood tempo_in root_note scale_name f mood_config.
  subst f mood_config.
  unfold _generate_audio_features, apply_genre, apply_mood, genre_field.
  destruct (dict_get genre_adjustments (str_lower genre)) as [adj|] eqn:Hg.
  - apply dict_get_entry in Hg. unfold genre_adjustments in Hg. simpl in Hg.
    destruct (dict_get emotion_mappings (str_lower mood)) as [cfg|];
      destruct Hg as [Hg | [Hg | [Hg | [Hg | []]]]];
      injection Hg as _ <-; simpl;
      repeat split; try reflexivity; eexists; reflexivity.
  - destruct (dict_get emotion_mappings (str_lower mood)) as [cfg|];
      simpl; repeat split; reflexivity.
Qed.

(** ** Vocal parameters *)

Lemma contour_samples_length : forall frequency n g,
  length (fst (contour_samples frequency n g)) = n.
Proof.
  intros frequency n; induction n as [|n IH]; intros g; simpl.
  - reflexivity.
  - destruct (contour_samples frequency n (advance g)) as [rest g2] eqn:E.
    simpl. f_equal. specialize (IH (advance g)). now rewrite E in IH.
Qed.

(** The contour is the accumulator followed by one block of samples per
    note, each of the note's number of points. *)
Lemma notes_pitch_contour_blocks : forall exp2 ns acc g,
  exists blocks,
    fst (notes_pitch_contour exp2 ns acc g) = acc ++ concat blocks
    /\ Forall2 (fun note block => length block = num_points note) ns blocks.
Proof.
  intros exp2 ns; induction ns as [|note rest IH]; intros acc g; simpl.
  - exists []. simpl. rewrite app_nil_r. split; [reflexivity | constructor].
  - pose proof (contour_samples_length (note_frequency exp2 note) (num_points note) g)
      as Hlen.
    destruct (contour_samples (note_frequency exp2 note) (num_points note) g)
      as [samples g1].
    simpl in Hlen.
    destruct (IH (acc ++ samples) g1) as (blocks & Hb & Hall).
    exists (samples :: blocks). simpl. rewrite Hb, <- app_assoc.
    split; [reflexivity | now constructor].
Qed.

Lemma generate_dynamics_concat : forall ns acc,
  fold_left (fun acc note => acc ++ note_dynamics note) ns acc
  = acc ++ concat (map note_dynamics ns).
Proof.
  induction ns as [|note rest IH]; intros acc; simpl.
  - now rewrite app_nil_r.
  - rewrite IH. now rewrite app_assoc.
Qed.

Lemma note_dynamics_length : forall note, length (note_dynamics note) = num_points note.
Proof.
  intros note. unfold note_dynamics, py_range.
  now rewrite length_map, length_seq.
Qed.

Lemma concat_blocks_length : forall (A B : Type) (size : A -> nat)
    (xs : list A) (blocks : list (list B)),
  Forall2 (fun x block => length block = size x) xs blocks ->
  length (concat blocks) = list_sum (map size xs).
Proof.
  intros A B size xs blocks H. induction H as [|x block xs blocks Hx _ IH]; simpl.
  - reflexivity.
  - now rewrite length_app, Hx, IH.
Qed.

Lemma note_dynamics_blocks : forall ns,
  Forall2 (fun note block => length block = num_points note)
          ns (map note_dynamics ns).
Proof.
  induction ns as [|n ns IH]; simpl; constructor.
  - apply note_dynamics_length.
  - assumption.
Qed.

(** C10. The pitch contour and the dynamics envelope are made of one block
    of samples per note, in note order, and the two blocks of a note both
    have max(1, int(duration * 10)) samples: the streams have the same
    length and are aligned sample for sample. *)
Theorem C10_contour_and_dynamics_aligned :
  forall exp2 melody g,
    let contour := fst (_extract_pitch_contour exp2 melody g) in
    let envelope := _generate_dynamics melody in
    length contour = length envelope
    /\ length contour = list_sum (map num_points (all_notes melody))
    /\ (exists blocks,
          contour = concat blocks
          /\ Forall2 (fun note block => length block = num_points note)
                     (all_notes melody) blocks)
    /\ envelope = concat (map note_dynamics (all_notes melody))
    /\ forall note,
         length (note_dynamics note) = num_points note
         /\ Z.of_nat (num_points note) = Z.max 1 (py_int (duration note * 10))
         /\ (1 <= num_points note)%nat.
Proof.
  intros exp2 melody g contour envelope. subst contour envelope.
  unfold _extract_pitch_contour, _generate_dynamics.
  destruct (notes_pitch_contour_blocks exp2 (all_notes melody) [] g)
    as (blocks & Hb & Hall).
  simpl in Hb. rewrite generate_dynamics_concat. simpl app.
  assert (Hc : length (fst (notes_pitch_contour exp2 (all_notes melody) [] g))
               = list_sum (map num_points (all_notes melody))).
  { rewrite Hb. now apply concat_blocks_length. }
  assert (Hd : length (concat (map note_dynamics (all_notes melody)))
               = list_sum (map num_points (all_notes melody))).
  { apply concat_blocks_length. apply note_dynamics_blocks. }
  split. { now rewrite Hc, Hd. }
  split. { exact Hc. }
  split. { exists blocks. now split. }
  split. { reflexivity. }
  intros note. split. { apply note_dynamics_length. }
  unfold num_points. split; [rewrite Z2Nat.id|]; lia.
Qed.

(** Phoneme timing of one note whose stripped syllable has characters. *)
Lemma phoneme_events_spec : forall phonemes d note t,
  let evs := phoneme_events phonemes d note t in
  map phoneme evs = phonemes
  /\ Forall (fun e => ph_duration e = d /\ ph_pitch e = pitch note
                      /\ ph_velocity e = velocity note) evs
  /\ py_sum (map ph_duration evs) == d * inject_Z (Z.of_nat (length phonemes))
  /\ (forall e, nth_error evs 0 = Some e -> ph_start_time e = t)
  /\ (forall i e e', nth_error evs i = Some e -> nth_error evs (S i) = Some e' ->
        ph_start_time e' = ph_start_time e + ph_duration e).
Proof.
  induction phonemes as [|c rest IH]; intros d note t evs; subst evs.
  - simpl. repeat split.
    + constructor.
    + unfold py_sum. simpl. ring.
    + intros e H. discriminate.
    + intros [|i] e e' H; discriminate.
  - destruct (IH d note (t + d)) as (Hmap & Hall & Hsum & Hfirst & Hnext).
    simpl. repeat split.
    + now rewrite Hmap.
    + constructor; [now repeat split | assumption].
    + rewrite py_sum_cons, Hsum.
      rewrite (inject_length_cons _ c rest). ring.
    + intros e H. now injection H as <-.
    + intros [|i] e e' H H'; simpl in H, H'.
      * injection H as <-. simpl. now apply Hfirst.
      * eapply Hnext; eassumption.
Qed.

(** A note whose syllable has at least one character before the first
    bracket gets one event per character, of equal durations that add up to
    the duration of the note. *)
Lemma note_phoneme_timing_ok : forall note,
  note_phonemes note <> [] ->
  exists evs,
    note_phoneme_timing note = Ok evs
    /\ map phoneme evs = note_phonemes note
    /\ py_sum (map ph_duration evs) == duration note
    /\ Forall (fun e => ph_pitch e = pitch note /\ ph_velocity e = velocity note) evs
    /\ (forall e, nth_error evs 0 = Some e -> ph_start_time e = timestamp note).
Proof.
  intros note Hne. unfold note_phoneme_timing, py_fdiv.
  pose proof (inject_length_pos _ _ Hne) as Hpos.
  destruct (Z.eqb_spec (Z.of_nat (length (note_phonemes note))) 0) as [E | _].
  { destruct (note_phonemes note); [contradiction | discriminate]. }
  cbv [bind].
  destruct (phoneme_events_spec (note_phonemes note)
              (duration note / inject_Z (Z.of_nat (length (note_phonemes note))))
              note (timestamp note))
    as (Hmap & Hall & Hsum & Hfirst & _).
  eexists. split; [reflexivity|]. repeat split.
  - exact Hmap.
  - rewrite Hsum. field. intros H0. rewrite H0 in Hpos. discriminate.
  - eapply Forall_impl; [|exact Hall]. intros e (_ & Hp & Hv). now split.
  - exact Hfirst.
Qed.

(** A note whose syllable has no character before the first bracket
    divides its duration by zero: a Python float raises, an [np.float64]
    does not and the note gets no event. *)
Lemma note_phoneme_timing_fails : forall note,
  note_phonemes note = [] ->
  note_phoneme_timing note
  = match duration_type note with
    | PyFloat => Err ZeroDivisionError
    | NpFloat64 => Ok []
    end.
Proof.
  intros note H. unfold note_phoneme_timing. rewrite H.
  now destruct (duration_type note).
Qed.

(** C2. On the lyric "[Chorus]" the melody has the two notes "[chorus][0]"
    and "[chorus][1]"; nothing precedes the first bracket of these
    syllables, so that phoneme timing divides the duration by zero.  The
    duration of the first, stressed note is an [np.float64] and its division
    only warns; that of the second, unstressed note is a Python float, and
    the vocal stage raises ZeroDivisionError instead of giving one phoneme of
    the whole duration.  The same happens on a note with the default, empty
    syllable: ZeroDivisionError when its duration is a Python float, no
    event when it is an [np.float64]. *)
Theorem C2_empty_syllable_divides_by_zero :
  (exists melody g',
     generate_melody_from_lyrics "[Chorus]" "pop" "happy" 120 example_seed
       = Ok (melody, g')
     /\ map syllable (all_notes melody) = ["[chorus][0]"; "[chorus][1]"]
     /\ map duration_type (all_notes melody) = [NpFloat64; PyFloat]
     /\ Forall (fun n => note_phonemes n = []) (all_notes melody)
     /\ _generate_phoneme_timing melody = Err ZeroDivisionError
     /\ forall exp2 voice sample g,
          generate_vocals_with_melody exp2 "[Chorus]" melody voice sample g
            = Err ZeroDivisionError)
  /\ forall p d v t,
       note_phoneme_timing (mkMelodyNote p d v "" t PyFloat) = Err ZeroDivisionError
       /\ note_phoneme_timing (mkMelodyNote p d v "" t NpFloat64) = Ok [].
Proof.
  split.
  - destruct (generate_melody_ok "[Chorus]" "pop" "happy" 120 example_seed)
      as (melody & g' & root_note & scale_name & scale_notes & g1
          & Hgen & _ & _ & _ & _ & Hlines & _); [discriminate|].
    pose proof (generate_melody_notes _ _ _ _ _ _ _ Hgen) as Hnotes.
    exists melody, g'. split; [exact Hgen|].
    assert (Hall : exists n1 n2,
               all_notes melody = [n1; n2]
               /\ syllable n1 = "[chorus][0]" /\ duration_type n1 = NpFloat64
               /\ syllable n2 = "[chorus][1]" /\ duration_type n2 = PyFloat).
    { unfold all_notes.
      replace (stripped_lines "[Chorus]") with ["[Chorus]"] in Hlines
        by (vm_compute; reflexivity).
      destruct (phrases melody) as [|p [|q ps]]; try discriminate.
      injection Hlines as Hline. inversion Hnotes as [|? ? Hp _]; subst.
      unfold notes_of_line in Hp. rewrite Hline in Hp.
      replace (syllables_of_line "[Chorus]")
        with [mkSyllable "[chorus][0]" true 0.0; mkSyllable "[chorus][1]" false 0.0]
        in Hp by (vm_compute; reflexivity).
      inversion Hp as [|s1 n1 ss ns (Hs1 & _ & _ & Ht1) Hrest]; subst.
      inversion Hrest as [|s2 n2 ss' ns' (Hs2 & _ & _ & Ht2) Hnil]; subst.
      inversion Hnil; subst.
      exists n1, n2. cbn [map concat app notes]. rewrite app_nil_r.
      match goal with H : _ = notes p |- _ => rewrite <- H end.
      now repeat split. }
    destruct Hall as (n1 & n2 & Hall & Hs1 & Ht1 & Hs2 & Ht2). rewrite Hall.
    assert (Hp1 : note_phonemes n1 = []) by (unfold note_phonemes; now rewrite Hs1).
    assert (Hp2 : note_phonemes n2 = []) by (unfold note_phonemes; now rewrite Hs2).
    assert (Htiming : _generate_phoneme_timing melody = Err ZeroDivisionError).
    { unfold _generate_phoneme_timing. rewrite Hall. cbn [notes_phoneme_timing].
      rewrite (note_phoneme_timing_fails n1 Hp1), Ht1. cbn [bind].
      now rewrite (note_phoneme_timing_fails n2 Hp2), Ht2. }
    split; [cbn [map]; now rewrite Hs1, Hs2|].
    split; [cbn [map]; now rewrite Ht1, Ht2|].
    split; [repeat constructor; assumption|].
    split; [exact Htiming|].
    intros exp2 voice sample g. unfold generate_vocals_with_melody.
    now rewrite Htiming.
  - intros p d v t. split; reflexivity.
Qed.

(** C3. On the empty lyric the melody stage answers no phrase, no note and
    a total duration of zero, and the vocal stage that follows raises
    ValueError: the contour is empty and [_synthesize_vocal_track] takes its
    minimum. *)
Theorem C3_empty_lyrics_fail_in_vocal_stage :
  forall genre mood tempo g exp2 voice sample,
  exists melody g',
    generate_melody_from_lyrics "" genre mood tempo g = Ok (melody, g')
    /\ phrases melody = []
    /\ note_count melody = 0%nat
    /\ total_duration melody = 0.0
    /\ _generate_phoneme_timing melody = Ok []
    /\ fst (_extract_pitch_contour exp2 melody g') = []
    /\ _generate_dynamics melody = []
    /\ generate_vocals_with_melody exp2 "" melody voice sample g' = Err ValueError
    /\ generate_song_stages exp2 "" genre mood tempo voice sample g = Err ValueError.
Proof.
  intros genre mood tempo g exp2 voice sample.
  unfold generate_song_stages, generate_melody_from_lyrics.
  change (_analyze_lyrics_structure "") with (Ok (mkLyricAnalysis [] 0 [] [] 0)).
  cbv [bind emotional_arc lines].
  destruct (_determine_key_and_scale [] mood g) as [[root_note scale_name] g1].
  cbv [phrase_loop melody_phrases melody_time].
  eexists. eexists. split; [reflexivity|].
  repeat split; reflexivity.
Qed.

(** ** Stress patterns of lyrics_to_melody.py *)

(** Apart from four entries of the override table, the stress pattern of a
    word has as many flags as the syllable count. *)
Lemma stress_length_matches_count : forall w,
  ~ In w short_overrides ->
  length (stress_pattern (LyricsToMelody.analyze_word w))
  = syllable_count (LyricsToMelody.analyze_word w).
Proof.
  intros w Hshort. unfold LyricsToMelody.analyze_word.
  cbn [stress_pattern syllable_count].
  destruct (dict_get LyricsToMelody.stress_patterns w) as [pattern|] eqn:E.
  - apply dict_get_entry in E. unfold LyricsToMelody.stress_patterns in E.
    simpl in E.
    repeat (destruct E as [E | E];
            [injection E as <- <-;
             first [reflexivity | exfalso; apply Hshort; simpl; tauto]|]).
    destruct E.
  - apply default_stress_length.
Qed.

(** C4. The syllable count of a word is its number of vowels floored at 1,
    and the stress pattern has as many flags as the syllable count for every
    word of the analysis except "beautiful", "believe", "freedom" and
    "sunshine": their entries in the override table have 3, 2, 2 and 2 flags
    against 5, 4, 3 and 3 vowels.  The analysis of
    enhanced_music_generator.py, which has no override table, gives every
    word as many flags as syllables. *)
Theorem C4_short_overrides_have_fewer_flags :
  map (fun w => (length (stress_pattern (LyricsToMelody.analyze_word w)),
                 syllable_count (LyricsToMelody.analyze_word w)))
      short_overrides
  = [(3, 5); (2, 4); (2, 3); (2, 3)]%nat
  /\ (forall w, In w short_overrides ->
        LyricsToMelody.analyze_syllables w = [LyricsToMelody.analyze_word w]
        /\ exists pattern, dict_get LyricsToMelody.stress_patterns w = Some pattern)
  /\ (forall text wd,
        In wd (LyricsToMelody.analyze_syllables text) ->
        syllable_count wd = Nat.max 1 (LyricsToMelody.count_vowel_matches (word wd))
        /\ (length (stress_pattern wd) = syllable_count wd
            <-> ~ In (word wd) short_overrides))
  /\ (forall line wd,
        In wd (_analyze_line_syllables line) ->
        length (stress_pattern wd) = syllable_count wd
        /\ syllable_count wd = Nat.max 1 (count_vowels (word wd))).
Proof.
  split; [reflexivity|]. split; [|split].
  - intros w Hw. simpl in Hw.
    destruct Hw as [<- | [<- | [<- | [<- | []]]]];
      (split; [vm_compute; reflexivity | eexists; reflexivity]).
  - intros text wd Hin.
    unfold LyricsToMelody.analyze_syllables in Hin. apply in_map_iff in Hin.
    destruct Hin as (w & <- & _).
    change (word (LyricsToMelody.analyze_word w)) with w.
    split; [reflexivity|]. split.
    + intros Hlen Hw. simpl in Hw.
      destruct Hw as [<- | [<- | [<- | [<- | []]]]]; vm_compute in Hlen; discriminate.
    + apply stress_length_matches_count.
  - intros line wd Hwd.
    destruct (analyze_line_syllables_spec _ _ Hwd) as (_ & Hc & Hs & _).
    rewrite Hs, default_stress_length. split; [reflexivity | exact Hc].
Qed.

End ClaimedProperties.

(** ** Instances *)

Section Instances.

#[local] Existing Instance exact_arith.

(** C1 on the lyric "Love is all we need" at 120 beats per minute. *)
Lemma C1_pitches_quantized_to_scale_witness :
  (120 <> 0)%Z
  /\ exists melody g' root_note scale_name scale_notes g1,
       generate_melody_from_lyrics "Love is all we need" "pop" "happy" 120 example_seed
         = Ok (melody, g')
       /\ _determine_key_and_scale (emotional_arc (structure melody)) "happy" example_seed
            = ((root_note, scale_name), g1)
       /\ dict_get scales scale_name = Some scale_notes
       /\ StronglySorted Z.lt scale_notes
       /\ (forall p, In p (phrases melody) ->
             (exists cur_end,
                pitch_walk scale_notes root_note (root_note + 12)%Z (notes p) cur_end)
             /\ forall n, In n (notes p) ->
                  In ((pitch n - root_note) mod 12)%Z scale_notes)
       /\ (forall cur, exists d,
             quantize_pitch scale_notes root_note cur
               = Ok (root_note + d + ((cur - root_note) / 12) * 12)%Z
             /\ In d scale_notes
             /\ ((root_note + d + ((cur - root_note) / 12) * 12 - root_note) mod 12 = d)%Z
             /\ (In ((cur - root_note) mod 12)%Z scale_notes ->
                 d = ((cur - root_note) mod 12)%Z)
             /\ (~ In ((cur - root_note) mod 12)%Z scale_notes ->
                 nearest_first scale_notes ((cur - root_note) mod 12)%Z d)).
Proof.
  split; [discriminate|].
  apply (C1_pitches_quantized_to_scale "Love is all we need" "pop" "happy" 120
           example_seed).
  discriminate.
Defined.

(** C5 on the same lyric. *)
Lemma C5_phrases_follow_lines_and_time_witness :
  (0 < 120)%Z
  /\ exists melody g',
       generate_melody_from_lyrics "Love is all we need" "pop" "happy" 120 example_seed
         = Ok (melody, g')
       /\ length (phrases melody) = length (non_blank_lines "Love is all we need")
       /\ map lyric_line (phrases melody)
          = map str_strip (non_blank_lines "Love is all we need")
       /\ total_duration melody == py_sum (map duration (all_notes melody))
       /\ forall k p, nth_error (phrases melody) k = Some p ->
            start_time p
              == py_sum (map duration (concat (map notes (firstn k (phrases melody)))))
            /\ phrase_span p == py_sum (map duration (notes p))
            /\ (forall n, nth_error (notes p) 0 = Some n -> timestamp n = start_time p)
            /\ (forall i n n',
                  nth_error (notes p) i = Some n ->
                  nth_error (notes p) (S i) = Some n' ->
                  timestamp n' = timestamp n + duration n
                  /\ timestamp n <= timestamp n').
Proof.
  split; [reflexivity|].
  apply (C5_phrases_follow_lines_and_time "Love is all we need" "pop" "happy" 120
           example_seed).
  reflexivity.
Defined.

(** C6 on the same lyric. *)
Lemma C6_velocity_and_duration_bounds_witness :
  (0 < 120)%Z
  /\ (120 <= 10 ^ 300)%Z
  /\ exists melody g',
       generate_melody_from_lyrics "Love is all we need" "pop" "happy" 120 example_seed
         = Ok (melody, g')
       /\ forall p, In p (phrases melody) ->
            let syllables := syllables_of_line (lyric_line p) in
            map syllable (notes p) = map syl_label syllables
            /\ map velocity (notes p)
               = map (fun s => Z.max 40 (Z.min 127 ((if syl_stressed s then 90 else 70)
                                                    + py_int (Qabs (syl_weight s) * 20))%Z))
                     syllables
            /\ map duration (notes p)
               = map (fun s => (if syl_stressed s then 0.75 + emotion_weight p * 0.25
                                else 0.5)
                               * (inject_Z 120 / inject_Z 120))
                     syllables
            /\ Forall (fun s => In (syl_weight s) sentiment_values) syllables
            /\ Forall (fun n => (40 <= velocity n <= 127)%Z /\ 0 < duration n) (notes p).
Proof.
  assert (H300 : (120 <= 10 ^ 300)%Z) by (apply Z.leb_le; vm_compute; reflexivity).
  split; [reflexivity|]. split; [exact H300|].
  apply (C6_velocity_and_duration_bounds "Love is all we need" "pop" "happy" 120
           example_seed); [reflexivity | exact H300].
Defined.

(** C6 beyond that range.  At a tempo of 10^400 the quotient of 120 by the
    tempo rounds to 0.0 in binary64, and the duration of a note, stressed or
    not, is 0.0 and not above it; at a tempo of 120 the same computation
    gives 0.5 for an unstressed note. *)
Lemma C6_duration_underflows_to_zero :
  (0 < Z.pos (10 ^ 400))%Z
  /\ binary64_ratio 120 (10 ^ 400) = S754_zero false
  /\ note_duration_binary64 false (binary64_ratio 9 10) (10 ^ 400) = S754_zero false
  /\ note_duration_binary64 true (binary64_ratio 9 10) (10 ^ 400) = S754_zero false
  /\ SFltb (S754_zero false)
           (note_duration_binary64 true (binary64_ratio 9 10) (10 ^ 400)) = false
  /\ note_duration_binary64 false (binary64_ratio 9 10) 120
     = S754_finite false 4503599627370496 (-53).
Proof.
  split; [reflexivity|].
  repeat split; vm_compute; reflexivity.
Qed.

End Instances.

(** * Further properties of the pipeline *)

Section FurtherProperties.

Context {F : FloatArith}.

(** ** Quantization *)

Lemma constrain_table_scale_near : forall name scale_notes scale_degree,
  dict_get scales name = Some scale_notes ->
  (0 <= scale_degree < 12)%Z ->
  exists d,
    constrain_to_scale scale_notes scale_degree = Ok d
    /\ (Z.abs (d - scale_degree) <= 2)%Z
    /\ (length scale_notes = 7%nat -> (scale_degree - 1 <= d <= scale_degree)%Z).
Proof.
  intros name scale_notes sd H Hsd. unfold scales in H. simpl in H.
  assert (Hcases : In sd [0; 1; 2; 3; 4; 5; 6; 7; 8; 9; 10; 11]%Z).
  { simpl. lia. }
  repeat match type of H with
         | (if ?b then _ else _) = _ => destruct b
         end;
    try discriminate; injection H as <-;
    simpl in Hcases;
    repeat (destruct Hcases as [<- | Hcases];
            [eexists; split; [vm_compute; reflexivity|];
             split; [lia | simpl; intros; lia]|]);
    destruct Hcases.
Qed.

(** The pitch given by the quantization differs from the cursor by at most
    two semitones, stays in the cursor's octave above the root, and in a
    scale of seven notes is the cursor or the semitone below it. *)
Theorem quantize_pitch_stays_near : forall name scale_notes root_note cur,
  dict_get scales name = Some scale_notes ->
  exists p,
    quantize_pitch scale_notes root_note cur = Ok p
    /\ (Z.abs (p - cur) <= 2)%Z
    /\ ((p - root_note) / 12 = (cur - root_note) / 12)%Z
    /\ (length scale_notes = 7%nat -> (cur - 1 <= p <= cur)%Z).
Proof.
  intros name scale_notes root_note cur H.
  assert (Hsd : (0 <= (cur - root_note) mod 12 < 12)%Z)
    by (apply Z.mod_pos_bound; lia).
  destruct (constrain_table_scale_near name scale_notes _ H Hsd) as (d & Hd & Hnear & H7).
  pose proof (scales_well_formed _ _ H) as [Hne Hrange].
  destruct (constrain_to_scale_spec scale_notes ((cur - root_note) mod 12)%Z Hne)
    as (d' & Hd' & Hin & _).
  rewrite Hd in Hd'. injection Hd' as <-.
  rewrite Forall_forall in Hrange. specialize (Hrange d Hin).
  exists (root_note + d + (cur - root_note) / 12 * 12)%Z.
  unfold quantize_pitch. rewrite Hd. cbv [bind].
  pose proof (Z.div_mod (cur - root_note) 12) as Hdm.
  split; [reflexivity|]. split; [lia|]. split.
  - replace (root_note + d + (cur - root_note) / 12 * 12 - root_note)%Z
      with (d + (cur - root_note) / 12 * 12)%Z by lia.
    rewrite Z.div_add by lia. rewrite (Z.div_small d 12) by lia. lia.
  - intros Hlen. specialize (H7 Hlen). lia.
Qed.

(** Quantizing a pitch that the quantization has given changes nothing. *)
Theorem quantize_pitch_idempotent : forall name scale_notes root_note cur p,
  dict_get scales name = Some scale_notes ->
  quantize_pitch scale_notes root_note cur = Ok p ->
  quantize_pitch scale_notes root_note p = Ok p.
Proof.
  intros name scale_notes root_note cur p H Hq.
  pose proof (scales_well_formed _ _ H) as Hs.
  destruct (quantize_pitch_spec scale_notes root_note cur Hs)
    as (d & Hq' & Hin & Hmod & _).
  rewrite Hq in Hq'. injection Hq' as ->.
  destruct (quantize_pitch_spec scale_notes root_note
              (root_note + d + (cur - root_note) / 12 * 12)%Z Hs)
    as (d2 & Hq2 & _ & _ & Hkeep & _).
  rewrite Hmod in Hkeep. specialize (Hkeep Hin). subst d2.
  rewrite Hq2. f_equal.
  destruct Hs as [_ Hrange]. rewrite Forall_forall in Hrange.
  specialize (Hrange d Hin).
  replace (root_note + d + (cur - root_note) / 12 * 12 - root_note)%Z
    with (d + (cur - root_note) / 12 * 12)%Z by lia.
  rewrite Z.div_add by lia. rewrite (Z.div_small d 12) by lia. lia.
Qed.

(** ** Key, scale and feature overrides *)

Lemma setattr_keeps_key : forall f name value,
  key (setattr f name value) = key f /\ tempo (setattr f name value) = tempo f.
Proof.
  intros f name value. unfold setattr.
  repeat match goal with
         | |- context [String.eqb name ?s] => destruct (String.eqb name s)
         end; split; reflexivity.
Qed.

Lemma audio_features_key : forall genre mood tempo_in root_note scale_name,
  key (_generate_audio_features genre mood tempo_in root_note scale_name)
    = _midi_to_note_name root_note
  /\ tempo (_generate_audio_features genre mood tempo_in root_note scale_name)
     = tempo_in.
Proof.
  intros genre mood tempo_in root_note scale_name.
  unfold _generate_audio_features, apply_genre, apply_mood.
  set (base := baseline_features tempo_in root_note).
  assert (Hbase : key base = _midi_to_note_name root_note /\ tempo base = tempo_in)
    by (split; reflexivity).
  clearbody base.
  assert (Hmood : forall f, key f = _midi_to_note_name root_note /\ tempo f = tempo_in ->
            let f' := match dict_get emotion_mappings (str_lower mood) with
                      | Some mood_config =>
                          setattr (setattr f "energy" (mood_energy mood_config)) "valence"
                            (if Qltb 0.6 (mood_energy mood_config) then 0.8 else 0.3)
                      | None => f
                      end in
            key f' = _midi_to_note_name root_note /\ tempo f' = tempo_in).
  { intros f [Hk Ht]. cbv zeta.
    destruct (dict_get emotion_mappings (str_lower mood)) as [m|].
    - destruct (setattr_keeps_key (setattr f "energy" (mood_energy m)) "valence"
                  (if Qltb 0.6 (mood_energy m) then 0.8 else 0.3)) as [-> ->].
      destruct (setattr_keeps_key f "energy" (mood_energy m)) as [-> ->]. now split.
    - now split. }
  specialize (Hmood base Hbase). cbv zeta in Hmood.
  destruct (dict_get genre_adjustments (str_lower genre)) as [adj|]; [|exact Hmood].
  revert Hmood.
  generalize (match dict_get emotion_mappings (str_lower mood) with
              | Some mood_config =>
                  setattr (setattr base "energy" (mood_energy mood_config)) "valence"
                    (if Qltb 0.6 (mood_energy mood_config) then 0.8 else 0.3)
              | None => base
              end).
  induction adj as [|[k v] adj IH]; intros f Hf; simpl.
  - exact Hf.
  - apply IH. destruct (setattr_keeps_key f k v) as [-> ->]. exact Hf.
Qed.

(** The scale is one of five of the seven tables (the blues and the minor
    pentatonic scale are never selected), the root is one of eight pitches
    between 57 and 67, so that the key label is one of eight names in the
    octaves 3 and 4, and exactly one draw is taken from the generator. *)
Theorem selected_key_and_scale_range : forall arc mood g genre tempo_in,
  let r := _determine_key_and_scale arc mood g in
  In (snd (fst r)) ["major"; "minor"; "mixolydian"; "pentatonic_major"; "dorian"]
  /\ In (fst (fst r)) [57; 59; 60; 61; 62; 64; 65; 67]%Z
  /\ In (key (_generate_audio_features genre mood tempo_in (fst (fst r)) (snd (fst r))))
        ["A3"; "B3"; "C4"; "C#4"; "D4"; "E4"; "F4"; "G4"]
  /\ snd r = advance g.
Proof.
  intros arc mood g genre tempo_in r.
  destruct (audio_features_key genre mood tempo_in (fst (fst r)) (snd (fst r)))
    as [-> _].
  subst r. unfold _determine_key_and_scale.
  set (avg := average_emotion arc).
  assert (Hscale : In match dict_get emotion_mappings (str_lower mood) with
                      | Some cfg => mood_scale cfg
                      | None => if Qltb 0.3 avg then "major"
                                else if Qltb avg (-0.3) then "minor" else "dorian"
                      end
                      ["major"; "minor"; "mixolydian"; "pentatonic_major"; "dorian"]).
  { destruct (dict_get emotion_mappings (str_lower mood)) as [cfg|] eqn:E.
    - apply dict_get_In in E. simpl in E.
      repeat (destruct E as [<- | E]; [simpl; tauto|]). destruct E.
    - destruct (Qltb 0.3 avg); [|destruct (Qltb avg (-0.3))]; simpl; tauto. }
  assert (Hroot : forall first rest,
            (forall x, In x (first :: rest) ->
                       In x [57; 59; 60; 61; 62; 64; 65; 67]%Z
                       /\ In (_midi_to_note_name x)
                             ["A3"; "B3"; "C4"; "C#4"; "D4"; "E4"; "F4"; "G4"]) ->
            In (fst (np_random_choice first rest g)) [57; 59; 60; 61; 62; 64; 65; 67]%Z
            /\ In (_midi_to_note_name (fst (np_random_choice first rest g)))
                  ["A3"; "B3"; "C4"; "C#4"; "D4"; "E4"; "F4"; "G4"]
            /\ snd (np_random_choice first rest g) = advance g).
  { intros first rest Hall.
    destruct (Hall _ (np_random_choice_In first rest g)) as [H1 H2].
    repeat split; assumption. }
  assert (Hnames : forall x, In x [57; 59; 60; 61; 62; 64; 65; 67]%Z ->
            In (_midi_to_note_name x)
               ["A3"; "B3"; "C4"; "C#4"; "D4"; "E4"; "F4"; "G4"]).
  { intros x Hx. simpl in Hx.
    repeat (destruct Hx as [<- | Hx]; [vm_compute; tauto|]). destruct Hx. }
  destruct (Qltb 0.5 avg); [|destruct (Qltb avg (-0.5))];
    match goal with
    | |- context [np_random_choice ?a ?l g] =>
        destruct (Hroot a l) as (H1 & H2 & H3);
        [intros x Hx;
         assert (Hin : In x [57; 59; 60; 61; 62; 64; 65; 67]%Z)
           by (simpl in Hx; simpl; intuition);
         split; [exact Hin | now apply Hnames]
        | destruct (np_random_choice a l g) as [root g'] ]
    end;
    cbn [fst snd] in *; repeat split; assumption.
Qed.

Lemma setattr_same_twice : forall f name v1 v2,
  setattr (setattr f name v1) name v2 = setattr f name v2.
Proof.
  intros [t k ts e va d a i] name v1 v2. unfold setattr.
  destruct (String.eqb name "energy"); [reflexivity|].
  destruct (String.eqb name "valence"); [reflexivity|].
  destruct (String.eqb name "danceability"); [reflexivity|].
  destruct (String.eqb name "acousticness"); [reflexivity|].
  destruct (String.eqb name "instrumentalness"); reflexivity.
Qed.

(** Applying the mood and genre adjustments a second time, to any profile,
    changes nothing; each of the two passes is idempotent as well. *)
Theorem feature_overrides_idempotent : forall genre mood f,
  apply_mood mood (apply_mood mood f) = apply_mood mood f
  /\ apply_genre genre (apply_genre genre f) = apply_genre genre f
  /\ apply_genre genre (apply_mood mood (apply_genre genre (apply_mood mood f)))
     = apply_genre genre (apply_mood mood f).
Proof.
  intros genre mood [t k ts e va d a i].
  unfold apply_genre, apply_mood.
  destruct (dict_get emotion_mappings (str_lower mood)) as [cfg|];
    destruct (dict_get genre_adjustments (str_lower genre)) as [adj|] eqn:Hg;
    try (apply dict_get_entry in Hg; unfold genre_adjustments in Hg; simpl in Hg;
         destruct Hg as [Hg | [Hg | [Hg | [Hg | []]]]]; injection Hg as _ <-);
    repeat split; reflexivity.
Qed.

(** ** Velocities *)

Lemma note_velocity_unclamped : forall is_stressed w,
  note_velocity is_stressed (emotion_of w)
    = ((if is_stressed then 90 else 70) + py_int (Qabs (emotion_of w) * 20))%Z
  /\ (0 <= py_int (Qabs (emotion_of w) * 20) <= 18)%Z.
Proof.
  intros b w.
  assert (Hall : forallb (fun e => (0 <=? py_int (Qabs e * 20))%Z
                                   && (py_int (Qabs e * 20) <=? 18)%Z)
                   (0.0 :: map snd emotion_weights) = true) by reflexivity.
  rewrite forallb_forall in Hall. specialize (Hall _ (emotion_of_in_table w)).
  apply andb_true_iff in Hall. destruct Hall as [H1 H2].
  apply Z.leb_le in H1, H2. split; [|lia].
  unfold note_velocity. destruct b; lia.
Qed.

(** The clamp of the velocity never acts on a generated note: the velocity
    of the note of a syllable is 90 when the syllable is stressed and 70 when
    it is not, plus a term between 0 and 18, hence between 70 and 108, and
    the stress flags of the syllables of a line are read back from the notes
    of its phrase: a note has a velocity of at least 90 exactly when its
    syllable is stressed. *)
Theorem generated_velocities_unclamped :
  forall lyrics genre mood tempo_in g,
  tempo_in <> 0%Z ->
  exists melody g',
    generate_melody_from_lyrics lyrics genre mood tempo_in g = Ok (melody, g')
    /\ forall p, In p (phrases melody) ->
         let syllables := syllables_of_line (lyric_line p) in
         map velocity (notes p)
           = map (fun s => ((if syl_stressed s then 90 else 70)
                            + py_int (Qabs (syl_weight s) * 20))%Z)
                 syllables
         /\ map (fun n => (90 <=? velocity n)%Z) (notes p)
            = map syl_stressed syllables
         /\ Forall (fun n => (70 <= velocity n <= 108)%Z) (notes p).
Proof.
  intros lyrics genre mood tempo_in g Ht.
  destruct (generate_melody_ok lyrics genre mood tempo_in g Ht)
    as (melody & g' & root_note & scale_name & scale_notes & g1 & Hgen & _).
  exists melody, g'. split; [assumption|].
  intros p Hp syllables. subst syllables.
  pose proof (generate_melody_notes _ _ _ _ _ _ _ Hgen) as Hnotes.
  rewrite Forall_forall in Hnotes. specialize (Hnotes p Hp).
  unfold notes_of_line in Hnotes.
  assert (Hvel : Forall2 (fun s n =>
                   velocity n = ((if syl_stressed s then 90 else 70)
                                 + py_int (Qabs (syl_weight s) * 20))%Z
                   /\ (0 <= py_int (Qabs (syl_weight s) * 20) <= 18)%Z)
                   (syllables_of_line (lyric_line p)) (notes p)).
  { eapply Forall2_weaken; [|exact Hnotes].
    intros s n Hs (_ & Hv & _).
    destruct (syllables_of_line_weights _ _ Hs) as (w & _ & Hw).
    rewrite Hv, Hw. apply note_velocity_unclamped. }
  split; [|split].
  - apply Forall2_map_eq. eapply Forall2_weaken; [|exact Hvel].
    intros s n _ [Hv _]. exact Hv.
  - apply Forall2_map_eq. eapply Forall2_weaken; [|exact Hvel].
    intros s n _ [Hv Hr]. cbv beta. rewrite Hv.
    destruct (syl_stressed s); [apply Z.leb_le | apply Z.leb_gt]; lia.
  - eapply Forall2_right. eapply Forall2_weaken; [|exact Hvel].
    intros s n _ [Hv Hr]. cbv beta. rewrite Hv. destruct (syl_stressed s); lia.
Qed.

(** ** Dynamics and the vocal track *)

Lemma Qltb_true : forall x y, Qltb x y = true -> x < y.
Proof.
  intros x y. unfold Qltb. rewrite negb_true_iff. intros H.
  apply Qnot_le_lt. intros Hle. apply Qle_bool_iff in Hle. congruence.
Qed.

Lemma Qltb_false : forall x y, Qltb x y = false -> y <= x.
Proof.
  intros x y. unfold Qltb. rewrite negb_false_iff. apply Qle_bool_iff.
Qed.

Lemma inject_nat_lt : forall i n,
  (i < n)%nat ->
  0 <= inject_Z (Z.of_nat i)
  /\ inject_Z (Z.of_nat i) + 1 <= inject_Z (Z.of_nat n).
Proof.
  intros i n H. split.
  - change 0 with (inject_Z 0). rewrite <- Zle_Qle. lia.
  - change 1 with (inject_Z 1). rewrite <- inject_Z_plus, <- Zle_Qle. lia.
Qed.

Lemma envelope_at_bounds : forall n i,
  (i < n)%nat -> 0 <= envelope_at n i <= 1.
Proof.
  intros n i H. destruct (inject_nat_lt i n H) as [Hi Hn].
  unfold envelope_at.
  set (np := inject_Z (Z.of_nat n)) in *. set (iq := inject_Z (Z.of_nat i)) in *.
  destruct (Qltb iq (np * 0.1)) eqn:E1.
  - apply Qltb_true in E1. split.
    + apply Qle_shift_div_l; lra.
    + apply Qle_shift_div_r; lra.
  - destruct (Qltb (np * 0.8) iq) eqn:E2.
    + apply Qltb_true in E2. split.
      * apply Qle_shift_div_l; lra.
      * apply Qle_shift_div_r; lra.
    + split; discriminate.
Qed.

Lemma envelope_at_start : forall n, (0 < n)%nat -> envelope_at n 0 == 0.
Proof.
  intros n H.
  assert (Hn : 1 <= inject_Z (Z.of_nat n)).
  { change 1 with (inject_Z 1). rewrite <- Zle_Qle. lia. }
  unfold envelope_at. change (inject_Z (Z.of_nat 0)) with 0.
  set (np := inject_Z (Z.of_nat n)) in *.
  destruct (Qltb 0 (np * 0.1)) eqn:E1.
  - unfold Qdiv. ring.
  - apply Qltb_false in E1. lra.
Qed.

Lemma num_points_pos : forall note, (0 < num_points note)%nat.
Proof.
  intros note. unfold num_points. lia.
Qed.

(** Every sample of the dynamics envelope lies between 0 and the amplitude
    velocity/127 of its note, hence in the unit interval for velocities up to
    127, and the first sample of every note is 0. *)
Theorem dynamics_within_unit_interval : forall melody,
  Forall (fun n => (0 <= velocity n <= 127)%Z) (all_notes melody) ->
  Forall (fun x => 0 <= x <= 1) (_generate_dynamics melody)
  /\ forall note, In note (all_notes melody) ->
       exists first rest, note_dynamics note = first :: rest /\ first == 0.
Proof.
  intros melody Hvel. split.
  - unfold _generate_dynamics. rewrite generate_dynamics_concat. simpl app.
    apply Forall_forall. intros x Hx. apply in_concat in Hx.
    destruct Hx as (block & Hblock & Hx). apply in_map_iff in Hblock.
    destruct Hblock as (note & <- & Hnote).
    rewrite Forall_forall in Hvel. specialize (Hvel note Hnote).
    unfold note_dynamics in Hx. apply in_map_iff in Hx.
    destruct Hx as (i & <- & Hi). unfold py_range in Hi. apply in_seq in Hi.
    assert (Hlt : (i < num_points note)%nat) by lia.
    pose proof (envelope_at_bounds _ _ Hlt) as [He0 He1].
    assert (Ha : 0 <= inject_Z (velocity note) / 127.0 <= 1).
    { split.
      - apply Qle_shift_div_l; [reflexivity|]. rewrite Qmult_0_l.
        change 0 with (inject_Z 0). rewrite <- Zle_Qle. lia.
      - apply Qle_shift_div_r; [reflexivity|].
        setoid_replace (1 * 127.0) with (inject_Z 127) by reflexivity.
        rewrite <- Zle_Qle. lia. }
    destruct Ha as [Ha0 Ha1].
    set (a := inject_Z (velocity note) / 127.0) in *.
    set (e := envelope_at (num_points note) i) in *.
    split; nra.
  - intros note _. unfold note_dynamics, py_range.
    pose proof (num_points_pos note) as Hpos.
    destruct (num_points note) as [|k] eqn:E; [lia|].
    simpl seq. simpl map. eexists. eexists. split; [reflexivity|].
    rewrite envelope_at_start by lia. ring.
Qed.

Lemma fold_minQ_spec : forall t x,
  let m := fold_left (fun m y => if Qltb y m then y else m) t x in
  In m (x :: t) /\ Forall (fun y => m <= y) (x :: t).
Proof.
  induction t as [|a t IH]; intros x; simpl.
  - split; [now left | constructor; [apply Qle_refl | constructor]].
  - destruct (Qltb a x) eqn:E.
    + apply Qltb_true in E. destruct (IH a) as [Hin Hall]. simpl in Hin. split.
      * destruct Hin as [Hin | Hin]; [right; now left | right; now right].
      * inversion Hall as [|? ? Ha Ht]; subst.
        constructor; [|constructor; assumption].
        eapply Qle_trans; [exact Ha | now apply Qlt_le_weak].
    + apply Qltb_false in E. destruct (IH x) as [Hin Hall]. simpl in Hin. split.
      * destruct Hin as [Hin | Hin]; [now left | right; now right].
      * inversion Hall as [|? ? Hx Ht]; subst.
        constructor; [assumption | constructor; [|assumption]].
        eapply Qle_trans; eassumption.
Qed.

Lemma fold_maxQ_spec : forall t x,
  let m := fold_left (fun m y => if Qltb m y then y else m) t x in
  In m (x :: t) /\ Forall (fun y => y <= m) (x :: t).
Proof.
  induction t as [|a t IH]; intros x; simpl.
  - split; [now left | constructor; [apply Qle_refl | constructor]].
  - destruct (Qltb x a) eqn:E.
    + apply Qltb_true in E. destruct (IH a) as [Hin Hall]. simpl in Hin. split.
      * destruct Hin as [Hin | Hin]; [right; now left | right; now right].
      * inversion Hall as [|? ? Ha Ht]; subst.
        constructor; [|constructor; assumption].
        apply Qle_trans with a; [apply Qlt_le_weak; exact E | exact Ha].
    + apply Qltb_false in E. destruct (IH x) as [Hin Hall]. simpl in Hin. split.
      * destruct Hin as [Hin | Hin]; [now left | right; now right].
      * inversion Hall as [|? ? Hx Ht]; subst.
        constructor; [assumption | constructor; [|assumption]].
        eapply Qle_trans; eassumption.
Qed.

Lemma synthesize_vocal_track_core :
  forall melody timing contour envelope voice sample,
  contour <> [] -> envelope <> [] ->
  exists track,
    _synthesize_vocal_track melody timing contour envelope voice sample = Ok track
    /\ phoneme_count (metadata track) = length timing
    /\ track_duration track = total_duration melody.
Proof.
  intros melody timing contour envelope voice sample Hc He.
  destruct contour as [|c cs]; [contradiction|].
  destruct envelope as [|e es]; [contradiction|].
  eexists. split; [reflexivity|]. split; reflexivity.
Qed.

(** With at least one contour sample and one dynamics sample the vocal
    track is produced; the two ranges of its metadata are the least and the
    greatest sample of each stream, and it records the number of phonemes and
    the total duration of the melody. *)
Theorem synthesize_vocal_track_ranges :
  forall melody timing contour envelope voice sample,
  contour <> [] -> envelope <> [] ->
  exists track,
    _synthesize_vocal_track melody timing contour envelope voice sample = Ok track
    /\ In (fst (meta_pitch_range (metadata track))) contour
    /\ In (snd (meta_pitch_range (metadata track))) contour
    /\ Forall (fun x => fst (meta_pitch_range (metadata track)) <= x
                        /\ x <= snd (meta_pitch_range (metadata track))) contour
    /\ In (fst (dynamic_range (metadata track))) envelope
    /\ In (snd (dynamic_range (metadata track))) envelope
    /\ Forall (fun x => fst (dynamic_range (metadata track)) <= x
                        /\ x <= snd (dynamic_range (metadata track))) envelope
    /\ phoneme_count (metadata track) = length timing
    /\ track_duration track = total_duration melody
    /\ voice_model track = voice_type voice.
Proof.
  intros melody timing contour envelope voice sample Hc He.
  destruct contour as [|c cs]; [contradiction|].
  destruct envelope as [|e es]; [contradiction|].
  destruct (fold_minQ_spec cs c) as [Hc1 Hc2].
  destruct (fold_maxQ_spec cs c) as [Hc3 Hc4].
  destruct (fold_minQ_spec es e) as [He1 He2].
  destruct (fold_maxQ_spec es e) as [He3 He4].
  eexists. split; [reflexivity|]. cbn [metadata meta_pitch_range dynamic_range
    phoneme_count track_duration voice_model fst snd].
  rewrite Forall_forall in Hc2, Hc4, He2, He4.
  repeat split; try assumption;
    try (apply Forall_forall; intros x Hx; split; auto).
Qed.

(** ** Syllable labels and note counts *)

Lemma syllable_step_label :
  forall scale_notes root_note ew tempo_in wd syl_idx b c g c' g',
  syllable_step scale_notes root_note ew tempo_in wd syl_idx b c g = Ok (c', g') ->
  map syllable (cur_notes c')
  = map syllable (cur_notes c)
    ++ [syllable_text (word wd) (length (stress_pattern wd)) syl_idx].
Proof.
  intros scale_notes root_note ew tempo_in wd syl_idx b c g c' g'.
  unfold syllable_step.
  destruct (np_random_choice (-1) [0; 1]%Z g) as [v g1].
  destruct (quantize_pitch _ _ _) as [p|e]; cbn [bind]; [|discriminate].
  destruct (note_duration _ _ _) as [d|e]; cbn [bind]; [|discriminate].
  intros H. injection H as <- _. cbn [cur_notes]. now rewrite map_app.
Qed.

Lemma syllable_loop_labels :
  forall scale_notes root_note ew tempo_in wd todo syl_idx c g c' g',
  syllable_loop scale_notes root_note ew tempo_in wd syl_idx todo c g = Ok (c', g') ->
  map syllable (cur_notes c')
  = map syllable (cur_notes c)
    ++ map (syllable_text (word wd) (length (stress_pattern wd)))
           (seq syl_idx (length todo)).
Proof.
  intros scale_notes root_note ew tempo_in wd todo.
  induction todo as [|b rest IH]; intros syl_idx c g c' g'; cbn [syllable_loop].
  - intros H. injection H as <- _. simpl. now rewrite app_nil_r.
  - destruct (syllable_step _ _ _ _ _ _ _ _ _) as [[c1 g1]|e] eqn:Hstep;
      cbn [bind]; [|discriminate].
    intros H. apply IH in H. rewrite H.
    rewrite (syllable_step_label _ _ _ _ _ _ _ _ _ _ _ Hstep).
    rewrite <- app_assoc. reflexivity.
Qed.

Lemma word_loop_labels :
  forall scale_notes root_note ew tempo_in syllable_data c g c' g',
  word_loop scale_notes root_note ew tempo_in syllable_data c g = Ok (c', g') ->
  map syllable (cur_notes c')
  = map syllable (cur_notes c) ++ concat (map word_labels syllable_data).
Proof.
  intros scale_notes root_note ew tempo_in syllable_data.
  induction syllable_data as [|wd rest IH]; intros c g c' g'; cbn [word_loop].
  - intros H. injection H as <- _. simpl. now rewrite app_nil_r.
  - destruct (syllable_loop _ _ _ _ _ _ _ _ _) as [[c1 g1]|e] eqn:Hloop;
      cbn [bind]; [|discriminate].
    intros H. apply IH in H. rewrite H.
    rewrite (syllable_loop_labels _ _ _ _ _ _ _ _ _ _ _ Hloop).
    rewrite <- app_assoc. reflexivity.
Qed.

Lemma generate_phrase_labels :
  forall line syllable_data ew root_note scale_name start tempo_in g p g',
  _generate_phrase_from_line line syllable_data ew root_note scale_name start tempo_in g
    = Ok (p, g') ->
  map syllable (notes p) = concat (map word_labels syllable_data).
Proof.
  intros line syllable_data ew root_note scale_name start tempo_in g p g'.
  unfold _generate_phrase_from_line.
  destruct (scale_lookup scale_name) as [scale_notes|e]; cbn [bind]; [|discriminate].
  destruct (word_loop _ _ _ _ _ _ _) as [[c g1]|e] eqn:Hloop; cbn [bind];
    [|discriminate].
  intros H. injection H as <- _. cbn [notes].
  apply word_loop_labels in Hloop. exact Hloop.
Qed.

Lemma phrase_loop_labels :
  forall la root_note scale_name tempo_in todo line_idx c g c' g',
  Forall (fun l => is_empty (str_strip l) = false) todo ->
  phrase_loop la root_note scale_name tempo_in line_idx todo c g = Ok (c', g') ->
  map (fun p => map syllable (notes p)) (melody_phrases c')
  = map (fun p => map syllable (notes p)) (melody_phrases c) ++ map line_labels todo.
Proof.
  intros la root_note scale_name tempo_in todo.
  induction todo as [|line rest IH]; intros line_idx c g c' g' Hblank;
    cbn [phrase_loop].
  - intros H. injection H as <- _. simpl. now rewrite app_nil_r.
  - inversion Hblank as [|? ? Hline Hrest]; subst. rewrite Hline.
    destruct (py_getitem _ _) as [ew|e]; cbn [bind]; [|discriminate].
    destruct (_generate_phrase_from_line _ _ _ _ _ _ _ _) as [[p g1]|e] eqn:Hp;
      cbn [bind]; [|discriminate].
    intros H. apply (IH _ _ _ _ _ Hrest) in H. rewrite H.
    cbn [melody_phrases]. rewrite map_app. simpl map.
    rewrite (generate_phrase_labels _ _ _ _ _ _ _ _ _ _ Hp).
    rewrite <- app_assoc. reflexivity.
Qed.

Lemma generate_melody_labels : forall lyrics genre mood tempo_in g melody g',
  generate_melody_from_lyrics lyrics genre mood tempo_in g = Ok (melody, g') ->
  map (fun p => map syllable (notes p)) (phrases melody)
  = map line_labels (stripped_lines lyrics).
Proof.
  intros lyrics genre mood tempo_in g melody g'.
  destruct (analyze_lyrics_structure_ok lyrics) as (la & Hla & Hlines & _).
  unfold generate_melody_from_lyrics. rewrite Hla. cbv [bind].
  destruct (_determine_key_and_scale (emotional_arc la) mood g)
    as [[root_note scale_name] g1].
  destruct (phrase_loop _ _ _ _ _ _ _ _) as [[c g2]|e] eqn:Hloop; [|discriminate].
  intros H. injection H as <- _. cbn [phrases].
  apply phrase_loop_labels in Hloop.
  - simpl in Hloop. now rewrite Hloop, Hlines.
  - rewrite Hlines. apply stripped_lines_not_blank.
Qed.

Lemma fold_add_sum : forall xs a, fold_left Nat.add xs a = (a + list_sum xs)%nat.
Proof.
  induction xs as [|x xs IH]; intros a; simpl.
  - lia.
  - rewrite IH. lia.
Qed.

Lemma word_labels_length : forall line wd,
  In wd (_analyze_line_syllables line) ->
  length (word_labels wd) = estimate_syllables (word wd)
  /\ (1 <= length (word_labels wd))%nat.
Proof.
  intros line wd H.
  destruct (analyze_line_syllables_spec _ _ H) as (_ & Hc & Hs & _).
  unfold word_labels. rewrite length_map, length_seq, Hs, default_stress_length, Hc.
  split; [reflexivity | unfold estimate_syllables; lia].
Qed.

Lemma line_labels_length : forall line, length (line_labels line) = line_syllables line.
Proof.
  intros line. unfold line_labels, line_syllables. rewrite fold_add_sum. simpl.
  unfold _analyze_line_syllables.
  induction (str_split (str_lower line)) as [|w ws IH]; simpl.
  - reflexivity.
  - rewrite length_app, IH. f_equal.
    unfold word_labels. cbn [word stress_pattern].
    now rewrite length_map, length_seq, default_stress_length.
Qed.

Lemma analyze_lines_counts : forall todo st st',
  analyze_lines todo st = Ok st' ->
  syllable_counts st' = syllable_counts st ++ map line_syllables todo
  /\ total_syllables st' = (total_syllables st + list_sum (map line_syllables todo))%nat
  /\ line_count st' = line_count st.
Proof.
  induction todo as [|line rest IH]; intros st st'; cbn [analyze_lines].
  - intros H. injection H as <-. simpl. rewrite app_nil_r. repeat split; lia.
  - unfold analyze_line at 1.
    destruct (np_mean _) as [m|e]; cbn [bind]; [|discriminate].
    intros H. apply IH in H. destruct H as (H1 & H2 & H3).
    cbn [syllable_counts total_syllables line_count] in *.
    rewrite H1, H2, H3, <- app_assoc. simpl. fold (line_syllables line).
    repeat split; lia.
Qed.

(** The syllable labels of the notes are those of the words, line by line
    and in order; so each phrase has as many notes as the analysis counts
    syllables in its line, and the note count of the melody is the total
    syllable count of the analysis. *)
Theorem notes_follow_the_syllables :
  forall lyrics genre mood tempo_in g,
  tempo_in <> 0%Z ->
  exists melody g',
    generate_melody_from_lyrics lyrics genre mood tempo_in g = Ok (melody, g')
    /\ map (fun p => map syllable (notes p)) (phrases melody)
       = map line_labels (stripped_lines lyrics)
    /\ map (fun p => length (notes p)) (phrases melody)
       = syllable_counts (structure melody)
    /\ note_count melody = total_syllables (structure melody)
    /\ line_count (structure melody) = length (phrases melody).
Proof.
  intros lyrics genre mood tempo_in g Ht.
  destruct (generate_melody_ok lyrics genre mood tempo_in g Ht)
    as (melody & g' & root_note & scale_name & scale_notes & g1
        & Hgen & Hla & _ & _ & _ & Hlines & _ & _ & Hcount & _).
  pose proof (generate_melody_labels _ _ _ _ _ _ _ Hgen) as Hlabels.
  unfold _analyze_lyrics_structure in Hla.
  apply analyze_lines_counts in Hla. destruct Hla as (Hc & Ht' & Hlc).
  cbn [syllable_counts total_syllables line_count] in Hc, Ht', Hlc.
  simpl app in Hc. simpl Nat.add in Ht'.
  assert (Hlen : map (fun p => length (notes p)) (phrases melody)
                 = map line_syllables (stripped_lines lyrics)).
  { transitivity (map (@length string)
                    (map (fun p => map syllable (notes p)) (phrases melody))).
    - rewrite map_map. apply map_ext. intros p. now rewrite length_map.
    - rewrite Hlabels, map_map. apply map_ext. apply line_labels_length. }
  exists melody, g'. split; [assumption|]. split; [assumption|].
  split; [now rewrite Hc|]. split.
  - rewrite Hcount, Ht'. unfold count_notes. rewrite fold_add_sum, Hlen. reflexivity.
  - rewrite Hlc. rewrite <- (length_map lyric_line), Hlines. reflexivity.
Qed.

(** ** Phonemes and the outcome of the vocal stage *)

Lemma append_cons_assoc : forall a c t,
  ((a ++ String c EmptyString) ++ t)%string = (a ++ String c t)%string.
Proof.
  induction a as [|x a IH]; intros c t; simpl.
  - reflexivity.
  - now rewrite IH.
Qed.

Lemma append_empty_r : forall a, (a ++ EmptyString)%string = a.
Proof.
  induction a as [|x a IH]; simpl; [reflexivity | now rewrite IH].
Qed.

Lemma split_on_acc_head : forall sep s acc,
  exists rest, split_on_acc sep s acc = (acc ++ text_before sep s)%string :: rest.
Proof.
  intros sep s; induction s as [|c s IH]; intros acc; simpl.
  - exists []. now rewrite append_empty_r.
  - destruct (Ascii.eqb c sep).
    + eexists. now rewrite append_empty_r.
    + destruct (IH (acc ++ String c EmptyString)%string) as [rest Hrest].
      exists rest. now rewrite Hrest, append_cons_assoc.
Qed.

Lemma str_head_before_spec : forall sep s, str_head_before sep s = text_before sep s.
Proof.
  intros sep s. unfold str_head_before, str_split_on.
  destruct (split_on_acc_head sep s EmptyString) as [rest ->]. reflexivity.
Qed.

Lemma text_before_suffix : forall sep w rest,
  text_before sep (w ++ String sep rest)%string = text_before sep w.
Proof.
  intros sep w rest; induction w as [|c w IH]; simpl.
  - now rewrite Ascii.eqb_refl.
  - destruct (Ascii.eqb c sep); [reflexivity | now rewrite IH].
Qed.

(** Stripping the index suffix of a label gives the part of the word before
    its first bracket: the whole word when it has none. *)
Lemma label_head : forall w n i,
  str_head_before left_bracket (syllable_text w n i) = text_before left_bracket w.
Proof.
  intros w n i. rewrite str_head_before_spec. unfold syllable_text.
  destruct (1 <? n)%nat; [|reflexivity].
  change (w ++ "[" ++ str_of_nat i ++ "]")%string
    with (w ++ String left_bracket (str_of_nat i ++ "]"))%string.
  apply text_before_suffix.
Qed.

Lemma text_before_empty : forall sep w,
  w <> EmptyString ->
  (text_before sep w = EmptyString
   <-> match w with
       | EmptyString => false
       | String c _ => Ascii.eqb c sep
       end = true).
Proof.
  intros sep [|c w] H; [contradiction|]. simpl.
  destruct (Ascii.eqb c sep); split; intros E; try reflexivity; discriminate.
Qed.

Lemma str_lower_empty : forall s,
  list_ascii_of_string (str_lower s) = [] <-> s = EmptyString.
Proof.
  intros [|c s]; simpl; split; intros H; try reflexivity; discriminate.
Qed.

Lemma runs_acc_not_empty : forall is_sep s acc,
  Forall (fun w => w <> EmptyString) (runs_acc is_sep s acc).
Proof.
  intros is_sep s; induction s as [|c s IH]; intros acc; simpl.
  - destruct acc; simpl; constructor; [discriminate | constructor].
  - destruct (is_sep c).
    + destruct acc; simpl; [apply IH|]. constructor; [discriminate | apply IH].
    + apply IH.
Qed.

Lemma note_phoneme_timing_error : forall note e,
  note_phoneme_timing note = Err e -> e = ZeroDivisionError.
Proof.
  intros note e. unfold note_phoneme_timing, py_fdiv.
  destruct (Z.of_nat (length (note_phonemes note)) =? 0)%Z;
    [destruct (duration_type note)|]; cbn [bind]; intros H;
    now try injection H as <-.
Qed.

(** The outcome of phoneme timing on a list of notes: events for every note
    when each has a phoneme; ZeroDivisionError when a note without phoneme
    has a Python float for its duration; events for the notes that have
    phonemes when the others have [np.float64] durations. *)
Lemma notes_phoneme_timing_outcome : forall ns acc,
  (Forall (fun n => note_phonemes n <> []) ns ->
   exists evs, notes_phoneme_timing ns acc = Ok (acc ++ evs)
     /\ length evs = list_sum (map (fun n => length (note_phonemes n)) ns)
     /\ py_sum (map ph_duration evs) == py_sum (map duration ns))
  /\ (Exists (fun n => note_phonemes n = [] /\ duration_type n = PyFloat) ns ->
      notes_phoneme_timing ns acc = Err ZeroDivisionError)
  /\ (Forall (fun n => note_phonemes n = [] -> duration_type n = NpFloat64) ns ->
      exists evs, notes_phoneme_timing ns acc = Ok (acc ++ evs)
        /\ length evs = list_sum (map (fun n => length (note_phonemes n)) ns)).
Proof.
  induction ns as [|n ns IH]; intros acc.
  - split; [|split].
    + intros _. exists []. simpl. rewrite app_nil_r.
      split; [reflexivity|]. split; reflexivity.
    + intros H. inversion H.
    + intros _. exists []. simpl. rewrite app_nil_r. split; reflexivity.
  - split; [|split].
    + intros H. inversion H as [|? ? Hn Hns]; subst.
      destruct (note_phoneme_timing_ok n Hn) as (evs & He & Hmap & Hsum & _).
      cbn [notes_phoneme_timing]. rewrite He. cbn [bind].
      destruct (IH (acc ++ evs)) as [IHok _].
      destruct (IHok Hns) as (evs' & He' & Hlen & Hsum').
      exists (evs ++ evs'). rewrite He', app_assoc. split; [reflexivity|]. split.
      * rewrite length_app, Hlen. simpl. f_equal.
        rewrite <- Hmap. now rewrite length_map.
      * rewrite map_app, py_sum_app, Hsum, Hsum'. simpl map.
        now rewrite py_sum_cons.
    + intros H. cbn [notes_phoneme_timing].
      inversion H as [? ? (Hn & Hty) | ? ? Hns]; subst.
      * now rewrite (note_phoneme_timing_fails n Hn), Hty.
      * destruct (note_phoneme_timing n) as [evs|e] eqn:He; cbn [bind].
        -- apply IH. assumption.
        -- now rewrite (note_phoneme_timing_error n e He).
    + intros H. inversion H as [|? ? Hn Hns]; subst. cbn [notes_phoneme_timing].
      destruct (list_eq_dec ascii_dec (note_phonemes n) []) as [E | E].
      * rewrite (note_phoneme_timing_fails n E), (Hn E). cbn [bind].
        rewrite app_nil_r.
        destruct (IH acc) as (_ & _ & IH3). destruct (IH3 Hns) as (evs & He & Hlen).
        exists evs. split; [exact He|]. cbn [map list_sum]. now rewrite E.
      * destruct (note_phoneme_timing_ok n E) as (evs & He & Hmap & _).
        rewrite He. cbn [bind].
        destruct (IH (acc ++ evs)) as (_ & _ & IH3).
        destruct (IH3 Hns) as (evs' & He' & Hlen).
        exists (evs ++ evs'). rewrite He', app_assoc. split; [reflexivity|].
        rewrite length_app, Hlen. cbn [map list_sum]. f_equal.
        rewrite <- Hmap. now rewrite length_map.
Qed.

Lemma str_split_not_empty : forall s w, In w (str_split s) -> w <> EmptyString.
Proof.
  intros s w H. unfold str_split in H.
  pose proof (runs_acc_not_empty isspace s EmptyString) as Hall.
  rewrite Forall_forall in Hall. now apply Hall.
Qed.

Lemma line_labels_spec : forall line s,
  In s (line_labels line)
  <-> exists w i,
        In w (str_split (str_lower line))
        /\ (i < estimate_syllables w)%nat
        /\ s = syllable_text w (estimate_syllables w) i.
Proof.
  intros line s. unfold line_labels, _analyze_line_syllables.
  rewrite in_concat. split.
  - intros (block & Hblock & Hs). rewrite map_map in Hblock.
    apply in_map_iff in Hblock. destruct Hblock as (w & <- & Hw).
    unfold word_labels in Hs. cbn [word stress_pattern] in Hs.
    rewrite default_stress_length in Hs. apply in_map_iff in Hs.
    destruct Hs as (i & <- & Hi). apply in_seq in Hi.
    exists w, i. repeat split; [assumption | lia].
  - intros (w & i & Hw & Hi & ->).
    eexists. split.
    + rewrite map_map. apply in_map_iff. exists w. split; [reflexivity | exact Hw].
    + unfold word_labels. cbn [word stress_pattern].
      rewrite default_stress_length. apply in_map. apply in_seq. lia.
Qed.

Lemma all_notes_labels : forall lyrics genre mood tempo_in g melody g',
  generate_melody_from_lyrics lyrics genre mood tempo_in g = Ok (melody, g') ->
  map syllable (all_notes melody)
  = concat (map line_labels (stripped_lines lyrics)).
Proof.
  intros lyrics genre mood tempo_in g melody g' H.
  apply generate_melody_labels in H. rewrite <- H. unfold all_notes.
  rewrite concat_map, map_map. reflexivity.
Qed.

Lemma note_phonemes_of_label : forall n,
  note_phonemes n
  = list_ascii_of_string (str_lower (str_head_before left_bracket (syllable n))).
Proof.
  reflexivity.
Qed.

Lemma label_empty_iff : forall w n i,
  w <> EmptyString ->
  (list_ascii_of_string
     (str_lower (str_head_before left_bracket (syllable_text w n i))) = []
   <-> starts_with_bracket w = true).
Proof.
  intros w n i Hw. rewrite str_lower_empty, label_head.
  apply text_before_empty. assumption.
Qed.

(** Which notes of a generated melody have no phoneme, in terms of the
    words of the lyrics. *)
Lemma melody_phonemes_by_words : forall lyrics genre mood tempo_in g melody g',
  generate_melody_from_lyrics lyrics genre mood tempo_in g = Ok (melody, g') ->
  (existsb starts_with_bracket (lyric_words lyrics) = true ->
   Exists (fun n => note_phonemes n = []) (all_notes melody))
  /\ (existsb starts_with_bracket (lyric_words lyrics) = false ->
      Forall (fun n => note_phonemes n <> []) (all_notes melody))
  /\ (lyric_words lyrics = [] <-> all_notes melody = []).
Proof.
  intros lyrics genre mood tempo_in g melody g' H.
  pose proof (all_notes_labels _ _ _ _ _ _ _ H) as Hlab.
  assert (Hword : forall w, In w (lyric_words lyrics) ->
            w <> EmptyString
            /\ In (syllable_text w (estimate_syllables w) 0)
                  (map syllable (all_notes melody))).
  { intros w Hw. unfold lyric_words in Hw. apply in_concat in Hw.
    destruct Hw as (ws & Hws & Hw). apply in_map_iff in Hws.
    destruct Hws as (line & <- & Hline). split.
    - eapply str_split_not_empty; eassumption.
    - rewrite Hlab. apply in_concat. exists (line_labels line). split.
      + now apply in_map.
      + apply line_labels_spec. exists w, O. repeat split; [assumption|].
        unfold estimate_syllables. lia. }
  assert (Hnote : forall n, In n (all_notes melody) ->
            exists w i, In w (lyric_words lyrics) /\ w <> EmptyString
                        /\ syllable n = syllable_text w (estimate_syllables w) i).
  { intros n Hn. apply (in_map syllable) in Hn. rewrite Hlab in Hn.
    apply in_concat in Hn. destruct Hn as (block & Hblock & Hs).
    apply in_map_iff in Hblock. destruct Hblock as (line & <- & Hline).
    apply line_labels_spec in Hs. destruct Hs as (w & i & Hw & _ & Hs).
    exists w, i. repeat split; [|eapply str_split_not_empty; eassumption | exact Hs].
    unfold lyric_words. apply in_concat.
    exists (str_split (str_lower line)). split; [|assumption].
    apply in_map_iff. now exists line. }
  split; [|split].
  - intros Hex. apply existsb_exists in Hex. destruct Hex as (w & Hw & Hb).
    destruct (Hword w Hw) as [Hne Hin]. apply in_map_iff in Hin.
    destruct Hin as (n & Hs & Hn). apply Exists_exists. exists n.
    split; [assumption|]. rewrite note_phonemes_of_label, Hs.
    now apply label_empty_iff.
  - intros Hex. apply Forall_forall. intros n Hn.
    destruct (Hnote n Hn) as (w & i & Hw & Hne & Hs).
    rewrite note_phonemes_of_label, Hs, label_empty_iff by assumption.
    intros Hb. assert (Htrue : existsb starts_with_bracket (lyric_words lyrics) = true).
    { apply existsb_exists. now exists w. }
    congruence.
  - split.
    + intros Hw. destruct (all_notes melody) as [|n ns] eqn:E; [reflexivity|].
      destruct (Hnote n (or_introl eq_refl)) as (w & _ & Hin & _).
      rewrite Hw in Hin. destruct Hin.
    + intros Hn. destruct (lyric_words lyrics) as [|w ws] eqn:E; [reflexivity|].
      destruct (Hword w (or_introl eq_refl)) as [_ Hin].
      rewrite Hn in Hin. destruct Hin.
Qed.

Lemma lyric_words_not_empty : forall lyrics w,
  In w (lyric_words lyrics) -> w <> EmptyString.
Proof.
  intros lyrics w Hw. unfold lyric_words in Hw. apply in_concat in Hw.
  destruct Hw as (ws & Hws & Hw). apply in_map_iff in Hws.
  destruct Hws as (line & <- & _). eapply str_split_not_empty; eassumption.
Qed.

(** A stress pattern has an unstressed syllable exactly from two syllables
    on. *)
Lemma default_stress_unstressed : forall count,
  existsb negb (default_stress count) = (1 <? count)%nat.
Proof.
  intros [|[|[|count]]]; reflexivity.
Qed.

Lemma no_bracket_no_unstressed_bracket : forall ws,
  existsb starts_with_bracket ws = false ->
  existsb unstressed_bracket_word ws = false.
Proof.
  induction ws as [|w ws IH]; cbn [existsb]; [reflexivity|].
  intros H. apply orb_false_iff in H. destruct H as [Hw Hws].
  unfold unstressed_bracket_word at 1. rewrite Hw. cbn [andb orb]. now apply IH.
Qed.

(** Which notes of a generated melody stop phoneme timing, in terms of the
    words of the lyrics: the unstressed notes of the words that begin with a
    bracket. *)
Lemma melody_silent_notes_by_words : forall lyrics genre mood tempo_in g melody g',
  generate_melody_from_lyrics lyrics genre mood tempo_in g = Ok (melody, g') ->
  (existsb unstressed_bracket_word (lyric_words lyrics) = true ->
   Exists (fun n => note_phonemes n = [] /\ duration_type n = PyFloat)
          (all_notes melody))
  /\ (existsb unstressed_bracket_word (lyric_words lyrics) = false ->
      Forall (fun n => note_phonemes n = [] -> duration_type n = NpFloat64)
             (all_notes melody)).
Proof.
  intros lyrics genre mood tempo_in g melody g' H.
  pose proof (all_notes_syllables _ _ _ _ _ _ _ H) as Hall.
  split.
  - intros Hex. apply existsb_exists in Hex. destruct Hex as (w & Hw & Hb).
    unfold unstressed_bracket_word in Hb. apply andb_true_iff in Hb.
    destruct Hb as [Hbr Hun].
    apply existsb_exists in Hun. destruct Hun as (b & Hb & Hneg).
    destruct b; [discriminate|].
    apply In_nth_error in Hb. destruct Hb as (i & Hi).
    assert (Hs : In (mkSyllable (syllable_text w (estimate_syllables w) i) false
                                (emotion_of w))
                    (lyric_syllables lyrics)).
    { apply lyric_syllables_spec. exists w, i, false. now repeat split. }
    destruct (Forall2_In_l _ _ _ _ _ _ Hall Hs) as (n & Hn & Hlab & Hty & _).
    cbn [syl_label syl_stressed] in Hlab, Hty.
    apply Exists_exists. exists n. split; [assumption|]. split; [|exact Hty].
    rewrite note_phonemes_of_label, Hlab.
    apply label_empty_iff; [|assumption].
    eapply lyric_words_not_empty; eassumption.
  - intros Hex. apply Forall_forall. intros n Hn Hph.
    destruct (Forall2_In_r _ _ _ _ _ _ Hall Hn) as (s & Hs & Hlab & Hty & _).
    apply lyric_syllables_spec in Hs. destruct Hs as (w & i & b & Hw & Hi & ->).
    cbn [syl_label syl_stressed] in Hlab, Hty.
    rewrite note_phonemes_of_label, Hlab, label_empty_iff in Hph
      by (eapply lyric_words_not_empty; eassumption).
    destruct b; [exact Hty|]. exfalso.
    assert (Htrue : existsb unstressed_bracket_word (lyric_words lyrics) = true).
    { apply existsb_exists. exists w. split; [assumption|].
      unfold unstressed_bracket_word. rewrite Hph. cbn [andb].
      apply existsb_exists. exists false. split; [|reflexivity].
      eapply nth_error_In; eassumption. }
    congruence.
Qed.

Lemma list_sum_pos : forall (A : Type) (size : A -> nat) (xs : list A),
  xs <> [] -> (forall x, (0 < size x)%nat) -> (0 < list_sum (map size xs))%nat.
Proof.
  intros A size [|x xs] Hne Hpos; [contradiction|].
  simpl. specialize (Hpos x). lia.
Qed.

Lemma contour_and_dynamics_not_empty : forall exp2 melody g,
  all_notes melody <> [] ->
  fst (_extract_pitch_contour exp2 melody g) <> []
  /\ _generate_dynamics melody <> [].
Proof.
  intros exp2 melody g Hne.
  pose proof (list_sum_pos _ num_points _ Hne num_points_pos) as Hpos.
  unfold _extract_pitch_contour, _generate_dynamics. split.
  - destruct (notes_pitch_contour_blocks exp2 (all_notes melody) [] g)
      as (blocks & Hb & Hall).
    simpl in Hb. intros E.
    pose proof (concat_blocks_length _ _ _ _ _ Hall) as Hlen.
    rewrite <- Hb, E in Hlen. simpl in Hlen. lia.
  - rewrite generate_dynamics_concat. simpl app. intros E.
    pose proof (concat_blocks_length _ _ _ _ _ (note_dynamics_blocks (all_notes melody)))
      as Hlen.
    rewrite E in Hlen. simpl in Hlen. lia.
Qed.

Lemma lyric_words_empty : forall lyrics,
  lyric_words lyrics = [] -> stripped_lines lyrics = [].
Proof.
  intros lyrics H. unfold lyric_words in H.
  pose proof (stripped_lines_have_words lyrics) as Hw.
  destruct (stripped_lines lyrics) as [|line rest]; [reflexivity|].
  inversion Hw as [|? ? Hline _]; subst. simpl in H.
  apply app_eq_nil in H. destruct H as [H _]. contradiction.
Qed.

(** Lyrics in which a word begins with an opening bracket and has two
    vowels or more, such as a section mark "[Chorus]", stop the vocal stage
    with a division by zero, whatever the other inputs: the word has an
    unstressed syllable, whose note has no phoneme and a Python float for
    its duration. *)
Theorem bracketed_word_fails_vocal_stage :
  forall exp2 lyrics genre mood tempo_in voice sample g,
  tempo_in <> 0%Z ->
  existsb unstressed_bracket_word (lyric_words lyrics) = true ->
  generate_song_stages exp2 lyrics genre mood tempo_in voice sample g
    = Err ZeroDivisionError
  /\ forall w, unstressed_bracket_word w
               = starts_with_bracket w && (1 <? count_vowels w)%nat.
Proof.
  intros exp2 lyrics genre mood tempo_in voice sample g Ht Hb. split.
  - destruct (generate_melody_ok lyrics genre mood tempo_in g Ht)
      as (melody & g' & _ & _ & _ & _ & Hgen & _).
    destruct (melody_silent_notes_by_words _ _ _ _ _ _ _ Hgen) as (Hex & _).
    unfold generate_song_stages. rewrite Hgen. cbn [bind].
    unfold generate_vocals_with_melody, _generate_phoneme_timing.
    destruct (notes_phoneme_timing_outcome (all_notes melody) []) as (_ & Herr & _).
    rewrite (Herr (Hex Hb)). reflexivity.
  - intros w. unfold unstressed_bracket_word.
    rewrite default_stress_unstressed. unfold estimate_syllables.
    destruct (count_vowels w) as [|[|k]]; reflexivity.
Qed.

(** Lyrics without any word (empty, or blank lines only) give a melody
    without phrases, and the vocal stage then raises ValueError, for every
    tempo. *)
Theorem blank_lyrics_fail_vocal_stage :
  forall exp2 lyrics genre mood tempo_in voice sample g,
  lyric_words lyrics = [] ->
  (exists melody g',
     generate_melody_from_lyrics lyrics genre mood tempo_in g = Ok (melody, g')
     /\ phrases melody = [] /\ note_count melody = 0%nat)
  /\ generate_song_stages exp2 lyrics genre mood tempo_in voice sample g
     = Err ValueError.
Proof.
  intros exp2 lyrics genre mood tempo_in voice sample g Hw.
  apply lyric_words_empty in Hw.
  unfold generate_song_stages, generate_melody_from_lyrics, _analyze_lyrics_structure.
  rewrite Hw. cbn [analyze_lines bind emotional_arc lines].
  destruct (_determine_key_and_scale [] mood g) as [[root_note scale_name] g1].
  cbn [phrase_loop melody_phrases melody_time bind].
  split; [|reflexivity].
  eexists. eexists. split; [reflexivity|]. split; reflexivity.
Qed.

(** Lyrics with at least one word and no word that begins with a bracket go
    through both stages: the melody and the vocals are produced, every note
    has at least one phoneme, the durations of the phonemes add up to the
    total duration of the melody, and the track records their number. *)
Theorem plain_lyrics_produce_melody_and_vocals :
  forall exp2 lyrics genre mood tempo_in voice sample g,
  tempo_in <> 0%Z ->
  lyric_words lyrics <> [] ->
  existsb starts_with_bracket (lyric_words lyrics) = false ->
  exists melody vocals g',
    generate_song_stages exp2 lyrics genre mood tempo_in voice sample g
      = Ok ((melody, vocals), g')
    /\ Forall (fun n => note_phonemes n <> []) (all_notes melody)
    /\ length (phoneme_timing vocals)
       = list_sum (map (fun n => length (note_phonemes n)) (all_notes melody))
    /\ py_sum (map ph_duration (phoneme_timing vocals)) == total_duration melody
    /\ phoneme_count (metadata (vocal_track vocals)) = length (phoneme_timing vocals)
    /\ track_duration (vocal_track vocals) = total_duration melody.
Proof.
  intros exp2 lyrics genre mood tempo_in voice sample g Ht Hne Hb.
  destruct (generate_melody_ok lyrics genre mood tempo_in g Ht)
    as (melody & g1 & _ & _ & _ & _ & Hgen & _ & _ & _ & _ & _ & _ & Htotal & _).
  destruct (melody_phonemes_by_words _ _ _ _ _ _ _ Hgen) as (_ & Hall & Hnotes).
  specialize (Hall Hb).
  assert (Hnn : all_notes melody <> []).
  { intros E. apply Hnotes in E. contradiction. }
  destruct (notes_phoneme_timing_outcome (all_notes melody) []) as [Hok _].
  destruct (Hok Hall) as (evs & Hevs & Hlen & Hsum). simpl app in Hevs.
  destruct (contour_and_dynamics_not_empty exp2 melody g1 Hnn) as [Hc Hd].
  unfold generate_song_stages. rewrite Hgen. cbn [bind].
  unfold generate_vocals_with_melody, _generate_phoneme_timing.
  rewrite Hevs. cbn [bind].
  destruct (_extract_pitch_contour exp2 melody g1) as [contour g2].
  cbn [fst] in Hc.
  destruct (synthesize_vocal_track_core melody evs contour (_generate_dynamics melody)
              match voice with
              | Some v => v
              | None => default_voice_settings
              end sample Hc Hd) as (track & Htrack & Hpc & Htd).
  cbv zeta.
  rewrite Htrack. cbn [bind].
  eexists. eexists. eexists. split; [reflexivity|].
  cbn [phoneme_timing vocal_track].
  split; [assumption|]. split; [assumption|]. split.
  - rewrite Hsum, Htotal, phrases_end_sum. unfold all_notes. ring.
  - split; assumption.
Qed.

(** ** A tempo of zero *)

Lemma syllable_step_zero_tempo : forall scale_notes root_note ew wd syl_idx b c g,
  well_formed_scale scale_notes ->
  syllable_step scale_notes root_note ew 0 wd syl_idx b c g = Err ZeroDivisionError.
Proof.
  intros scale_notes root_note ew wd syl_idx b c g Hs. unfold syllable_step.
  destruct (np_random_choice (-1) [0; 1]%Z g) as [v g1].
  destruct (quantize_pitch_spec scale_notes root_note
              (current_pitch c + (pitch_step b (word_emotion wd) + v))%Z Hs)
    as (d & Hq & _).
  rewrite Hq. reflexivity.
Qed.

Lemma word_loop_zero_tempo : forall scale_notes root_note ew syllable_data c g,
  well_formed_scale scale_notes ->
  syllable_data <> [] ->
  Forall (fun wd => stress_pattern wd <> []) syllable_data ->
  word_loop scale_notes root_note ew 0 syllable_data c g = Err ZeroDivisionError.
Proof.
  intros scale_notes root_note ew [|wd rest] c g Hs Hne Hall; [contradiction|].
  inversion Hall as [|? ? Hwd _]; subst. cbn [word_loop].
  destruct (stress_pattern wd) as [|b bs]; [contradiction|].
  cbn [syllable_loop]. now rewrite syllable_step_zero_tempo.
Qed.

Lemma analyze_line_syllables_patterns : forall line,
  Forall (fun wd => stress_pattern wd <> []) (_analyze_line_syllables line).
Proof.
  intros line. apply Forall_forall. intros wd Hwd.
  destruct (analyze_line_syllables_spec _ _ Hwd) as (_ & Hc & Hs & _).
  intros E. apply (f_equal (@length bool)) in E.
  rewrite Hs, default_stress_length, Hc in E. unfold estimate_syllables in E.
  change (length (@nil bool)) with O in E. lia.
Qed.

Lemma melody_zero_tempo : forall lyrics genre mood g,
  lyric_words lyrics <> [] ->
  generate_melody_from_lyrics lyrics genre mood 0 g = Err ZeroDivisionError.
Proof.
  intros lyrics genre mood g Hw.
  destruct (analyze_lyrics_structure_ok lyrics) as (la & Hla & Hlines & Hlen & _).
  unfold generate_melody_from_lyrics. rewrite Hla. cbv [bind].
  destruct (scale_name_in_table (emotional_arc la) mood g) as (scale_notes & Hscale).
  destruct (_determine_key_and_scale (emotional_arc la) mood g)
    as [[root_note scale_name] g1].
  cbn [fst snd] in Hscale. rewrite Hlines.
  pose proof (stripped_lines_not_blank lyrics) as Hblank.
  pose proof (stripped_lines_have_words lyrics) as Hwords.
  rewrite Hlines in Hlen.
  destruct (stripped_lines lyrics) as [|line rest] eqn:E.
  { exfalso. apply Hw. unfold lyric_words. now rewrite E. }
  inversion Hblank as [|? ? Hline _]; subst.
  inversion Hwords as [|? ? Hlw _]; subst.
  cbn [phrase_loop]. rewrite Hline. unfold py_getitem.
  destruct (nth_error (emotional_arc la) 0) as [ew|] eqn:Hew.
  2:{ apply nth_error_None in Hew. simpl in Hlen. lia. }
  cbn [bind]. unfold _generate_phrase_from_line, scale_lookup.
  rewrite Hscale. cbn [bind].
  rewrite word_loop_zero_tempo.
  - reflexivity.
  - eapply scales_well_formed; eassumption.
  - unfold _analyze_line_syllables.
    destruct (str_split (str_lower line)); [contradiction | discriminate].
  - apply analyze_line_syllables_patterns.
Qed.

(** ** The orchestrator *)

Lemma config_for_range : forall (V : Type) (song_data : EnhancedMusicGenerator.SongData V),
  (100 <= fst (EnhancedMusicGenerator.tempo_range (EnhancedMusicGenerator.config_for song_data))
   < snd (EnhancedMusicGenerator.tempo_range (EnhancedMusicGenerator.config_for song_data)))%Z
  /\ (snd (EnhancedMusicGenerator.tempo_range (EnhancedMusicGenerator.config_for song_data)) <= 160)%Z
  /\ (dict_get EnhancedMusicGenerator.genre_configs
        (str_lower match EnhancedMusicGenerator.data_genre song_data with
                   | Some g => g
                   | None => "pop"
                   end) = None ->
      EnhancedMusicGenerator.config_for song_data = EnhancedMusicGenerator.pop_config).
Proof.
  intros V song_data. unfold EnhancedMusicGenerator.config_for.
  destruct (dict_get EnhancedMusicGenerator.genre_configs _) as [config|] eqn:E.
  - apply dict_get_In in E. simpl in E.
    destruct E as [<- | [<- | [<- | []]]]; simpl; repeat split; try lia; discriminate.
  - simpl. repeat split; lia.
Qed.

Lemma np_random_randint_range : forall low high g,
  (low < high)%Z ->
  exists t,
    np_random_randint low high g = Ok (t, advance g) /\ (low <= t < high)%Z.
Proof.
  intros low high g H. unfold np_random_randint.
  destruct (Z.ltb_spec low high) as [_ | Hge]; [|lia].
  eexists. split; [reflexivity|].
  pose proof (Z.mod_pos_bound (Z.of_nat (uniform_draws g (position g))) (high - low)).
  lia.
Qed.

(** What [_enhance_song_data] returns, entry by entry. *)
Lemma enhance_song_data_ok : forall (V : Type) (song_data : EnhancedMusicGenerator.SongData V) g,
  exists enhanced g',
    EnhancedMusicGenerator._enhance_song_data song_data g = Ok (enhanced, g')
    /\ EnhancedMusicGenerator.data_title enhanced = EnhancedMusicGenerator.data_title song_data
    /\ EnhancedMusicGenerator.data_lyrics enhanced = EnhancedMusicGenerator.data_lyrics song_data
    /\ EnhancedMusicGenerator.data_genre enhanced = EnhancedMusicGenerator.data_genre song_data
    /\ EnhancedMusicGenerator.data_mood enhanced = EnhancedMusicGenerator.data_mood song_data
    /\ EnhancedMusicGenerator.data_metadata enhanced = EnhancedMusicGenerator.data_metadata song_data
    /\ EnhancedMusicGenerator.data_user_voice_sample enhanced = EnhancedMusicGenerator.data_user_voice_sample song_data
    /\ match EnhancedMusicGenerator.data_tempo song_data with
       | Some t => EnhancedMusicGenerator.data_tempo enhanced = Some t /\ g' = g
       | None =>
           exists t,
             EnhancedMusicGenerator.data_tempo enhanced = Some t /\ g' = advance g
             /\ (fst (EnhancedMusicGenerator.tempo_range (EnhancedMusicGenerator.config_for song_data)) <= t
                 < snd (EnhancedMusicGenerator.tempo_range (EnhancedMusicGenerator.config_for song_data)))%Z
             /\ (100 <= t < 160)%Z
       end
    /\ EnhancedMusicGenerator.data_structure enhanced
       = Some match EnhancedMusicGenerator.data_structure song_data with
              | Some s => s
              | None => EnhancedMusicGenerator.config_structure (EnhancedMusicGenerator.config_for song_data)
              end
    /\ match EnhancedMusicGenerator.data_vocal_settings song_data with
       | Some v => EnhancedMusicGenerator.data_vocal_settings enhanced = Some v
       | None =>
           exists v,
             EnhancedMusicGenerator.data_vocal_settings enhanced = Some v
             /\ voice_type v = match EnhancedMusicGenerator.data_vocals song_data with
                               | Some name => name
                               | None => "male_lead"
                               end
             /\ articulation_style v = EnhancedMusicGenerator.vocal_style (EnhancedMusicGenerator.config_for song_data)
             /\ pitch_range v = (60, 84)%Z
       end
    /\ EnhancedMusicGenerator._enhance_song_data enhanced g' = Ok (enhanced, g').
Proof.
  intros V song_data g.
  destruct (config_for_range V song_data) as (Hlo & Hhi & _).
  unfold EnhancedMusicGenerator._enhance_song_data.
  destruct (EnhancedMusicGenerator.data_tempo song_data) as [t|] eqn:Et.
  - cbn [bind]. eexists. eexists. split; [reflexivity|].
    cbn [EnhancedMusicGenerator.data_title EnhancedMusicGenerator.data_lyrics EnhancedMusicGenerator.data_genre EnhancedMusicGenerator.data_mood EnhancedMusicGenerator.data_metadata
         EnhancedMusicGenerator.data_user_voice_sample EnhancedMusicGenerator.data_tempo EnhancedMusicGenerator.data_structure EnhancedMusicGenerator.data_vocal_settings
         EnhancedMusicGenerator.data_vocals bind].
    repeat split.
    destruct (EnhancedMusicGenerator.data_vocal_settings song_data) as [v|]; [reflexivity|].
    eexists. repeat split.
  - destruct (np_random_randint_range _ _ g (proj2 Hlo)) as (t & Hr & Ht).
    rewrite Hr. cbn [bind]. eexists. eexists. split; [reflexivity|].
    cbn [EnhancedMusicGenerator.data_title EnhancedMusicGenerator.data_lyrics EnhancedMusicGenerator.data_genre EnhancedMusicGenerator.data_mood EnhancedMusicGenerator.data_metadata
         EnhancedMusicGenerator.data_user_voice_sample EnhancedMusicGenerator.data_tempo EnhancedMusicGenerator.data_structure EnhancedMusicGenerator.data_vocal_settings
         EnhancedMusicGenerator.data_vocals bind].
    repeat split.
    + exists t. repeat split; lia.
    + destruct (EnhancedMusicGenerator.data_vocal_settings song_data) as [v|]; [reflexivity|].
      eexists. repeat split.
Qed.

(** [EnhancedMusicGenerator._enhance_song_data] never raises.  It keeps every entry that is given,
    takes one draw only when the tempo is absent and then gives a tempo within
    the range of the genre (of pop for an unknown or absent genre), hence
    between 100 and 159; and enhancing its answer again changes nothing. *)
Theorem enhance_song_data_defaults : forall (V : Type) (song_data : EnhancedMusicGenerator.SongData V) g,
  exists enhanced g',
    EnhancedMusicGenerator._enhance_song_data song_data g = Ok (enhanced, g')
    /\ EnhancedMusicGenerator.data_title enhanced = EnhancedMusicGenerator.data_title song_data
    /\ EnhancedMusicGenerator.data_lyrics enhanced = EnhancedMusicGenerator.data_lyrics song_data
    /\ EnhancedMusicGenerator.data_genre enhanced = EnhancedMusicGenerator.data_genre song_data
    /\ EnhancedMusicGenerator.data_mood enhanced = EnhancedMusicGenerator.data_mood song_data
    /\ EnhancedMusicGenerator.data_metadata enhanced = EnhancedMusicGenerator.data_metadata song_data
    /\ EnhancedMusicGenerator.data_user_voice_sample enhanced = EnhancedMusicGenerator.data_user_voice_sample song_data
    /\ match EnhancedMusicGenerator.data_tempo song_data with
       | Some t => EnhancedMusicGenerator.data_tempo enhanced = Some t /\ g' = g
       | None =>
           exists t,
             EnhancedMusicGenerator.data_tempo enhanced = Some t /\ g' = advance g
             /\ (fst (EnhancedMusicGenerator.tempo_range (EnhancedMusicGenerator.config_for song_data)) <= t
                 < snd (EnhancedMusicGenerator.tempo_range (EnhancedMusicGenerator.config_for song_data)))%Z
             /\ (100 <= t < 160)%Z
       end
    /\ EnhancedMusicGenerator.data_structure enhanced
       = Some match EnhancedMusicGenerator.data_structure song_data with
              | Some s => s
              | None => EnhancedMusicGenerator.config_structure (EnhancedMusicGenerator.config_for song_data)
              end
    /\ match EnhancedMusicGenerator.data_vocal_settings song_data with
       | Some v => EnhancedMusicGenerator.data_vocal_settings enhanced = Some v
       | None =>
           exists v,
             EnhancedMusicGenerator.data_vocal_settings enhanced = Some v
             /\ voice_type v = match EnhancedMusicGenerator.data_vocals song_data with
                               | Some name => name
                               | None => "male_lead"
                               end
             /\ articulation_style v = EnhancedMusicGenerator.vocal_style (EnhancedMusicGenerator.config_for song_data)
             /\ pitch_range v = (60, 84)%Z
       end
    /\ EnhancedMusicGenerator._enhance_song_data enhanced g' = Ok (enhanced, g').
Proof.
  intros V song_data g. exact (enhance_song_data_ok V song_data g).
Qed.

(** With a tempo of 0 the melody stage raises ZeroDivisionError as soon as
    the lyrics have a word: the duration of the first note divides 120 by
    the tempo; the two stages in sequence end with the same exception. *)
Theorem zero_tempo_fails_melody_stage :
  forall exp2 lyrics genre mood voice sample g,
  lyric_words lyrics <> [] ->
  generate_melody_from_lyrics lyrics genre mood 0 g = Err ZeroDivisionError
  /\ generate_song_stages exp2 lyrics genre mood 0 voice sample g
     = Err ZeroDivisionError.
Proof.
  intros exp2 lyrics genre mood voice sample g Hw.
  pose proof (melody_zero_tempo lyrics genre mood g Hw) as Hm.
  split; [exact Hm|].
  unfold generate_song_stages. rewrite Hm. reflexivity.
Qed.

(** The outcome of the two stages, by the words of the lyrics and the
    tempo. *)
Lemma stages_outcome : forall exp2 lyrics genre mood tempo_in voice sample g,
  (lyric_words lyrics = [] ->
   generate_song_stages exp2 lyrics genre mood tempo_in voice sample g = Err ValueError)
  /\ (lyric_words lyrics <> [] -> tempo_in = 0%Z ->
      generate_song_stages exp2 lyrics genre mood tempo_in voice sample g
        = Err ZeroDivisionError)
  /\ (tempo_in <> 0%Z -> existsb unstressed_bracket_word (lyric_words lyrics) = true ->
      generate_song_stages exp2 lyrics genre mood tempo_in voice sample g
        = Err ZeroDivisionError)
  /\ (lyric_words lyrics <> [] -> tempo_in <> 0%Z ->
      existsb unstressed_bracket_word (lyric_words lyrics) = false ->
      exists melody vocals g1 g2,
        generate_melody_from_lyrics lyrics genre mood tempo_in g = Ok (melody, g1)
        /\ generate_vocals_with_melody exp2 lyrics melody voice sample g1
           = Ok (vocals, g2)
        /\ all_notes melody <> []).
Proof.
  intros exp2 lyrics genre mood tempo_in voice sample g.
  split; [|split; [|split]].
  - intros Hw. apply lyric_words_empty in Hw.
    unfold generate_song_stages, generate_melody_from_lyrics, _analyze_lyrics_structure.
    rewrite Hw. cbn [analyze_lines bind emotional_arc lines].
    destruct (_determine_key_and_scale [] mood g) as [[root_note scale_name] g1].
    reflexivity.
  - intros Hw ->. unfold generate_song_stages.
    now rewrite (melody_zero_tempo lyrics genre mood g Hw).
  - intros Ht Hb.
    destruct (generate_melody_ok lyrics genre mood tempo_in g Ht)
      as (melody & g' & _ & _ & _ & _ & Hgen & _).
    destruct (melody_silent_notes_by_words _ _ _ _ _ _ _ Hgen) as (Hex & _).
    unfold generate_song_stages. rewrite Hgen. cbn [bind].
    unfold generate_vocals_with_melody, _generate_phoneme_timing.
    destruct (notes_phoneme_timing_outcome (all_notes melody) []) as (_ & Herr & _).
    rewrite (Herr (Hex Hb)). reflexivity.
  - intros Hne Ht Hb.
    destruct (generate_melody_ok lyrics genre mood tempo_in g Ht)
      as (melody & g1 & _ & _ & _ & _ & Hgen & _).
    destruct (melody_silent_notes_by_words _ _ _ _ _ _ _ Hgen) as (_ & Hall).
    destruct (melody_phonemes_by_words _ _ _ _ _ _ _ Hgen) as (_ & _ & Hnotes).
    specialize (Hall Hb).
    assert (Hnn : all_notes melody <> []).
    { intros E. apply Hnotes in E. contradiction. }
    destruct (notes_phoneme_timing_outcome (all_notes melody) []) as (_ & _ & Hok).
    destruct (Hok Hall) as (evs & Hevs & _). simpl app in Hevs.
    destruct (contour_and_dynamics_not_empty exp2 melody g1 Hnn) as [Hc Hd].
    assert (Hv : exists vocals g2,
               generate_vocals_with_melody exp2 lyrics melody voice sample g1
               = Ok (vocals, g2)).
    { unfold generate_vocals_with_melody, _generate_phoneme_timing.
      rewrite Hevs. cbn [bind].
      destruct (_extract_pitch_contour exp2 melody g1) as [contour g2].
      cbn [fst] in Hc.
      destruct (synthesize_vocal_track_core melody evs contour
                  (_generate_dynamics melody)
                  match voice with
                  | Some v => v
                  | None => default_voice_settings
                  end sample Hc Hd) as (track & Htrack & _).
      cbv zeta. rewrite Htrack. cbn [bind]. eexists. eexists. reflexivity. }
    destruct Hv as (vocals & g2 & Hv).
    exists melody, vocals, g1, g2. repeat split; assumption.
Qed.

Lemma stages_unfold : forall exp2 lyrics genre mood tempo_in voice sample g,
  generate_song_stages exp2 lyrics genre mood tempo_in voice sample g
  = match generate_melody_from_lyrics lyrics genre mood tempo_in g with
    | Ok (melody, g1) =>
        match generate_vocals_with_melody exp2 lyrics melody voice sample g1 with
        | Ok (vocals, g2) => Ok ((melody, vocals), g2)
        | Err e => Err e
        end
    | Err e => Err e
    end.
Proof.
  intros. unfold generate_song_stages.
  destruct (generate_melody_from_lyrics lyrics genre mood tempo_in g) as [[m g1]|e];
    cbn [bind]; [|reflexivity].
  destruct (generate_vocals_with_melody exp2 lyrics m voice sample g1) as [[v g2]|e];
    reflexivity.
Qed.

(** What the body of [generate_song] went through when it gives a song. *)
Lemma generate_song_body_inv :
  forall (V : Type) exp2 (song_data : EnhancedMusicGenerator.SongData V) clock g song,
  EnhancedMusicGenerator.generate_song_body exp2 song_data clock g = Ok song ->
  exists enhanced g0 lyrics genre mood tempo_in melody g1 vocals g2 title,
    EnhancedMusicGenerator._enhance_song_data song_data g = Ok (enhanced, g0)
    /\ EnhancedMusicGenerator.data_lyrics enhanced = Some lyrics
    /\ EnhancedMusicGenerator.data_genre enhanced = Some genre
    /\ EnhancedMusicGenerator.data_mood enhanced = Some mood
    /\ EnhancedMusicGenerator.data_tempo enhanced = Some tempo_in
    /\ generate_melody_from_lyrics lyrics genre mood tempo_in g0 = Ok (melody, g1)
    /\ generate_vocals_with_melody exp2 lyrics melody (EnhancedMusicGenerator.data_vocal_settings enhanced)
         (EnhancedMusicGenerator.data_user_voice_sample enhanced) g1 = Ok (vocals, g2)
    /\ EnhancedMusicGenerator.data_title enhanced = Some title
    /\ song = EnhancedMusicGenerator.mkSong ("song_" ++ str_of_Z (epoch_seconds clock))%string title lyrics
                genre mood tempo_in melody vocals
                ("/generated/" ++ replace_spaces (str_lower title) ++ ".wav")%string
                (formatted_time clock)
                match EnhancedMusicGenerator.data_metadata enhanced with
                | Some m => m
                | None => []
                end.
Proof.
  intros V exp2 song_data clock g song. unfold EnhancedMusicGenerator.generate_song_body.
  destruct (EnhancedMusicGenerator._enhance_song_data song_data g)
    as [[enhanced g0]|e] eqn:He; cbn [bind]; [|discriminate].
  unfold EnhancedMusicGenerator.required.
  destruct (EnhancedMusicGenerator.data_lyrics enhanced) as [lyrics|] eqn:Hl;
    cbn [bind]; [|discriminate].
  destruct (EnhancedMusicGenerator.data_genre enhanced) as [genre|] eqn:Hg;
    cbn [bind]; [|discriminate].
  destruct (EnhancedMusicGenerator.data_mood enhanced) as [mood|] eqn:Hm;
    cbn [bind]; [|discriminate].
  destruct (EnhancedMusicGenerator.data_tempo enhanced) as [tempo_in|] eqn:Ht;
    cbn [bind]; [|discriminate].
  destruct (generate_melody_from_lyrics lyrics genre mood tempo_in g0)
    as [[melody g1]|e] eqn:Hmel; cbn [bind]; [|discriminate].
  destruct (generate_vocals_with_melody exp2 lyrics melody _ _ g1)
    as [[vocals g2]|e] eqn:Hv; cbn [bind]; [|discriminate].
  destruct (EnhancedMusicGenerator.data_title enhanced) as [title|] eqn:Hti;
    cbn [bind]; [|discriminate].
  intros H. injection H as <-.
  exists enhanced, g0, lyrics, genre, mood, tempo_in, melody, g1, vocals, g2, title.
  rewrite Hl, Hg, Hm, Ht, Hti, Hmel.
  repeat split; try reflexivity. exact Hv.
Qed.

(** [generate_song] gives a song exactly when the title, the lyrics, the
    genre and the mood are given, the tempo is absent or not 0, and the
    lyrics have at least one word and no word that begins with a bracket and
    has an unstressed syllable (two vowels or more).  A word such as "[a]",
    with a bracket and a single, stressed syllable, adds a note without
    phonemes and does not stop the call.  A default genre is used for the
    configuration only: without the key ['genre'] the call fails. *)
Theorem generate_song_succeeds_iff :
  forall (V : Type) exp2 (song_data : EnhancedMusicGenerator.SongData V) clock g,
  (exists song, EnhancedMusicGenerator.generate_song exp2 song_data clock g = EnhancedMusicGenerator.Generated song)
  <-> (exists title lyrics genre mood,
         EnhancedMusicGenerator.data_title song_data = Some title
         /\ EnhancedMusicGenerator.data_lyrics song_data = Some lyrics
         /\ EnhancedMusicGenerator.data_genre song_data = Some genre
         /\ EnhancedMusicGenerator.data_mood song_data = Some mood
         /\ EnhancedMusicGenerator.data_tempo song_data <> Some 0%Z
         /\ lyric_words lyrics <> []
         /\ existsb unstressed_bracket_word (lyric_words lyrics) = false).
Proof.
  intros V exp2 song_data clock g.
  destruct (enhance_song_data_ok V song_data g)
    as (enhanced & g0 & Henh & Hti & Hly & Hge & Hmo & _ & _ & Htempo & _).
  split.
  - intros (song & Hsong). unfold EnhancedMusicGenerator.generate_song in Hsong.
    destruct (EnhancedMusicGenerator.generate_song_body exp2 song_data clock g) as [s|e] eqn:Hbody;
      [|discriminate].
    apply generate_song_body_inv in Hbody.
    destruct Hbody as (enh & g0' & lyrics & genre & mood & t & melody & g1 & vocals
                       & g2 & title & He & Hl & Hg & Hm & Ht & Hmel & Hvoc & Htitle & _).
    rewrite Henh in He. injection He as <- <-.
    exists title, lyrics, genre, mood.
    rewrite <- Hti, <- Hly, <- Hge, <- Hmo.
    split; [assumption|]. split; [assumption|]. split; [assumption|].
    split; [assumption|].
    pose proof (stages_outcome exp2 lyrics genre mood t (EnhancedMusicGenerator.data_vocal_settings enhanced)
                  (EnhancedMusicGenerator.data_user_voice_sample enhanced) g0) as (Hblank & Hzero & Hbr & _).
    rewrite stages_unfold, Hmel, Hvoc in Hblank, Hzero, Hbr.
    assert (Hw : lyric_words lyrics <> []).
    { intros E. specialize (Hblank E). discriminate. }
    assert (Hnz : t <> 0%Z).
    { intros E. specialize (Hzero Hw E). discriminate. }
    split; [|split; [assumption|]].
    + intros E. rewrite E in Htempo. destruct Htempo as [Ht' _]. congruence.
    + destruct (existsb unstressed_bracket_word (lyric_words lyrics)) eqn:Eb;
        [|reflexivity].
      specialize (Hbr Hnz eq_refl). discriminate.
  - intros (title & lyrics & genre & mood & Htitle & Hl & Hg & Hm & Hnz & Hw & Hb).
    assert (Ht : exists t, EnhancedMusicGenerator.data_tempo enhanced = Some t /\ t <> 0%Z).
    { destruct (EnhancedMusicGenerator.data_tempo song_data) as [t|].
      - destruct Htempo as [Ht _]. exists t. split; [assumption|]. congruence.
      - destruct Htempo as (t & Ht & _ & _ & Hr). exists t. split; [assumption | lia]. }
    destruct Ht as (t & Ht & Htnz).
    pose proof (stages_outcome exp2 lyrics genre mood t (EnhancedMusicGenerator.data_vocal_settings enhanced)
                  (EnhancedMusicGenerator.data_user_voice_sample enhanced) g0) as (_ & _ & _ & Hok).
    destruct (Hok Hw Htnz Hb) as (melody & vocals & g1 & g2 & Hmel & Hvoc & _).
    unfold EnhancedMusicGenerator.generate_song, EnhancedMusicGenerator.generate_song_body.
    rewrite Henh. cbn [bind]. rewrite Hly, Hl, Hge, Hg, Hmo, Hm, Ht, Hti, Htitle.
    cbn [EnhancedMusicGenerator.required bind]. rewrite Hmel. cbn [bind]. rewrite Hvoc. cbn [bind].
    eexists. reflexivity.
Qed.

Lemma replace_spaces_no_space : forall s,
  existsb (Ascii.eqb " ") (list_ascii_of_string (replace_spaces s)) = false.
Proof.
  induction s as [|c s IH]; [reflexivity|].
  cbn [replace_spaces list_ascii_of_string existsb]. rewrite IH, orb_false_r.
  destruct (Ascii.eqb_spec c " ") as [-> | Hne]; [reflexivity|].
  apply Ascii.eqb_neq. intros E. apply Hne. now symmetry.
Qed.

Lemma list_ascii_append : forall a b,
  list_ascii_of_string (a ++ b)%string
  = list_ascii_of_string a ++ list_ascii_of_string b.
Proof.
  induction a as [|c a IH]; intros b; simpl; [reflexivity | now rewrite IH].
Qed.

Lemma generate_vocals_inv : forall exp2 lyrics melody voice sample g vocals g',
  generate_vocals_with_melody exp2 lyrics melody voice sample g = Ok (vocals, g') ->
  let settings := match voice with
                  | Some v => v
                  | None => default_voice_settings
                  end in
  voice_model (vocal_track vocals) = voice_type settings
  /\ vocal_effects vocals = _generate_vocal_effects settings
  /\ _generate_phoneme_timing melody = Ok (phoneme_timing vocals)
  /\ dynamics vocals = _generate_dynamics melody
  /\ phoneme_count (metadata (vocal_track vocals)) = length (phoneme_timing vocals).
Proof.
  intros exp2 lyrics melody voice sample g vocals g'.
  unfold generate_vocals_with_melody.
  destruct (_generate_phoneme_timing melody) as [timing|e]; cbn [bind]; [|discriminate].
  destruct (_extract_pitch_contour exp2 melody g) as [contour g1]. cbv zeta.
  unfold _synthesize_vocal_track.
  destruct (py_minQ contour); cbn [bind]; [|discriminate].
  destruct (py_maxQ contour); cbn [bind]; [|discriminate].
  destruct (py_minQ (_generate_dynamics melody)); cbn [bind]; [|discriminate].
  destruct (py_maxQ (_generate_dynamics melody)); cbn [bind]; [|discriminate].
  intros H. injection H as <- _. repeat split.
Qed.

Lemma count_notes_length : forall melody,
  count_notes (phrases melody) = length (all_notes melody).
Proof.
  intros melody. unfold count_notes, all_notes.
  rewrite fold_add_sum, length_concat, map_map. reflexivity.
Qed.

(** A song that [generate_song] returns carries the given title, lyrics,
    genre and mood; its tempo is not 0, is the given one or, by default, lies
    in the range of the genre, and is the tempo of the melody's audio
    features; the melody has at least one note; the identifier and the date
    come from the clock; the audio url has no space; the voice model is the
    voice type of the given settings, or the entry ['vocals'], or
    ['male_lead']. *)
Theorem generated_song_fields :
  forall (V : Type) exp2 (song_data : EnhancedMusicGenerator.SongData V) clock g song,
  EnhancedMusicGenerator.generate_song exp2 song_data clock g = EnhancedMusicGenerator.Generated song ->
  EnhancedMusicGenerator.data_title song_data = Some (EnhancedMusicGenerator.title song)
  /\ EnhancedMusicGenerator.data_lyrics song_data = Some (EnhancedMusicGenerator.lyrics song)
  /\ EnhancedMusicGenerator.data_genre song_data = Some (EnhancedMusicGenerator.genre song)
  /\ EnhancedMusicGenerator.data_mood song_data = Some (EnhancedMusicGenerator.mood song)
  /\ EnhancedMusicGenerator.tempo song <> 0%Z
  /\ match EnhancedMusicGenerator.data_tempo song_data with
     | Some t => EnhancedMusicGenerator.tempo song = t
     | None =>
         (fst (EnhancedMusicGenerator.tempo_range (EnhancedMusicGenerator.config_for song_data)) <= EnhancedMusicGenerator.tempo song
          < snd (EnhancedMusicGenerator.tempo_range (EnhancedMusicGenerator.config_for song_data)))%Z
         /\ (100 <= EnhancedMusicGenerator.tempo song < 160)%Z
     end
  /\ tempo (audio_features (EnhancedMusicGenerator.melody song)) = EnhancedMusicGenerator.tempo song
  /\ (1 <= note_count (EnhancedMusicGenerator.melody song))%nat
  /\ EnhancedMusicGenerator.id song = ("song_" ++ str_of_Z (epoch_seconds clock))%string
  /\ EnhancedMusicGenerator.created_at song = formatted_time clock
  /\ EnhancedMusicGenerator.audio_url song
     = ("/generated/" ++ replace_spaces (str_lower (EnhancedMusicGenerator.title song)) ++ ".wav")%string
  /\ existsb (Ascii.eqb " ") (list_ascii_of_string (EnhancedMusicGenerator.audio_url song)) = false
  /\ voice_model (vocal_track (EnhancedMusicGenerator.vocals song))
     = match EnhancedMusicGenerator.data_vocal_settings song_data, EnhancedMusicGenerator.data_vocals song_data with
       | Some v, _ => voice_type v
       | None, Some name => name
       | None, None => "male_lead"
       end
  /\ EnhancedMusicGenerator.metadata song = match EnhancedMusicGenerator.data_metadata song_data with
                       | Some m => m
                       | None => []
                       end.
Proof.
  intros V exp2 song_data clock g song Hsong. unfold EnhancedMusicGenerator.generate_song in Hsong.
  destruct (EnhancedMusicGenerator.generate_song_body exp2 song_data clock g) as [s|e] eqn:Hbody;
    [|discriminate].
  injection Hsong as ->.
  apply generate_song_body_inv in Hbody.
  destruct Hbody as (enh & g0' & lyrics & genre & mood & t & melody & g1 & vocals
                     & g2 & title & He & Hl & Hg & Hm & Ht & Hmel & Hvoc & Htitle & ->).
  destruct (enhance_song_data_ok V song_data g)
    as (enhanced & g0 & Henh & Hti & Hly & Hge & Hmo & Hmeta & _ & Htempo & _
        & Hvs & _).
  rewrite Henh in He. injection He as <- <-.
  cbn [EnhancedMusicGenerator.title EnhancedMusicGenerator.lyrics EnhancedMusicGenerator.genre EnhancedMusicGenerator.mood EnhancedMusicGenerator.tempo EnhancedMusicGenerator.melody EnhancedMusicGenerator.vocals EnhancedMusicGenerator.id EnhancedMusicGenerator.created_at
       EnhancedMusicGenerator.audio_url EnhancedMusicGenerator.metadata].
  pose proof (stages_outcome exp2 lyrics genre mood t (EnhancedMusicGenerator.data_vocal_settings enhanced)
                (EnhancedMusicGenerator.data_user_voice_sample enhanced) g0) as (Hblank & Hzero & _ & _).
  rewrite stages_unfold, Hmel, Hvoc in Hblank, Hzero.
  assert (Hw : lyric_words lyrics <> []).
  { intros E. specialize (Hblank E). discriminate. }
  assert (Hnz : t <> 0%Z).
  { intros E. specialize (Hzero Hw E). discriminate. }
  destruct (generate_melody_ok lyrics genre mood t g0 Hnz)
    as (melody' & g1' & root_note & scale_name & scale_notes & gk
        & Hgen & _ & _ & _ & Haf & _ & _ & _ & Hcount & _).
  rewrite Hmel in Hgen. injection Hgen as <- <-.
  destruct (melody_phonemes_by_words _ _ _ _ _ _ _ Hmel) as (_ & _ & Hnotes).
  destruct (generate_vocals_inv _ _ _ _ _ _ _ _ Hvoc) as (Hvm & _).
  rewrite <- Hti, <- Hly, <- Hge, <- Hmo, <- Hmeta.
  split; [assumption|]. split; [assumption|]. split; [assumption|].
  split; [assumption|]. split; [assumption|]. split.
  { destruct (EnhancedMusicGenerator.data_tempo song_data) as [t0|].
    - destruct Htempo as [Ht' _]. congruence.
    - destruct Htempo as (t0 & Ht' & _ & Hr & Hr'). rewrite Ht in Ht'.
      injection Ht' as ->. now split. }
  split. { rewrite Haf. apply audio_features_key. }
  split.
  { rewrite Hcount, count_notes_length.
    destruct (all_notes melody) as [|n ns]; [|simpl; lia].
    exfalso. apply Hw. now apply Hnotes. }
  split; [reflexivity|]. split; [reflexivity|]. split; [reflexivity|].
  split.
  { rewrite !list_ascii_append, !existsb_app, replace_spaces_no_space. reflexivity. }
  split; [|reflexivity].
  rewrite Hvm. destruct (EnhancedMusicGenerator.data_vocal_settings song_data) as [v|].
  - now rewrite Hvs.
  - destruct Hvs as (v & -> & Hvt & _). exact Hvt.
Qed.

(** ** The answer of convert_lyrics_to_melody *)

(** Every note that [convert_lyrics_to_melody] gives has its pitch class,
    relative to the root, in the chosen scale; the root is one of 60, 62, 64
    and 67, the scale is major, minor or dorian, and there is one phrase per
    non-blank line. *)
Theorem convert_pitches_in_scale : forall lyrics tempo_in g,
  tempo_in <> 0%Z ->
  exists r g' scale_notes,
    LyricsToMelody.convert_lyrics_to_melody lyrics tempo_in g = Ok (r, g')
    /\ In (LyricsToMelody.Result.key r) [60; 62; 64; 67]%Z
    /\ In (LyricsToMelody.Result.scale r) ["major"; "minor"; "dorian"]
    /\ dict_get scales (LyricsToMelody.Result.scale r) = Some scale_notes
    /\ length (LyricsToMelody.Result.melody_lines r) = length (non_blank_lines lyrics)
    /\ forall p n, In p (LyricsToMelody.Result.melody_lines r) -> In n (LyricsToMelody.Phrase.notes p) ->
         In ((LyricsToMelody.Note.pitch n - LyricsToMelody.Result.key r) mod 12)%Z scale_notes.
Proof.
  intros lyrics tempo_in g Ht.
  destruct (convert_ok lyrics tempo_in g Ht)
    as (r & g' & scale_notes & Hc & _ & _ & Hkey & Hname & Hscale & Hall & _).
  exists r, g', scale_notes.
  split; [assumption|]. split; [assumption|]. split; [assumption|].
  split; [assumption|]. split.
  - rewrite <- (Forall2_length Hall). unfold stripped_lines. apply length_map.
  - intros p n Hp Hn.
    assert (Hline : exists line,
               line_phrase scale_notes (LyricsToMelody.Result.key r) tempo_in line p).
    { clear - Hall Hp. induction Hall as [|line q lines qs Hq _ IH].
      - destruct Hp.
      - destruct Hp as [<- | Hp]; [now exists line | now apply IH]. }
    destruct Hline as (line & _ & _ & Hin & _).
    rewrite Forall_forall in Hin. now apply Hin.
Qed.

Lemma stress_flag_of_velocity : forall b w,
  (80 <? note_velocity b (emotion_of w))%Z
  = (b || (11 <=? py_int (Qabs (emotion_of w) * 20))%Z)%bool.
Proof.
  intros b w. destruct (note_velocity_unclamped b w) as [-> Hr].
  destruct b; simpl orb.
  - apply Z.ltb_lt. lia.
  - destruct (Z.leb_spec 11 (py_int (Qabs (emotion_of w) * 20))).
    + apply Z.ltb_lt. lia.
    + apply Z.ltb_ge. lia.
Qed.

Lemma flag_emotions_source : forall line be,
  In be (flag_emotions line) ->
  exists wd,
    In wd (LyricsToMelody.analyze_syllables line)
    /\ In (fst be) (stress_pattern wd)
    /\ snd be = emotion_of (word wd).
Proof.
  intros line be H. unfold flag_emotions in H. apply in_concat in H.
  destruct H as (block & Hblock & Hbe). apply in_map_iff in Hblock.
  destruct Hblock as (wd & <- & Hwd). apply in_map_iff in Hbe.
  destruct Hbe as (b & <- & Hb). exists wd. cbn [fst snd].
  split; [assumption|]. split; [assumption|].
  unfold LyricsToMelody.analyze_syllables in Hwd. apply in_map_iff in Hwd.
  destruct Hwd as (w & <- & _). reflexivity.
Qed.

(** The stress pattern that [convert_lyrics_to_melody] records in a phrase
    is read back from the velocities with the threshold 80.  It marks a
    syllable when the syllable is stressed, and also when it is unstressed
    and the truncated product of the magnitude of its word's weight and 20 is
    at least 11: the unstressed syllables of the words of weight 0.6 and more
    in magnitude come back as stressed. *)
Theorem convert_stress_pattern_read_back : forall lyrics tempo_in g,
  tempo_in <> 0%Z ->
  exists r g',
    LyricsToMelody.convert_lyrics_to_melody lyrics tempo_in g = Ok (r, g')
    /\ map LyricsToMelody.Phrase.stress_pattern (LyricsToMelody.Result.melody_lines r)
       = map (fun line =>
                map (fun be => (fst be
                                || (11 <=? py_int (Qabs (snd be) * 20))%Z)%bool)
                    (flag_emotions line))
             (stripped_lines lyrics)
    /\ Forall (fun p => LyricsToMelody.Phrase.stress_pattern p
                        = map (fun n => (80 <? LyricsToMelody.Note.velocity n)%Z)
                              (LyricsToMelody.Phrase.notes p))
              (LyricsToMelody.Result.melody_lines r).
Proof.
  intros lyrics tempo_in g Ht.
  destruct (convert_ok lyrics tempo_in g Ht)
    as (r & g' & scale_notes & Hc & _ & _ & _ & _ & _ & Hall & _).
  exists r, g'. split; [assumption|].
  induction Hall as [|line p lines ps Hp _ [IH1 IH2]].
  - split; [reflexivity | constructor].
  - destruct Hp as (Hv & _ & _ & Hs). split.
    + simpl. rewrite IH1. f_equal.
      rewrite Hs, <- (map_map LyricsToMelody.Note.velocity (fun v => (80 <? v)%Z)), Hv, map_map.
      apply map_ext_in. intros be Hbe.
      destruct (flag_emotions_source _ _ Hbe) as (wd & _ & _ & ->).
      apply stress_flag_of_velocity.
    + constructor; assumption.
Qed.

Lemma beats_chain_nth : forall ps t k p,
  beats_chain t ps -> nth_error ps k = Some p ->
  LyricsToMelody.Phrase.start_beat p
  == t + py_sum (map LyricsToMelody.Note.duration (concat (map LyricsToMelody.Phrase.notes (firstn k ps)))).
Proof.
  induction ps as [|q ps IH]; intros t k p H Hk.
  - destruct k; discriminate.
  - cbn [beats_chain] in H. destruct H as [Hq Hrest]. destruct k as [|k].
    + simpl in Hk. injection Hk as <-. rewrite Hq, fold_Qplus_shift.
      cbn [firstn map concat]. unfold py_sum. cbn [fold_left]. ring.
    + simpl in Hk. rewrite (IH _ _ _ Hrest Hk), fold_Qplus_shift.
      cbn [firstn map concat]. rewrite map_app, py_sum_app.
      unfold py_sum. ring.
Qed.

Lemma beats_end_sum : forall ps t,
  beats_end t ps
  == t + py_sum (map LyricsToMelody.Note.duration (concat (map LyricsToMelody.Phrase.notes ps))).
Proof.
  induction ps as [|p ps IH]; intros t.
  - unfold beats_end, py_sum. simpl. ring.
  - unfold beats_end. cbn [fold_left]. fold (beats_end
      (fold_left Qplus (map LyricsToMelody.Note.duration (LyricsToMelody.Phrase.notes p)) t) ps).
    rewrite IH, fold_Qplus_shift. cbn [map concat]. rewrite map_app, py_sum_app.
    unfold py_sum. ring.
Qed.

(** In the answer of [convert_lyrics_to_melody] each phrase starts at the
    sum of the durations of the notes of the phrases before it, the total
    duration is the sum of all note durations, the note count is the number
    of syllables of the lines, and a note lasts 0.75 beats at 120 beats per
    minute when stressed and 0.5 when not, scaled by 120/tempo. *)
Theorem convert_beats_and_counts : forall lyrics tempo_in g,
  tempo_in <> 0%Z ->
  exists r g',
    LyricsToMelody.convert_lyrics_to_melody lyrics tempo_in g = Ok (r, g')
    /\ (forall k p, nth_error (LyricsToMelody.Result.melody_lines r) k = Some p ->
          LyricsToMelody.Phrase.start_beat p
          == py_sum (map LyricsToMelody.Note.duration
                       (concat (map LyricsToMelody.Phrase.notes
                                    (firstn k (LyricsToMelody.Result.melody_lines r))))))
    /\ LyricsToMelody.Result.total_duration r
       == py_sum (map LyricsToMelody.Note.duration
                    (concat (map LyricsToMelody.Phrase.notes (LyricsToMelody.Result.melody_lines r))))
    /\ LyricsToMelody.Result.note_count r
       = length (concat (map flag_emotions (stripped_lines lyrics)))
    /\ map (fun p => map LyricsToMelody.Note.duration (LyricsToMelody.Phrase.notes p)) (LyricsToMelody.Result.melody_lines r)
       = map (fun line =>
                map (fun be : bool * Q => (if fst be then 0.75 else 0.5)
                                 * (inject_Z 120 / inject_Z tempo_in))
                    (flag_emotions line))
             (stripped_lines lyrics).
Proof.
  intros lyrics tempo_in g Ht.
  destruct (convert_ok lyrics tempo_in g Ht)
    as (r & g' & scale_notes & Hc & _ & _ & _ & _ & _ & Hall & Hchain & Htotal & Hcount).
  exists r, g'. split; [assumption|]. split.
  { intros k p Hk. rewrite (beats_chain_nth _ _ _ _ Hchain Hk). ring. }
  split. { rewrite Htotal, beats_end_sum. ring. }
  assert (Hd : map (fun p => map LyricsToMelody.Note.duration (LyricsToMelody.Phrase.notes p))
                   (LyricsToMelody.Result.melody_lines r)
               = map (fun line =>
                        map (fun be : bool * Q => (if fst be then 0.75 else 0.5)
                                         * (inject_Z 120 / inject_Z tempo_in))
                            (flag_emotions line))
                     (stripped_lines lyrics)).
  { clear - Hall. induction Hall as [|line p lines ps Hp _ IH]; [reflexivity|].
    destruct Hp as (_ & Hd & _). simpl. now rewrite Hd, IH. }
  split; [|exact Hd].
  rewrite Hcount, fold_add_sum. simpl.
  rewrite !length_concat, !map_map. f_equal.
  transitivity (map (@length Q)
                  (map (fun p => map LyricsToMelody.Note.duration (LyricsToMelody.Phrase.notes p))
                       (LyricsToMelody.Result.melody_lines r))).
  - rewrite map_map. apply map_ext. intros p. now rewrite length_map.
  - rewrite Hd, map_map. apply map_ext. intros line. now rewrite length_map.
Qed.

(** ** Note names *)

Lemma str_of_Z_inj : forall a b, str_of_Z a = str_of_Z b -> a = b.
Proof.
  intros a b H. apply DecimalZ.to_int_inj.
  assert (Hn : forall z, Z.to_int z <> Decimal.Pos Decimal.Nil
                         /\ Z.to_int z <> Decimal.Neg Decimal.Nil).
  { intros [|p|p]; cbn [Z.to_int]; split; try discriminate;
      intros E; injection E; apply DecimalPos.Unsigned.to_uint_nonnil. }
  unfold str_of_Z in H.
  pose proof (NilZero.isi (Z.to_int a) (proj1 (Hn a)) (proj2 (Hn a))) as Ea.
  pose proof (NilZero.isi (Z.to_int b) (proj1 (Hn b)) (proj2 (Hn b))) as Eb.
  rewrite H, Eb in Ea. now injection Ea.
Qed.

Lemma str_of_Z_not_sharp : forall z s, str_of_Z z <> String "#" s.
Proof.
  intros z s. unfold str_of_Z.
  destruct z as [|p|p]; cbn [Z.to_int NilZero.string_of_int]; [discriminate| |discriminate].
  destruct (Pos.to_uint p); discriminate.
Qed.

Lemma note_name_prefix : forall ka kb sa sb,
  (0 <= ka < 12)%Z -> (0 <= kb < 12)%Z ->
  (forall s, sa <> String "#" s) -> (forall s, sb <> String "#" s) ->
  (nth (Z.to_nat ka) note_names "" ++ sa)%string
    = (nth (Z.to_nat kb) note_names "" ++ sb)%string ->
  ka = kb /\ sa = sb.
Proof.
  intros ka kb sa sb Hka Hkb Hsa Hsb H.
  assert (Ca : (ka = 0 \/ ka = 1 \/ ka = 2 \/ ka = 3 \/ ka = 4 \/ ka = 5 \/ ka = 6 \/ ka = 7 \/ ka = 8 \/ ka = 9 \/ ka = 10 \/ ka = 11)%Z) by lia.
  assert (Cb : (kb = 0 \/ kb = 1 \/ kb = 2 \/ kb = 3 \/ kb = 4 \/ kb = 5 \/ kb = 6 \/ kb = 7 \/ kb = 8 \/ kb = 9 \/ kb = 10 \/ kb = 11)%Z) by lia.
  destruct Ca as [->|[->|[->|[->|[->|[->|[->|[->|[->|[->|[->| ->]]]]]]]]]]];
    destruct Cb as [->|[->|[->|[->|[->|[->|[->|[->|[->|[->|[->| ->]]]]]]]]]]];
    vm_compute in H;
    repeat (first [ discriminate H
                  | exfalso; exact (Hsa _ H)
                  | exfalso; exact (Hsb _ (eq_sym H))
                  | injection H as H ]);
    (split; [reflexivity | exact H]).
Qed.

(** [_midi_to_note_name], and [midi_to_note_name] of lyrics_to_melody.py,
    which has the same body, give different names to different notes, negative
    ones included: the name tells the note. *)
Theorem midi_note_names_are_unambiguous : forall a b,
  _midi_to_note_name a = _midi_to_note_name b <-> a = b.
Proof.
  intros a b. split; [|now intros ->].
  unfold _midi_to_note_name. cbv zeta. intros H.
  apply note_name_prefix in H;
    try (apply Z.mod_pos_bound; lia); try apply str_of_Z_not_sharp.
  destruct H as [Hmod Hoct]. apply str_of_Z_inj in Hoct.
  rewrite (Z.div_mod a 12), (Z.div_mod b 12) by lia. lia.
Qed.

(** ** Draws taken from the generator *)

Lemma after_draws_refl : forall g, after_draws 0 g g.
Proof. intros g. unfold after_draws. repeat split. lia. Qed.

Lemma after_draws_advance : forall g, after_draws 1 g (advance g).
Proof. intros g. unfold after_draws, advance. cbn. repeat split. lia. Qed.

Lemma after_draws_trans : forall a b g g1 g2,
  after_draws a g g1 -> after_draws b g1 g2 -> after_draws (a + b) g g2.
Proof.
  unfold after_draws. intros a b g g1 g2 (Hu1 & Hn1 & Hp1) (Hu2 & Hn2 & Hp2).
  rewrite Hu2, Hn2, Hp2, Hu1, Hn1, Hp1. repeat split. lia.
Qed.

Lemma after_draws_eq : forall a b g g', a = b -> after_draws a g g' -> after_draws b g g'.
Proof. now intros a b g g' ->. Qed.

Lemma np_random_choice_draw : forall first rest g,
  snd (np_random_choice first rest g) = advance g.
Proof. reflexivity. Qed.

Lemma syllable_step_draws :
  forall scale_notes root_note ew tempo_in wd syl_idx b c g c' g',
  syllable_step scale_notes root_note ew tempo_in wd syl_idx b c g = Ok (c', g') ->
  after_draws 1 g g' /\ length (cur_notes c') = S (length (cur_notes c)).
Proof.
  intros scale_notes root_note ew tempo_in wd syl_idx b c g c' g'.
  unfold syllable_step.
  pose proof (np_random_choice_draw (-1) [0; 1]%Z g) as Hg.
  destruct (np_random_choice (-1) [0; 1]%Z g) as [v g1]. cbn [snd] in Hg. subst g1.
  destruct (quantize_pitch _ _ _) as [p|e]; cbn [bind]; [|discriminate].
  destruct (note_duration _ _ _) as [d|e]; cbn [bind]; [|discriminate].
  intros H. injection H as <- <-. cbn [cur_notes]. split.
  - apply after_draws_advance.
  - rewrite length_app. simpl. lia.
Qed.

Lemma syllable_loop_draws :
  forall scale_notes root_note ew tempo_in wd todo syl_idx c g c' g',
  syllable_loop scale_notes root_note ew tempo_in wd syl_idx todo c g = Ok (c', g') ->
  after_draws (length todo) g g'
  /\ length (cur_notes c') = (length (cur_notes c) + length todo)%nat.
Proof.
  intros scale_notes root_note ew tempo_in wd todo.
  induction todo as [|b rest IH]; intros syl_idx c g c' g'; cbn [syllable_loop].
  - intros H. injection H as <- <-. split; [apply after_draws_refl | simpl; lia].
  - destruct (syllable_step _ _ _ _ _ _ _ _ _) as [[c1 g1]|e] eqn:Hstep;
      cbn [bind]; [|discriminate].
    intros H. apply IH in H. destruct H as [Hd Hl].
    apply syllable_step_draws in Hstep. destruct Hstep as [Hd1 Hl1].
    split.
    + apply (after_draws_trans 1 (length rest) g g1 g' Hd1 Hd).
    + rewrite Hl, Hl1. simpl. lia.
Qed.

Lemma word_loop_draws :
  forall scale_notes root_note ew tempo_in syllable_data c g c' g',
  word_loop scale_notes root_note ew tempo_in syllable_data c g = Ok (c', g') ->
  exists k,
    after_draws k g g' /\ length (cur_notes c') = (length (cur_notes c) + k)%nat.
Proof.
  intros scale_notes root_note ew tempo_in syllable_data.
  induction syllable_data as [|wd rest IH]; intros c g c' g'; cbn [word_loop].
  - intros H. injection H as <- <-. exists O. split; [apply after_draws_refl | lia].
  - destruct (syllable_loop _ _ _ _ _ _ _ _ _) as [[c1 g1]|e] eqn:Hloop;
      cbn [bind]; [|discriminate].
    intros H. apply IH in H. destruct H as (k & Hd & Hl).
    apply syllable_loop_draws in Hloop. destruct Hloop as [Hd1 Hl1].
    exists (length (stress_pattern wd) + k)%nat. split.
    + apply (after_draws_trans _ _ g g1 g' Hd1 Hd).
    + rewrite Hl, Hl1. lia.
Qed.

Lemma generate_phrase_draws :
  forall line syllable_data ew root_note scale_name start_time tempo_in g phrase g',
  _generate_phrase_from_line line syllable_data ew root_note scale_name start_time
    tempo_in g = Ok (phrase, g') ->
  after_draws (length (notes phrase)) g g'.
Proof.
  intros line syllable_data ew root_note scale_name start_time tempo_in g phrase g'.
  unfold _generate_phrase_from_line.
  destruct (scale_lookup scale_name) as [scale_notes|e]; cbn [bind]; [|discriminate].
  destruct (word_loop _ _ _ _ _ _ _) as [[c g1]|e] eqn:Hloop; cbn [bind]; [|discriminate].
  intros H. injection H as <- <-. cbn [notes].
  apply word_loop_draws in Hloop. destruct Hloop as (k & Hd & Hl).
  cbn [cur_notes length] in Hl. now rewrite Hl.
Qed.

Lemma phrase_loop_draws :
  forall la root_note scale_name tempo_in todo line_idx c g c' g',
  phrase_loop la root_note scale_name tempo_in line_idx todo c g = Ok (c', g') ->
  exists k,
    after_draws k g g'
    /\ count_notes (melody_phrases c') = (count_notes (melody_phrases c) + k)%nat.
Proof.
  intros la root_note scale_name tempo_in todo.
  induction todo as [|line rest IH]; intros line_idx c g c' g'; cbn [phrase_loop].
  - intros H. injection H as <- <-. exists O. split; [apply after_draws_refl | lia].
  - destruct (is_empty (str_strip line)); [apply IH|].
    destruct (py_getitem _ _) as [ew|e]; cbn [bind]; [|discriminate].
    destruct (_generate_phrase_from_line _ _ _ _ _ _ _ _) as [[phrase g1]|e] eqn:Hp;
      cbn [bind]; [|discriminate].
    intros H. apply IH in H. destruct H as (k & Hd & Hl).
    apply generate_phrase_draws in Hp.
    exists (length (notes phrase) + k)%nat. split.
    + apply (after_draws_trans _ _ g g1 g' Hp Hd).
    + rewrite Hl. cbn [melody_phrases]. unfold count_notes.
      rewrite !fold_add_sum, map_app, list_sum_app. simpl. lia.
Qed.

Lemma determine_key_draw : forall arc mood g,
  snd (_determine_key_and_scale arc mood g) = advance g.
Proof.
  intros arc mood g. unfold _determine_key_and_scale. cbv zeta.
  destruct (Qltb 0.5 (average_emotion arc)); [reflexivity|].
  destruct (Qltb (average_emotion arc) (-0.5)); reflexivity.
Qed.

Lemma generate_melody_draws : forall lyrics genre mood tempo_in g melody g',
  generate_melody_from_lyrics lyrics genre mood tempo_in g = Ok (melody, g') ->
  after_draws (S (note_count melody)) g g'.
Proof.
  intros lyrics genre mood tempo_in g melody g'. unfold generate_melody_from_lyrics.
  destruct (_analyze_lyrics_structure lyrics) as [la|e]; cbn [bind]; [|discriminate].
  pose proof (determine_key_draw (emotional_arc la) mood g) as Hk.
  destruct (_determine_key_and_scale (emotional_arc la) mood g)
    as [[root_note scale_name] g1].
  cbn [snd] in Hk. subst g1.
  destruct (phrase_loop _ _ _ _ _ _ _ _) as [[c g2]|e] eqn:Hloop; cbn [bind]; [|discriminate].
  intros H. injection H as <- <-. cbn [note_count].
  apply phrase_loop_draws in Hloop. destruct Hloop as (k & Hd & Hl).
  cbn [melody_phrases] in Hl. change (count_notes []) with O in Hl.
  rewrite Hl. apply (after_draws_trans 1 k g (advance g) g2 (after_draws_advance g) Hd).
Qed.

Lemma contour_samples_draws : forall frequency n g,
  after_draws n g (snd (contour_samples frequency n g)).
Proof.
  intros frequency n; induction n as [|n IH]; intros g; cbn [contour_samples].
  - apply after_draws_refl.
  - unfold np_random_normal.
    specialize (IH (advance g)).
    destruct (contour_samples frequency n (advance g)) as [rest g2].
    cbn [snd] in *.
    apply (after_draws_trans 1 n g (advance g) g2 (after_draws_advance g) IH).
Qed.

Lemma notes_pitch_contour_draws : forall exp2 ns acc g,
  exists k,
    after_draws k g (snd (notes_pitch_contour exp2 ns acc g))
    /\ length (fst (notes_pitch_contour exp2 ns acc g)) = (length acc + k)%nat.
Proof.
  intros exp2 ns; induction ns as [|note rest IH]; intros acc g; cbn [notes_pitch_contour].
  - exists O. split; [apply after_draws_refl | simpl; lia].
  - pose proof (contour_samples_draws (note_frequency exp2 note) (num_points note) g) as Hd.
    pose proof (contour_samples_length (note_frequency exp2 note) (num_points note) g) as Hl.
    destruct (contour_samples _ _ g) as [samples g1]. cbn [fst snd] in Hd, Hl.
    destruct (IH (acc ++ samples) g1) as (k & Hd' & Hl').
    exists (num_points note + k)%nat. split.
    + apply (after_draws_trans _ _ g g1 _ Hd Hd').
    + rewrite Hl', length_app, Hl. lia.
Qed.

Lemma generate_vocals_draws : forall exp2 lyrics melody voice sample g vocals g',
  generate_vocals_with_melody exp2 lyrics melody voice sample g = Ok (vocals, g') ->
  after_draws (length (pitch_contour vocals)) g g'.
Proof.
  intros exp2 lyrics melody voice sample g vocals g'.
  unfold generate_vocals_with_melody.
  destruct (_generate_phoneme_timing melody) as [timing|e]; cbn [bind]; [|discriminate].
  unfold _extract_pitch_contour.
  destruct (notes_pitch_contour_draws exp2 (all_notes melody) [] g) as (k & Hd & Hl).
  destruct (notes_pitch_contour exp2 (all_notes melody) [] g) as [contour g1].
  cbn [fst snd length] in Hd, Hl. cbv zeta.
  destruct (_synthesize_vocal_track _ _ _ _ _ _) as [track|e]; cbn [bind]; [|discriminate].
  intros H. injection H as <- <-. cbn [pitch_contour]. now rewrite Hl.
Qed.

(** Each stage draws from the generator once per item and leaves its
    sequences as they are: the melody stage takes one draw for the root note
    and one per note, the vocal stage one per sample of the pitch contour; a
    song that is produced has moved the generator by their sum. *)
Theorem stages_take_one_draw_per_note_and_sample :
  forall exp2 lyrics genre mood tempo_in voice sample g melody vocals g',
  generate_song_stages exp2 lyrics genre mood tempo_in voice sample g
    = Ok ((melody, vocals), g') ->
  uniform_draws g' = uniform_draws g
  /\ normal_draws g' = normal_draws g
  /\ position g'
     = (position g + 1 + note_count melody + length (pitch_contour vocals))%nat
  /\ length (pitch_contour vocals) = list_sum (map num_points (all_notes melody))
  /\ exists g1,
       generate_melody_from_lyrics lyrics genre mood tempo_in g = Ok (melody, g1)
       /\ position g1 = (position g + 1 + note_count melody)%nat
       /\ generate_vocals_with_melody exp2 lyrics melody voice sample g1
          = Ok (vocals, g').
Proof.
  intros exp2 lyrics genre mood tempo_in voice sample g melody vocals g'.
  unfold generate_song_stages.
  destruct (generate_melody_from_lyrics lyrics genre mood tempo_in g)
    as [[m g1]|e] eqn:Hm; cbn [bind]; [|discriminate].
  destruct (generate_vocals_with_melody exp2 lyrics m voice sample g1)
    as [[v g2]|e] eqn:Hv; cbn [bind]; [|discriminate].
  intros H. injection H as <- <- <-.
  pose proof (generate_melody_draws _ _ _ _ _ _ _ Hm) as (Hu1 & Hn1 & Hp1).
  pose proof (generate_vocals_draws _ _ _ _ _ _ _ _ Hv) as (Hu2 & Hn2 & Hp2).
  split; [congruence|]. split; [congruence|]. split; [lia|]. split.
  - assert (Hc : pitch_contour v = fst (_extract_pitch_contour exp2 m g1)).
    { revert Hv. unfold generate_vocals_with_melody.
      destruct (_generate_phoneme_timing m) as [timing|e]; cbn [bind]; [|discriminate].
      destruct (_extract_pitch_contour exp2 m g1) as [contour g3]. cbv zeta.
      destruct (_synthesize_vocal_track _ _ _ _ _ _) as [track|e]; cbn [bind];
        [|discriminate].
      intros H. now injection H as <- _. }
    rewrite Hc. unfold _extract_pitch_contour.
    destruct (notes_pitch_contour_blocks exp2 (all_notes m) [] g1) as (blocks & Hb & Hall).
    rewrite Hb. cbn [app]. now apply concat_blocks_length.
  - exists g1. split; [reflexivity|]. split; [lia | exact Hv].
Qed.

Lemma convert_syllable_draws :
  forall scale_notes root_note tempo_in wd syl_idx b c g c' g',
  LyricsToMelody.convert_syllable scale_notes root_note tempo_in wd syl_idx b c g = Ok (c', g') ->
  after_draws 1 g g' /\ length (LyricsToMelody.beat_notes c') = S (length (LyricsToMelody.beat_notes c)).
Proof.
  intros scale_notes root_note tempo_in wd syl_idx b c g c' g'.
  unfold LyricsToMelody.convert_syllable.
  pose proof (np_random_choice_draw (-1) [0; 1]%Z g) as Hg.
  destruct (np_random_choice (-1) [0; 1]%Z g) as [v g1]. cbn [snd] in Hg. subst g1.
  destruct (quantize_pitch _ _ _) as [p|e]; cbn [bind]; [|discriminate].
  destruct (py_truediv 120 tempo_in) as [d|e]; cbn [bind]; [|discriminate].
  intros H. injection H as <- <-. cbn [LyricsToMelody.beat_notes]. split.
  - apply after_draws_advance.
  - rewrite length_app. simpl. lia.
Qed.

Lemma convert_syllables_draws :
  forall scale_notes root_note tempo_in wd todo syl_idx c g c' g',
  LyricsToMelody.convert_syllables scale_notes root_note tempo_in wd syl_idx todo c g = Ok (c', g') ->
  after_draws (length todo) g g'
  /\ length (LyricsToMelody.beat_notes c') = (length (LyricsToMelody.beat_notes c) + length todo)%nat.
Proof.
  intros scale_notes root_note tempo_in wd todo.
  induction todo as [|b rest IH]; intros syl_idx c g c' g'; cbn [LyricsToMelody.convert_syllables].
  - intros H. injection H as <- <-. split; [apply after_draws_refl | simpl; lia].
  - destruct (LyricsToMelody.convert_syllable _ _ _ _ _ _ _ _) as [[c1 g1]|e] eqn:Hstep;
      cbn [bind]; [|discriminate].
    intros H. apply IH in H. destruct H as [Hd Hl].
    apply convert_syllable_draws in Hstep. destruct Hstep as [Hd1 Hl1].
    split.
    + apply (after_draws_trans 1 (length rest) g g1 g' Hd1 Hd).
    + rewrite Hl, Hl1. simpl. lia.
Qed.

Lemma convert_words_draws :
  forall scale_notes root_note tempo_in syllable_data c g c' g',
  LyricsToMelody.convert_words scale_notes root_note tempo_in syllable_data c g = Ok (c', g') ->
  exists k,
    after_draws k g g' /\ length (LyricsToMelody.beat_notes c') = (length (LyricsToMelody.beat_notes c) + k)%nat.
Proof.
  intros scale_notes root_note tempo_in syllable_data.
  induction syllable_data as [|wd rest IH]; intros c g c' g'; cbn [LyricsToMelody.convert_words].
  - intros H. injection H as <- <-. exists O. split; [apply after_draws_refl | lia].
  - destruct (LyricsToMelody.convert_syllables _ _ _ _ _ _ _ _) as [[c1 g1]|e] eqn:Hloop;
      cbn [bind]; [|discriminate].
    intros H. apply IH in H. destruct H as (k & Hd & Hl).
    apply convert_syllables_draws in Hloop. destruct Hloop as [Hd1 Hl1].
    exists (length (stress_pattern wd) + k)%nat. split.
    + apply (after_draws_trans _ _ g g1 g' Hd1 Hd).
    + rewrite Hl, Hl1. lia.
Qed.

Lemma convert_lines_draws :
  forall scale_notes root_note tempo_in arc todo line_idx c g c' g',
  LyricsToMelody.convert_lines scale_notes root_note tempo_in arc line_idx todo c g = Ok (c', g') ->
  exists k,
    after_draws k g g'
    /\ list_sum (map (fun p => length (LyricsToMelody.Phrase.notes p)) (LyricsToMelody.done_lines c'))
       = (list_sum (map (fun p => length (LyricsToMelody.Phrase.notes p)) (LyricsToMelody.done_lines c)) + k)%nat.
Proof.
  intros scale_notes root_note tempo_in arc todo.
  induction todo as [|line rest IH]; intros line_idx c g c' g'; cbn [LyricsToMelody.convert_lines].
  - intros H. injection H as <- <-. exists O. split; [apply after_draws_refl | lia].
  - unfold LyricsToMelody.convert_line at 1. cbv zeta.
    destruct (py_getitem arc line_idx) as [ew|e]; cbn [bind]; [|discriminate].
    destruct (LyricsToMelody.convert_words _ _ _ _ _ _) as [[b g1]|e] eqn:Hw; cbn [bind];
      [|discriminate].
    intros H. apply IH in H. destruct H as (k & Hd & Hl).
    apply convert_words_draws in Hw. destruct Hw as (k1 & Hd1 & Hl1).
    cbn [LyricsToMelody.beat_notes length] in Hl1.
    exists (k1 + k)%nat. split.
    + apply (after_draws_trans _ _ g g1 g' Hd1 Hd).
    + rewrite Hl. cbn [LyricsToMelody.done_lines]. rewrite map_app, list_sum_app.
      cbn [map LyricsToMelody.Phrase.notes].
      change (list_sum [length (LyricsToMelody.beat_notes b)])
        with (length (LyricsToMelody.beat_notes b) + 0)%nat.
      lia.
Qed.

(** [convert_lyrics_to_melody] takes one draw for the root note and one per
    note, and leaves the sequences of the generator as they are. *)
Theorem convert_takes_one_draw_per_note : forall lyrics tempo_in g r g',
  LyricsToMelody.convert_lyrics_to_melody lyrics tempo_in g = Ok (r, g') ->
  uniform_draws g' = uniform_draws g
  /\ normal_draws g' = normal_draws g
  /\ position g' = (position g + 1 + LyricsToMelody.Result.note_count r)%nat
  /\ LyricsToMelody.Result.note_count r
     = length (concat (map LyricsToMelody.Phrase.notes (LyricsToMelody.Result.melody_lines r))).
Proof.
  intros lyrics tempo_in g r g'. unfold LyricsToMelody.convert_lyrics_to_melody. cbv zeta.
  destruct (LyricsToMelody.emotion_loop _ _ _) as [[arc total]|e]; cbn [bind]; [|discriminate].
  pose proof (np_random_choice_draw 60 [62; 64; 67]%Z g) as Hg.
  destruct (np_random_choice 60 [62; 64; 67]%Z g) as [root_note g1].
  cbn [snd] in Hg. subst g1.
  destruct (scale_lookup _) as [scale_notes|e]; cbn [bind]; [|discriminate].
  destruct (LyricsToMelody.convert_lines _ _ _ _ _ _ _ _) as [[c g2]|e] eqn:Hl; cbn [bind];
    [|discriminate].
  intros H. injection H as <- <-.
  cbn [LyricsToMelody.Result.note_count LyricsToMelody.Result.melody_lines].
  apply convert_lines_draws in Hl. destruct Hl as (k & Hd & Hk).
  cbn [LyricsToMelody.done_lines map] in Hk. change (list_sum []) with O in Hk.
  pose proof (after_draws_trans 1 k g (advance g) g2 (after_draws_advance g) Hd)
    as (Hu & Hn & Hp).
  rewrite fold_add_sum, Hk.
  split; [exact Hu|]. split; [exact Hn|]. split; [lia|].
  rewrite <- Hk, length_concat, map_map. reflexivity.
Qed.

(** ** Capital letters *)

Lemma lower_char_facts : forall c,
  isspace (lower_char c) = isspace c
  /\ Ascii.eqb (lower_char c) newline = Ascii.eqb c newline
  /\ lower_char (lower_char c) = lower_char c.
Proof.
  intros c. destruct c as [[] [] [] [] [] [] [] []]; repeat split; reflexivity.
Qed.

Lemma str_lower_app : forall a b,
  str_lower (a ++ b)%string = (str_lower a ++ str_lower b)%string.
Proof.
  induction a as [|c a IH]; intros b; cbn [str_lower String.append];
    [reflexivity | now rewrite IH].
Qed.

Lemma str_lower_idempotent : forall s, str_lower (str_lower s) = str_lower s.
Proof.
  induction s as [|c s IH]; cbn [str_lower]; [reflexivity|].
  rewrite IH. now rewrite (proj2 (proj2 (lower_char_facts c))).
Qed.

Lemma split_on_acc_lower : forall s acc,
  split_on_acc newline (str_lower s) (str_lower acc)
  = map str_lower (split_on_acc newline s acc).
Proof.
  induction s as [|c s IH]; intros acc; cbn [str_lower split_on_acc map];
    [reflexivity|].
  rewrite (proj1 (proj2 (lower_char_facts c))).
  destruct (Ascii.eqb c newline).
  - cbn [map]. f_equal. apply (IH EmptyString).
  - rewrite <- IH. f_equal. now rewrite str_lower_app.
Qed.

Lemma str_lstrip_lower : forall s, str_lstrip (str_lower s) = str_lower (str_lstrip s).
Proof.
  induction s as [|c s IH]; cbn [str_lower str_lstrip]; [reflexivity|].
  rewrite (proj1 (lower_char_facts c)).
  destruct (isspace c); [exact IH | reflexivity].
Qed.

Lemma str_rstrip_lower : forall s, str_rstrip (str_lower s) = str_lower (str_rstrip s).
Proof.
  induction s as [|c s IH]; cbn [str_lower str_rstrip]; [reflexivity|].
  rewrite IH, (proj1 (lower_char_facts c)).
  destruct (str_rstrip s) as [|d r]; cbn [str_lower].
  - destruct (isspace c); reflexivity.
  - reflexivity.
Qed.

Lemma str_strip_lower : forall s, str_strip (str_lower s) = str_lower (str_strip s).
Proof.
  intros s. unfold str_strip. now rewrite str_lstrip_lower, str_rstrip_lower.
Qed.

Lemma is_empty_lower : forall s, is_empty (str_lower s) = is_empty s.
Proof. now intros [|c s]. Qed.

Lemma stripped_lines_lower : forall lyrics,
  stripped_lines (str_lower lyrics) = map str_lower (stripped_lines lyrics).
Proof.
  intros lyrics. unfold stripped_lines, str_split_on.
  change (split_on_acc newline (str_lower lyrics) EmptyString)
    with (split_on_acc newline (str_lower lyrics) (str_lower EmptyString)).
  rewrite split_on_acc_lower.
  induction (split_on_acc newline lyrics EmptyString) as [|line rest IH];
    cbn [map filter]; [reflexivity|].
  rewrite str_strip_lower, is_empty_lower.
  destruct (is_empty (str_strip line)); cbn [negb map].
  - exact IH.
  - now rewrite IH, str_strip_lower.
Qed.

Lemma analyze_lines_lower : forall todo st,
  analyze_lines (map str_lower todo) st = analyze_lines todo st.
Proof.
  induction todo as [|line rest IH]; intros st; cbn [map analyze_lines];
    [reflexivity|].
  unfold analyze_line. rewrite str_lower_idempotent.
  destruct (np_mean _) as [e|e]; cbn [bind]; [apply IH | reflexivity].
Qed.

Lemma analyze_lines_other_lines : forall todo l1 l2 n arc counts total,
  analyze_lines todo (mkLyricAnalysis l2 n arc counts total)
  = match analyze_lines todo (mkLyricAnalysis l1 n arc counts total) with
    | Ok st => Ok (mkLyricAnalysis l2 (line_count st) (emotional_arc st)
                     (syllable_counts st) (total_syllables st))
    | Err e => Err e
    end.
Proof.
  induction todo as [|line rest IH]; intros l1 l2 n arc counts total;
    cbn [analyze_lines]; [reflexivity|].
  unfold analyze_line.
  cbn [lines line_count emotional_arc syllable_counts total_syllables].
  destruct (np_mean _) as [e|e]; cbn [bind]; [apply IH | reflexivity].
Qed.

Lemma analyze_lines_keeps_lines : forall todo st st',
  analyze_lines todo st = Ok st' -> lines st' = lines st.
Proof.
  induction todo as [|line rest IH]; intros st st'; cbn [analyze_lines].
  - intros H. now injection H as <-.
  - unfold analyze_line. destruct (np_mean _) as [e|e]; cbn [bind]; [|discriminate].
    intros H. apply IH in H. exact H.
Qed.

Lemma analyze_lyrics_structure_lower : forall lyrics,
  _analyze_lyrics_structure (str_lower lyrics)
  = match _analyze_lyrics_structure lyrics with
    | Ok la => Ok (lowered_structure la)
    | Err e => Err e
    end.
Proof.
  intros lyrics. unfold _analyze_lyrics_structure. cbv zeta.
  rewrite stripped_lines_lower, analyze_lines_lower, length_map.
  rewrite (analyze_lines_other_lines _ (stripped_lines lyrics)).
  destruct (analyze_lines _ _) as [st|e] eqn:E; [|reflexivity].
  apply analyze_lines_keeps_lines in E. cbn [lines] in E.
  unfold lowered_structure. now rewrite E.
Qed.

Lemma analyze_line_syllables_lower : forall line,
  _analyze_line_syllables (str_lower line) = _analyze_line_syllables line.
Proof.
  intros line. unfold _analyze_line_syllables. now rewrite str_lower_idempotent.
Qed.

Lemma generate_phrase_lower :
  forall line syllable_data ew root_note scale_name start tempo_in g,
  _generate_phrase_from_line (str_lower line) syllable_data ew root_note scale_name
    start tempo_in g
  = match _generate_phrase_from_line line syllable_data ew root_note scale_name
            start tempo_in g with
    | Ok (phrase, g') => Ok (lowered_phrase phrase, g')
    | Err e => Err e
    end.
Proof.
  intros. unfold _generate_phrase_from_line.
  destruct (scale_lookup scale_name) as [scale_notes|e]; cbn [bind]; [|reflexivity].
  destruct (word_loop _ _ _ _ _ _ _) as [[c g']|e]; reflexivity.
Qed.

Lemma phrase_loop_lower :
  forall la1 la2 root_note scale_name tempo_in todo line_idx ps t g,
  emotional_arc la2 = emotional_arc la1 ->
  phrase_loop la2 root_note scale_name tempo_in line_idx (map str_lower todo)
    (mkMelodyCursor (map lowered_phrase ps) t) g
  = match phrase_loop la1 root_note scale_name tempo_in line_idx todo
            (mkMelodyCursor ps t) g with
    | Ok (c, g') =>
        Ok (mkMelodyCursor (map lowered_phrase (melody_phrases c)) (melody_time c), g')
    | Err e => Err e
    end.
Proof.
  intros la1 la2 root_note scale_name tempo_in todo.
  induction todo as [|line rest IH]; intros line_idx ps t g Harc;
    cbn [map phrase_loop]; [reflexivity|].
  rewrite str_strip_lower, is_empty_lower.
  destruct (is_empty (str_strip line)); [now apply IH|].
  rewrite analyze_line_syllables_lower, Harc.
  destruct (py_getitem (emotional_arc la1) line_idx) as [ew|e]; cbn [bind];
    [|reflexivity].
  cbn [melody_time melody_phrases].
  rewrite generate_phrase_lower.
  destruct (_generate_phrase_from_line line _ ew root_note scale_name t tempo_in g)
    as [[phrase g1]|e]; cbn [bind]; [|reflexivity].
  change (notes (lowered_phrase phrase)) with (notes phrase).
  change (map lowered_phrase ps ++ [lowered_phrase phrase])
    with (map lowered_phrase ps ++ map lowered_phrase [phrase]).
  rewrite <- map_app. now apply IH.
Qed.

Lemma count_notes_lowered : forall ps,
  count_notes (map lowered_phrase ps) = count_notes ps.
Proof.
  intros ps. unfold count_notes. now rewrite map_map.
Qed.

Lemma generate_melody_lower : forall lyrics genre mood tempo_in g,
  generate_melody_from_lyrics (str_lower lyrics) (str_lower genre) (str_lower mood)
    tempo_in g
  = match generate_melody_from_lyrics lyrics genre mood tempo_in g with
    | Ok (melody, g') => Ok (lowered_melody melody, g')
    | Err e => Err e
    end.
Proof.
  intros lyrics genre mood tempo_in g. unfold generate_melody_from_lyrics.
  rewrite analyze_lyrics_structure_lower.
  destruct (_analyze_lyrics_structure lyrics) as [la|e]; cbn [bind]; [|reflexivity].
  change (emotional_arc (lowered_structure la)) with (emotional_arc la).
  change (lines (lowered_structure la)) with (map str_lower (lines la)).
  assert (Hkey : _determine_key_and_scale (emotional_arc la) (str_lower mood) g
                 = _determine_key_and_scale (emotional_arc la) mood g).
  { unfold _determine_key_and_scale. now rewrite str_lower_idempotent. }
  rewrite Hkey.
  destruct (_determine_key_and_scale (emotional_arc la) mood g)
    as [[root_note scale_name] g1].
  assert (Hf : _generate_audio_features (str_lower genre) (str_lower mood) tempo_in
                 root_note scale_name
               = _generate_audio_features genre mood tempo_in root_note scale_name).
  { unfold _generate_audio_features, apply_genre, apply_mood.
    now rewrite !str_lower_idempotent. }
  rewrite Hf.
  change (mkMelodyCursor [] 0.0) with (mkMelodyCursor (map lowered_phrase []) 0.0) at 1.
  rewrite (phrase_loop_lower la (lowered_structure la)) by reflexivity.
  destruct (phrase_loop la _ _ _ _ _ _ _) as [[c g2]|e]; cbn [bind]; [|reflexivity].
  cbn [melody_phrases melody_time]. unfold lowered_melody.
  cbn [phrases audio_features structure total_duration note_count].
  now rewrite count_notes_lowered.
Qed.

Lemma generate_vocals_lowered : forall exp2 lyrics1 lyrics2 melody voice sample g,
  generate_vocals_with_melody exp2 lyrics2 (lowered_melody melody) voice sample g
  = generate_vocals_with_melody exp2 lyrics1 melody voice sample g.
Proof.
  intros exp2 lyrics1 lyrics2 melody voice sample g.
  assert (Hn : all_notes (lowered_melody melody) = all_notes melody).
  { unfold all_notes, lowered_melody. cbn [phrases]. now rewrite map_map. }
  unfold generate_vocals_with_melody, _generate_phoneme_timing, _extract_pitch_contour,
    _generate_dynamics, _synthesize_vocal_track.
  rewrite Hn. reflexivity.
Qed.

(** Capital letters in the lyrics, the genre and the mood change nothing
    but the lines that the melody stores: the notes, the audio features, the
    counts, the vocals, the generator state and the exception of a failing
    call are those of the lower-case inputs. *)
Theorem capital_letters_change_only_the_stored_lines :
  forall exp2 lyrics genre mood tempo_in voice sample g,
  generate_song_stages exp2 (str_lower lyrics) (str_lower genre) (str_lower mood)
    tempo_in voice sample g
  = match generate_song_stages exp2 lyrics genre mood tempo_in voice sample g with
    | Ok ((melody, vocals), g') => Ok ((lowered_melody melody, vocals), g')
    | Err e => Err e
    end.
Proof.
  intros exp2 lyrics genre mood tempo_in voice sample g. unfold generate_song_stages.
  rewrite generate_melody_lower.
  destruct (generate_melody_from_lyrics lyrics genre mood tempo_in g) as [[m g1]|e];
    cbn [bind]; [|reflexivity].
  rewrite (generate_vocals_lowered exp2 lyrics).
  destruct (generate_vocals_with_melody exp2 lyrics m voice sample g1) as [[v g2]|e];
    reflexivity.
Qed.

End FurtherProperties.

(** ** Instances of the further properties *)

Section FurtherInstances.

#[local] Existing Instance exact_arith.

Lemma quantize_pitch_stays_near_witness :
  dict_get scales "major" = Some [0; 2; 4; 5; 7; 9; 11]%Z
  /\ (exists p,
      quantize_pitch [0; 2; 4; 5; 7; 9; 11]%Z 60%Z 75%Z = Ok p
      /\ (Z.abs (p - 75%Z) <= 2)%Z
      /\ ((p - 60%Z) / 12 = (75%Z - 60%Z) / 12)%Z
      /\ (length [0; 2; 4; 5; 7; 9; 11]%Z = 7%nat -> (75%Z - 1 <= p <= 75%Z)%Z)).
Proof.
  split; [reflexivity|].
  apply (quantize_pitch_stays_near "major" [0; 2; 4; 5; 7; 9; 11]%Z 60%Z 75%Z);
    reflexivity.
Defined.

Lemma quantize_pitch_idempotent_witness :
  dict_get scales "major" = Some [0; 2; 4; 5; 7; 9; 11]%Z
  /\ quantize_pitch [0; 2; 4; 5; 7; 9; 11]%Z 60%Z 75%Z = Ok 74%Z
  /\ (quantize_pitch [0; 2; 4; 5; 7; 9; 11]%Z 60%Z 74%Z = Ok 74%Z).
Proof.
  split; [reflexivity|].
  split; [reflexivity|].
  apply (quantize_pitch_idempotent "major" [0; 2; 4; 5; 7; 9; 11]%Z 60%Z 75%Z 74%Z);
    [reflexivity | reflexivity].
Defined.

Lemma generated_velocities_unclamped_witness :
  120%Z <> 0%Z
  /\ (exists melody g',
      generate_melody_from_lyrics "Love is all we need" "pop" "happy" 120%Z example_seed = Ok (melody, g')
      /\ forall p, In p (phrases melody) ->
           let syllables := syllables_of_line (lyric_line p) in
           map velocity (notes p)
             = map (fun s => ((if syl_stressed s then 90 else 70)
                              + py_int (Qabs (syl_weight s) * 20))%Z)
                   syllables
           /\ map (fun n => (90 <=? velocity n)%Z) (notes p)
              = map syl_stressed syllables
           /\ Forall (fun n => (70 <= velocity n <= 108)%Z) (notes p)).
Proof.
  split; [discriminate|].
  apply (generated_velocities_unclamped "Love is all we need" "pop" "happy" 120%Z example_seed);
    discriminate.
Defined.

Lemma dynamics_within_unit_interval_witness :
  Forall (fun n => (0 <= velocity n <= 127)%Z) (all_notes example_melody)
  /\ (Forall (fun x => 0 <= x <= 1) (_generate_dynamics example_melody)
    /\ forall note, In note (all_notes example_melody) ->
         exists first rest, note_dynamics note = first :: rest /\ first == 0).
Proof.
  split; [repeat constructor; cbn [velocity]; lia|].
  apply (dynamics_within_unit_interval example_melody);
    repeat constructor; cbn [velocity]; lia.
Defined.

Lemma synthesize_vocal_track_ranges_witness :
  [440; 466] <> []
  /\ [0; 0.5] <> []
  /\ (exists track,
      _synthesize_vocal_track example_melody (@nil PhonemeEvent) [440; 466] [0; 0.5] default_voice_settings false = Ok track
      /\ In (fst (meta_pitch_range (metadata track))) [440; 466]
      /\ In (snd (meta_pitch_range (metadata track))) [440; 466]
      /\ Forall (fun x => fst (meta_pitch_range (metadata track)) <= x
                          /\ x <= snd (meta_pitch_range (metadata track))) [440; 466]
      /\ In (fst (dynamic_range (metadata track))) [0; 0.5]
      /\ In (snd (dynamic_range (metadata track))) [0; 0.5]
      /\ Forall (fun x => fst (dynamic_range (metadata track)) <= x
                          /\ x <= snd (dynamic_range (metadata track))) [0; 0.5]
      /\ phoneme_count (metadata track) = length (@nil PhonemeEvent)
      /\ track_duration track = total_duration example_melody
      /\ voice_model track = voice_type default_voice_settings).
Proof.
  split; [discriminate|].
  split; [discriminate|].
  apply (synthesize_vocal_track_ranges example_melody (@nil PhonemeEvent) [440; 466] [0; 0.5]
           default_voice_settings false);
    [discriminate | discriminate].
Defined.

Lemma notes_follow_the_syllables_witness :
  120%Z <> 0%Z
  /\ (exists melody g',
      generate_melody_from_lyrics "Love is all we need" "pop" "happy" 120%Z example_seed = Ok (melody, g')
      /\ map (fun p => map syllable (notes p)) (phrases melody)
         = map line_labels (stripped_lines "Love is all we need")
      /\ map (fun p => length (notes p)) (phrases melody)
         = syllable_counts (structure melody)
      /\ note_count melody = total_syllables (structure melody)
      /\ line_count (structure melody) = length (phrases melody)).
Proof.
  split; [discriminate|].
  apply (notes_follow_the_syllables "Love is all we need" "pop" "happy" 120%Z example_seed);
    discriminate.
Defined.

Lemma bracketed_word_fails_vocal_stage_witness :
  120%Z <> 0%Z
  /\ existsb unstressed_bracket_word (lyric_words "[Chorus]") = true
  /\ (generate_song_stages (fun x : Q => x) "[Chorus]" "pop" "happy" 120%Z None false example_seed
      = Err ZeroDivisionError
      /\ forall w, unstressed_bracket_word w
                   = starts_with_bracket w && (1 <? count_vowels w)%nat).
Proof.
  split; [discriminate|].
  split; [reflexivity|].
  apply (bracketed_word_fails_vocal_stage (fun x : Q => x) "[Chorus]" "pop" "happy" 120%Z None false example_seed);
    [discriminate | reflexivity].
Defined.

Lemma blank_lyrics_fail_vocal_stage_witness :
  lyric_words "  " = []
  /\ ((exists melody g',
       generate_melody_from_lyrics "  " "pop" "happy" 120%Z example_seed = Ok (melody, g')
       /\ phrases melody = [] /\ note_count melody = 0%nat)
    /\ generate_song_stages (fun x : Q => x) "  " "pop" "happy" 120%Z None false example_seed
       = Err ValueError).
Proof.
  split; [reflexivity|].
  apply (blank_lyrics_fail_vocal_stage (fun x : Q => x) "  " "pop" "happy" 120%Z None false example_seed);
    reflexivity.
Defined.

Lemma plain_lyrics_produce_melody_and_vocals_witness :
  120%Z <> 0%Z
  /\ lyric_words "Love is all we need" <> []
  /\ existsb starts_with_bracket (lyric_words "Love is all we need") = false
  /\ (exists melody vocals g',
      generate_song_stages (fun x : Q => x) "Love is all we need" "pop" "happy" 120%Z None false example_seed
        = Ok ((melody, vocals), g')
      /\ Forall (fun n => note_phonemes n <> []) (all_notes melody)
      /\ length (phoneme_timing vocals)
         = list_sum (map (fun n => length (note_phonemes n)) (all_notes melody))
      /\ py_sum (map ph_duration (phoneme_timing vocals)) == total_duration melody
      /\ phoneme_count (metadata (vocal_track vocals)) = length (phoneme_timing vocals)
      /\ track_duration (vocal_track vocals) = total_duration melody).
Proof.
  split; [discriminate|].
  split; [vm_compute; discriminate|].
  split; [reflexivity|].
  apply (plain_lyrics_produce_melody_and_vocals (fun x : Q => x) "Love is all we need" "pop" "happy"
           120%Z None false example_seed);
    [discriminate | vm_compute; discriminate | reflexivity].
Defined.

Lemma zero_tempo_fails_melody_stage_witness :
  lyric_words "Love is all we need" <> []
  /\ (generate_melody_from_lyrics "Love is all we need" "pop" "happy" 0 example_seed = Err ZeroDivisionError
    /\ generate_song_stages (fun x : Q => x) "Love is all we need" "pop" "happy" 0 None false example_seed
       = Err ZeroDivisionError).
Proof.
  split; [vm_compute; discriminate|].
  apply (zero_tempo_fails_melody_stage (fun x : Q => x) "Love is all we need" "pop" "happy" None false example_seed);
    vm_compute; discriminate.
Defined.

Lemma convert_pitches_in_scale_witness :
  120%Z <> 0%Z
  /\ (exists r g' scale_notes,
      LyricsToMelody.convert_lyrics_to_melody "Love is all we need" 120%Z example_seed = Ok (r, g')
      /\ In (LyricsToMelody.Result.key r) [60; 62; 64; 67]%Z
      /\ In (LyricsToMelody.Result.scale r) ["major"; "minor"; "dorian"]
      /\ dict_get scales (LyricsToMelody.Result.scale r) = Some scale_notes
      /\ length (LyricsToMelody.Result.melody_lines r) = length (non_blank_lines "Love is all we need")
      /\ forall p n, In p (LyricsToMelody.Result.melody_lines r) -> In n (LyricsToMelody.Phrase.notes p) ->
           In ((LyricsToMelody.Note.pitch n - LyricsToMelody.Result.key r) mod 12)%Z scale_notes).
Proof.
  split; [discriminate|].
  apply (convert_pitches_in_scale "Love is all we need" 120%Z example_seed);
    discriminate.
Defined.

Lemma convert_stress_pattern_read_back_witness :
  120%Z <> 0%Z
  /\ (exists r g',
      LyricsToMelody.convert_lyrics_to_melody "Love is all we need" 120%Z example_seed = Ok (r, g')
      /\ map LyricsToMelody.Phrase.stress_pattern (LyricsToMelody.Result.melody_lines r)
         = map (fun line =>
                  map (fun be => (fst be
                                  || (11 <=? py_int (Qabs (snd be) * 20))%Z)%bool)
                      (flag_emotions line))
               (stripped_lines "Love is all we need")
      /\ Forall (fun p => LyricsToMelody.Phrase.stress_pattern p
                          = map (fun n => (80 <? LyricsToMelody.Note.velocity n)%Z)
                                (LyricsToMelody.Phrase.notes p))
                (LyricsToMelody.Result.melody_lines r)).
Proof.
  split; [discriminate|].
  apply (convert_stress_pattern_read_back "Love is all we need" 120%Z example_seed);
    discriminate.
Defined.

Lemma convert_beats_and_counts_witness :
  120%Z <> 0%Z
  /\ (exists r g',
      LyricsToMelody.convert_lyrics_to_melody "Love is all we need" 120%Z example_seed = Ok (r, g')
      /\ (forall k p, nth_error (LyricsToMelody.Result.melody_lines r) k = Some p ->
            LyricsToMelody.Phrase.start_beat p
            == py_sum (map LyricsToMelody.Note.duration
                         (concat (map LyricsToMelody.Phrase.notes
                                      (firstn k (LyricsToMelody.Result.melody_lines r))))))
      /\ LyricsToMelody.Result.total_duration r
         == py_sum (map LyricsToMelody.Note.duration
                      (concat (map LyricsToMelody.Phrase.notes (LyricsToMelody.Result.melody_lines r))))
      /\ LyricsToMelody.Result.note_count r
         = length (concat (map flag_emotions (stripped_lines "Love is all we need")))
      /\ map (fun p => map LyricsToMelody.Note.duration (LyricsToMelody.Phrase.notes p)) (LyricsToMelody.Result.melody_lines r)
         = map (fun line =>
                  map (fun be : bool * Q => (if fst be then 0.75 else 0.5)
                                   * (inject_Z 120 / inject_Z 120%Z))
                      (flag_emotions line))
               (stripped_lines "Love is all we need")).
Proof.
  split; [discriminate|].
  apply (convert_beats_and_counts "Love is all we need" 120%Z example_seed);
    discriminate.
Defined.

Lemma generated_song_fields_witness :
  exists song,
    EnhancedMusicGenerator.generate_song (fun x : Q => x) example_song_data example_clock example_seed = EnhancedMusicGenerator.Generated song
    /\ (EnhancedMusicGenerator.data_title example_song_data = Some (EnhancedMusicGenerator.title song)
      /\ EnhancedMusicGenerator.data_lyrics example_song_data = Some (EnhancedMusicGenerator.lyrics song)
      /\ EnhancedMusicGenerator.data_genre example_song_data = Some (EnhancedMusicGenerator.genre song)
      /\ EnhancedMusicGenerator.data_mood example_song_data = Some (EnhancedMusicGenerator.mood song)
      /\ EnhancedMusicGenerator.tempo song <> 0%Z
      /\ match EnhancedMusicGenerator.data_tempo example_song_data with
         | Some t => EnhancedMusicGenerator.tempo song = t
         | None =>
             (fst (EnhancedMusicGenerator.tempo_range (EnhancedMusicGenerator.config_for example_song_data)) <= EnhancedMusicGenerator.tempo song
              < snd (EnhancedMusicGenerator.tempo_range (EnhancedMusicGenerator.config_for example_song_data)))%Z
             /\ (100 <= EnhancedMusicGenerator.tempo song < 160)%Z
         end
      /\ tempo (audio_features (EnhancedMusicGenerator.melody song)) = EnhancedMusicGenerator.tempo song
      /\ (1 <= note_count (EnhancedMusicGenerator.melody song))%nat
      /\ EnhancedMusicGenerator.id song = ("song_" ++ str_of_Z (epoch_seconds example_clock))%string
      /\ EnhancedMusicGenerator.created_at song = formatted_time example_clock
      /\ EnhancedMusicGenerator.audio_url song
         = ("/generated/" ++ replace_spaces (str_lower (EnhancedMusicGenerator.title song)) ++ ".wav")%string
      /\ existsb (Ascii.eqb " ") (list_ascii_of_string (EnhancedMusicGenerator.audio_url song)) = false
      /\ voice_model (vocal_track (EnhancedMusicGenerator.vocals song))
         = match EnhancedMusicGenerator.data_vocal_settings example_song_data, EnhancedMusicGenerator.data_vocals example_song_data with
           | Some v, _ => voice_type v
           | None, Some name => name
           | None, None => "male_lead"
           end
      /\ EnhancedMusicGenerator.metadata song = match EnhancedMusicGenerator.data_metadata example_song_data with
                           | Some m => m
                           | None => []
                           end).
Proof.
  destruct (EnhancedMusicGenerator.generate_song (fun x : Q => x) example_song_data
              example_clock example_seed)
    as [song|cause] eqn:H; [|vm_compute in H; discriminate].
  exists song. split; [reflexivity|].
  exact (generated_song_fields unit (fun x : Q => x) example_song_data example_clock
           example_seed song H).
Defined.

Lemma stages_take_one_draw_per_note_and_sample_witness :
  exists melody vocals g',
    generate_song_stages (fun x : Q => x) "Love is all we need" "pop" "happy" 120%Z None false example_seed
      = Ok ((melody, vocals), g')
    /\ (uniform_draws g' = uniform_draws example_seed
      /\ normal_draws g' = normal_draws example_seed
      /\ position g'
         = (position example_seed + 1 + note_count melody + length (pitch_contour vocals))%nat
      /\ length (pitch_contour vocals) = list_sum (map num_points (all_notes melody))
      /\ exists g1,
           generate_melody_from_lyrics "Love is all we need" "pop" "happy" 120%Z example_seed = Ok (melody, g1)
           /\ position g1 = (position example_seed + 1 + note_count melody)%nat
           /\ generate_vocals_with_melody (fun x : Q => x) "Love is all we need" melody None false g1
              = Ok (vocals, g')).
Proof.
  destruct (generate_song_stages (fun x : Q => x) "Love is all we need" "pop" "happy" 120%Z None
              false example_seed)
    as [[[melody vocals] g']|e] eqn:H; [|vm_compute in H; discriminate].
  exists melody, vocals, g'. split; [reflexivity|].
  exact (stages_take_one_draw_per_note_and_sample (fun x : Q => x) "Love is all we need"
           "pop" "happy" 120%Z None false example_seed melody vocals g' H).
Defined.

Lemma convert_takes_one_draw_per_note_witness :
  exists r g',
    LyricsToMelody.convert_lyrics_to_melody "Love is all we need" 120%Z example_seed = Ok (r, g')
    /\ (uniform_draws g' = uniform_draws example_seed
      /\ normal_draws g' = normal_draws example_seed
      /\ position g' = (position example_seed + 1 + LyricsToMelody.Result.note_count r)%nat
      /\ LyricsToMelody.Result.note_count r
         = length (concat (map LyricsToMelody.Phrase.notes (LyricsToMelody.Result.melody_lines r)))).
Proof.
  destruct (LyricsToMelody.convert_lyrics_to_melody "Love is all we need" 120%Z example_seed)
    as [[r g']|e] eqn:H; [|vm_compute in H; discriminate].
  exists r, g'. split; [reflexivity|].
  exact (convert_takes_one_draw_per_note "Love is all we need" 120%Z example_seed r g' H).
Defined.

End FurtherInstances.
